(** * Yt-shorts: the media composition and encode-fallback pipeline

    A shallow embedding of the two workers of the repository,

    - [create_slideshow_thread] and [zoom_crop_and_resize] of
      [image_video_maker.py] (still images -> slideshow video), and
    - [_worker_convert] and the filter builders of
      [portrait_to_landscape_pro_rewrite.py] (portrait video -> landscape),

    followed by the properties the specification states about them.

    Conventions of the embedding:
    - Python [int] is [Z]; Python [float] is an IEEE-754 binary64 value,
      a [spec_float] handled with precision 53 and exponent bound 1024;
      NumPy [float32] is a [spec_float] handled with precision 24 and
      exponent bound 128.  All roundings are to nearest, ties to even.
      The true division of two [int]s rounds their quotient once.
    - A Python exception is the text [str(exc)] it carries.
    - Everything outside the interpreter (the file system listing, the image
      decoder, the resampling kernel, the video writer, ffmpeg, the stop
      button) is an explicit oracle, a field of an environment record. *)

From Stdlib Require Import ZArith QArith Qround Qpower Floats.SpecFloat
  DecimalString Ascii String Zpower Lia Lqa.
From Stdlib Require OrderedTypeEx.
From Stdlib Require Import Sorted.
From stdpp Require Import base strings gmap list.

Open Scope Z_scope.

(* ===================================================================== *)
(** * Python values: exceptions, integers, floats, strings               *)
(* ===================================================================== *)

Module Py.

(** The result of evaluating a Python expression or statement: a value, or
    a raised exception (its message). *)
Inductive outcome (A : Type) : Type :=
| Ret (a : A)
| Raise (e : string).
Arguments Ret {A} a.
Arguments Raise {A} e.

Definition obind {A B : Type} (o : outcome A) (k : A -> outcome B) : outcome B :=
  match o with
  | Ret a => k a
  | Raise e => Raise e
  end.

#[export] Instance outcome_ret : MRet outcome := @Ret.
#[export] Instance outcome_bind : MBind outcome :=
  fun A B k o => obind o k.

(** [range(n)]: empty when [n <= 0]. *)
Definition range (n : Z) : list Z := map Z.of_nat (seq 0 (Z.to_nat n)).

(** [str(n)] for an [int]. *)
Definition str_of_int (z : Z) : string := NilZero.string_of_int (Z.to_int z).

(** ** binary64 ([float]) *)

Definition float := spec_float.

(** [float(n)]; exact whenever [|n| <= 2^53]. *)
Definition float_of_int (z : Z) : float := binary_normalize 53 1024 z 0 false.

Definition is_zero (x : float) : bool :=
  match x with
  | S754_zero _ => true
  | _ => false
  end.

Definition fmul (x y : float) : float := SFmul 53 1024 x y.
Definition fsub (x y : float) : float := SFsub 53 1024 x y.

(** [x / y] on floats raises [ZeroDivisionError] on a zero divisor. *)
Definition fdiv (x y : float) : outcome float :=
  if is_zero y then Raise "float division by zero"
  else Ret (SFdiv 53 1024 x y).

(** An [int] as it enters a true division: mantissa and exponent 0, not
    rounded. *)
Definition unrounded (z : Z) : float :=
  match z with
  | 0 => S754_zero false
  | Z.pos p => S754_finite false p 0
  | Z.neg p => S754_finite true p 0
  end.

(** [a / b] on ints (true division): the quotient of the two integers,
    rounded once, whatever their size; a zero divisor raises
    [ZeroDivisionError], a quotient beyond the floats [OverflowError]. *)
Definition truediv (a b : Z) : outcome float :=
  if b =? 0 then Raise "division by zero"
  else
    match SFdiv 53 1024 (unrounded a) (unrounded b) with
    | S754_infinity _ => Raise "integer division result too large for a float"
    | q => Ret q
    end.

(** [x > y]. *)
Definition fgt (x y : float) : bool := SFltb y x.

(** The integer part of a finite float, rounded toward zero. *)
Definition SFtrunc (x : spec_float) : option Z :=
  match x with
  | S754_zero _ => Some 0
  | S754_finite s m e =>
      let a := match e with
               | Zneg p => Z.pos m / 2 ^ Z.pos p
               | _ => Z.pos m * 2 ^ e
               end in
      Some (if s then - a else a)
  | S754_infinity _ | S754_nan => None
  end.

(** [int(x)] on a float: truncation toward zero; infinities and NaN raise. *)
Definition int_of_float (x : float) : outcome Z :=
  match SFtrunc x with
  | Some z => Ret z
  | None => Raise "cannot convert float to integer"
  end.

(** The exact value of a finite float, as a rational. *)
Definition Q_of_float (x : spec_float) : Q :=
  match x with
  | S754_finite s m e =>
      let q := match e with
               | Zneg p => Qmake (Z.pos m) (2 ^ p)
               | _ => inject_Z (Z.pos m * 2 ^ e)
               end in
      if s then Qopp q else q
  | _ => inject_Z 0
  end.

(** The integer part of a rational, rounded toward zero. *)
Definition Qtrunc (q : Q) : Z :=
  if Qnum q <? 0 then - Qfloor (Qopp q) else Qfloor q.

(** A binary64 float in the normal range: positive, with a mantissa of at
    most 53 digits and a magnitude [digits + exponent] within [lo, hi]. *)
Definition normal (lo hi : Z) (x : spec_float) : Prop :=
  exists m e, x = S754_finite false m e /\
              Zdigits2 (Z.pos m) <= 53 /\
              lo <= Zdigits2 (Z.pos m) + e <= hi.

(** Structural equality of floats. *)
Definition sf_eqb (x y : spec_float) : bool :=
  match x, y with
  | S754_zero a, S754_zero b => Bool.eqb a b
  | S754_infinity a, S754_infinity b => Bool.eqb a b
  | S754_nan, S754_nan => true
  | S754_finite a m e, S754_finite b n f =>
      (Bool.eqb a b && Pos.eqb m n && Z.eqb e f)%bool
  | _, _ => false
  end.

(** [int(100 * a / b)], the percentage idiom of both workers. *)
Definition percent (a b : Z) : outcome Z :=
  q ← truediv (100 * a) b; int_of_float q.

(** ** Strings and paths *)

Definition startswith (s p : string) : bool := String.prefix p s.

Fixpoint rev_string_acc (s acc : string) : string :=
  match s with
  | EmptyString => acc
  | String c r => rev_string_acc r (String c acc)
  end.
Definition rev_string (s : string) : string := rev_string_acc s EmptyString.

Definition endswith (s p : string) : bool :=
  String.prefix (rev_string p) (rev_string s).

(** [s.lower()] on the ASCII letters; the code only uses it to test a file
    name for an ASCII extension. *)
Definition lower_ascii (c : ascii) : ascii :=
  let n := nat_of_ascii c in
  if ((65 <=? n) && (n <=? 90))%nat then ascii_of_nat (n + 32) else c.

Fixpoint lower (s : string) : string :=
  match s with
  | EmptyString => EmptyString
  | String c r => String (lower_ascii c) (lower r)
  end.

(** [os.path.join(a, b)] (POSIX). *)
Definition path_join (a b : string) : string :=
  if startswith b "/" then b
  else if (String.eqb a EmptyString || endswith a "/")%bool then a +:+ b
  else a +:+ "/" +:+ b.

(** [sorted(l)] on strings: a stable insertion sort on the code-point
    order. *)
Fixpoint insert_sorted (x : string) (l : list string) : list string :=
  match l with
  | [] => [x]
  | y :: r => if String.ltb x y then x :: l else y :: insert_sorted x r
  end.

Definition sorted (l : list string) : list string :=
  foldr (fun x acc => insert_sorted x acc) [] (rev l).

(** The line break of f-strings. *)
Definition newline : string := String (ascii_of_nat 10) EmptyString.

(** [s[:n]]. *)
Definition take_str (n : nat) (s : string) : string := String.substring 0 n s.

(** [s[1:]]. *)
Definition drop_first (s : string) : string :=
  match s with
  | EmptyString => EmptyString
  | String _ r => r
  end.

(** [os.path.basename(p)]: what follows the last slash. *)
Fixpoint basename_from (s current : string) : string :=
  match s with
  | EmptyString => rev_string current
  | String c r =>
      if Ascii.eqb c "/" then basename_from r EmptyString
      else basename_from r (String c current)
  end.
Definition basename (p : string) : string := basename_from p EmptyString.

(** [os.path.splitext(name)[0]] on a name without slash: the name up to its
    last dot, unless only dots precede that dot. *)
Fixpoint all_dots (s : string) : bool :=
  match s with
  | EmptyString => true
  | String c r => (Ascii.eqb c "." && all_dots r)%bool
  end.

Fixpoint after_last_dot (rev_name : string) : option string :=
  match rev_name with
  | EmptyString => None
  | String c r => if Ascii.eqb c "." then Some r else after_last_dot r
  end.

Definition splitext_root (name : string) : string :=
  match after_last_dot (rev_string name) with
  | Some rev_root => if all_dots rev_root then name else rev_string rev_root
  | None => name
  end.

(** [l.insert(i, x)]: a negative index counts from the end, and an index
    out of range is clamped. *)
Definition list_insert_at {A : Type} (i : Z) (x : A) (l : list A) : list A :=
  let n := Z.of_nat (length l) in
  let k := if i <? 0 then Z.max 0 (n + i) else Z.min i n in
  take (Z.to_nat k) l ++ x :: drop (Z.to_nat k) l.

End Py.
Import Py.

(* ===================================================================== *)
(** * The value of a float                                                *)
(* ===================================================================== *)

Module Rounding.

(** [2^e] as a rational. *)
Definition pow2 (e : Z) : Q := Qpower (inject_Z 2) e.

(** [x] is a positive float with a mantissa of [prec] digits and a value
    within one unit in the last place of [v]. *)
Definition near (prec : Z) (v : Q) (x : spec_float) : Prop :=
  exists m e,
    x = S754_finite false m e /\ Zdigits2 (Z.pos m) = prec /\
    ((inject_Z (Z.pos m) - 1) * pow2 e <= v)%Q /\
    (v <= (inject_Z (Z.pos m) + 1) * pow2 e)%Q.

(** The value of a float, as a rational (0 for what is not a number). *)
Definition value (x : spec_float) : Q :=
  match x with
  | S754_finite s m e =>
      if s then (- (inject_Z (Z.pos m) * pow2 e))%Q
      else (inject_Z (Z.pos m) * pow2 e)%Q
  | _ => 0%Q
  end.

(** A positive float with a mantissa of [prec] digits and a magnitude
    [prec + exponent] within [lo, hi]. *)
Definition canon (prec lo hi : Z) (x : spec_float) : Prop :=
  exists m e,
    x = S754_finite false m e /\ Zdigits2 (Z.pos m) = prec /\
    lo <= prec + e <= hi.

(** [v] is within [2^(1-prec)], relatively, of the value of [x]. *)
Definition close (prec : Z) (v : Q) (x : spec_float) : Prop :=
  (value x * (1 - pow2 (1 - prec)) <= v)%Q /\
  (v <= value x * (1 + pow2 (1 - prec)))%Q.

(** Zero, or a positive float as [canon] has it. *)
Definition canon0 (prec lo hi : Z) (x : spec_float) : Prop :=
  x = S754_zero false \/ canon prec lo hi x.

(** The relative error bounds of binary64 and float32, [2^-52] and
    [2^-23]. *)
Definition u52 : Q := 1 # 4503599627370496.
Definition u23 : Q := 1 # 8388608.

End Rounding.

(* ===================================================================== *)
(** * Statements: state and exceptions                                   *)
(* ===================================================================== *)

Module Eff.

(** A statement over a mutable state [S]: it ends normally with a value or
    raises, and in both cases leaves a state behind. *)
Definition M (S A : Type) : Type := S -> outcome A * S.

Definition mret_M {S A : Type} (a : A) : M S A := fun s => (Ret a, s).

Definition mbind_M {S A B : Type} (k : A -> M S B) (m : M S A) : M S B :=
  fun s => match m s with
           | (Ret a, s') => k a s'
           | (Raise e, s') => (Raise e, s')
           end.

#[export] Instance M_ret {S : Type} : MRet (M S) := fun A => @mret_M S A.
#[export] Instance M_bind {S : Type} : MBind (M S) := fun A B => @mbind_M S A B.

Definition raise {S A : Type} (e : string) : M S A := fun s => (Raise e, s).

(** An expression evaluated inside a statement. *)
Definition lift {S A : Type} (o : outcome A) : M S A := fun s => (o, s).

Definition gets {S A : Type} (f : S -> A) : M S A := fun s => (Ret (f s), s).

Definition modify {S : Type} (f : S -> S) : M S unit := fun s => (Ret tt, f s).

(** [try: body / except Exception as e: handler(e)]. *)
Definition try_except {S A : Type} (body : M S A) (handler : string -> M S A)
  : M S A :=
  fun s => match body s with
           | (Ret a, s') => (Ret a, s')
           | (Raise e, s') => handler e s'
           end.

(** Runs [body] and hands its exception, if any, to what follows. *)
Definition attempt {S A : Type} (body : M S A) : M S (outcome A) :=
  fun s => let '(r, s') := body s in (Ret r, s').

(** [for x in xs: body(x)]. *)
Fixpoint for_each {S A : Type} (xs : list A) (body : A -> M S unit)
  : M S unit :=
  match xs with
  | [] => mret tt
  | x :: r => body x ;; for_each r body
  end.

End Eff.
Import Eff.

(* ===================================================================== *)
(** * Images and frames (Pillow, NumPy, OpenCV)                          *)
(* ===================================================================== *)

Module Img.

Definition rgb : Type := Z * Z * Z.

(** A decoded PIL image in mode RGB: its [size = (width, height)] and its
    pixels. *)
Record Image : Type := MkImage {
  img_size : Z * Z;
  img_at : Z -> Z -> rgb
}.

(** Pillow's resampling filters. *)
Inductive resampling : Type :=
| NEAREST | BOX | BILINEAR | HAMMING | BICUBIC | LANCZOS.

(** [img.crop((left, upper, right, lower))]: the region, black outside the
    source. *)
Definition crop (im : Image) (box : Z * Z * Z * Z) : Image :=
  let '(l, t, r, b) := box in
  {| img_size := (r - l, b - t);
     img_at := fun x y =>
       let '(w, h) := img_size im in
       if ((0 <=? x + l) && (x + l <? w) && (0 <=? y + t) && (y + t <? h))%bool
       then img_at im (x + l) (y + t)
       else (0, 0, 0) |}.

(** An 8-bit [h x w x 3] NumPy array: its shape and its bytes in row-major
    order. *)
Record Frame : Type := MkFrame {
  fr_shape : Z * Z;
  fr_data : list Z
}.

(** [cv2.cvtColor(np.array(img), cv2.COLOR_RGB2BGR)]. *)
Definition to_bgr (im : Image) : Frame :=
  let '(w, h) := img_size im in
  {| fr_shape := (h, w);
     fr_data :=
       flat_map (fun y =>
         flat_map (fun x => let '(r, g, b) := img_at im x y in [b; g; r])
                  (range w))
         (range h) |}.

(** [np.zeros_like(a)]. *)
Definition zeros_like (a : Frame) : Frame :=
  {| fr_shape := fr_shape a; fr_data := map (fun _ => 0) (fr_data a) |}.

(** ** float32 arithmetic of the blend *)

(** [a.astype("float32")] on one byte. *)
Definition f32_of_int (z : Z) : spec_float := binary_normalize 24 128 z 0 false.

(** A Python float entering a float32 operation is first rounded to
    float32. *)
Definition f32_of_float (x : float) : spec_float :=
  match x with
  | S754_finite s m e => binary_round 24 128 s m e
  | _ => x
  end.

(** [x.astype("uint8")] on one float32 value: the fractional part is
    discarded (C conversion), the integer is kept modulo 256. *)
Definition uint8_of_f32 (x : spec_float) : Z :=
  match SFtrunc x with
  | Some z => z mod 256
  | None => 0
  end.

(** The float32 value [a * (1 - alpha) + b * alpha] of one byte pair. *)
Definition blend_f32 (alpha : float) (a b : Z) : spec_float :=
  SFadd 24 128
    (SFmul 24 128 (f32_of_int a) (f32_of_float (fsub (float_of_int 1) alpha)))
    (SFmul 24 128 (f32_of_int b) (f32_of_float alpha)).

Definition blend_px (alpha : float) (a b : Z) : Z :=
  uint8_of_f32 (blend_f32 alpha a b).

(** [(curr.astype("float32") * (1 - alpha) + next.astype("float32") * alpha)
      .astype("uint8")] on two arrays of one shape. *)
Definition blend (curr next : Frame) (alpha : float) : Frame :=
  {| fr_shape := fr_shape curr;
     fr_data := zip_with (blend_px alpha) (fr_data curr) (fr_data next) |}.

(** The blend as the specification words it, over the rationals:
    [round(a * (1 - alpha) + b * alpha)], rounding to nearest (a half goes
    up). *)
Definition round_nearest (q : Q) : Z := Qfloor (Qplus q (Qmake 1 2)).

Definition spec_blend_px (alpha : Q) (a b : Z) : Z :=
  round_nearest
    (Qplus (Qmult (inject_Z a) (Qminus (inject_Z 1) alpha))
           (Qmult (inject_Z b) alpha)).

(** The float [0.75], the blend factor [3 / 4]. *)
Definition three_quarters : float := S754_finite false 6755399441055744 (-53).

(** An image whose sides are positive and below [2^31]. *)
Definition image_ok (im : Image) : Prop :=
  0 < fst (img_size im) < 2 ^ 31 /\ 0 < snd (img_size im) < 2 ^ 31.

(** A frame of 8-bit samples. *)
Definition bytes_ok (f : Frame) : Prop :=
  Forall (fun v => 0 <= v <= 255) (fr_data f).

(** A frame is black when all its bytes are zero. *)
Definition is_black (f : Frame) : Prop := Forall (fun v => v = 0) (fr_data f).

Section Resize.

(** The resampling kernel of the imaging library: the colour of output pixel
    [(x, y)] when [src] is resized to [w x h] with the given filter. *)
Variable resample : resampling -> Image -> Z -> Z -> Z -> Z -> rgb.

(** [img.resize((w, h), filter)]. *)
Definition resize (im : Image) (size : Z * Z) (filt : resampling)
  : outcome Image :=
  let '(w, h) := size in
  if ((w <? 1) || (h <? 1))%bool then Raise "height and width must be > 0"
  else Ret {| img_size := (w, h); img_at := resample filt im w h |}.

(** The crop box chosen by [zoom_crop_and_resize]:
    [(left, top, new_w, new_h)]. *)
Definition crop_geometry (iw ih target_w target_h : Z)
  : outcome (Z * Z * Z * Z) :=
  target_ratio ← truediv target_w target_h;
  src_ratio ← truediv iw ih;
  if fgt src_ratio target_ratio then
    (* source wider: crop width *)
    let new_h := ih in
    new_w ← int_of_float (fmul (float_of_int ih) target_ratio);
    let left_ := (iw - new_w) / 2 in
    let top_ := 0 in
    Ret (left_, top_, new_w, new_h)
  else
    (* source taller: crop height *)
    let new_w := iw in
    q ← fdiv (float_of_int iw) target_ratio;
    new_h ← int_of_float q;
    let left_ := 0 in
    let top_ := (ih - new_h) / 2 in
    Ret (left_, top_, new_w, new_h).

(** [zoom_crop_and_resize(pil_img, target_w, target_h)]. *)
Definition zoom_crop_and_resize (pil_img : Image) (target_w target_h : Z)
  : outcome Image :=
  let '(iw, ih) := img_size pil_img in
  '(left_, top_, new_w, new_h) ← crop_geometry iw ih target_w target_h;
  let cropped := crop pil_img (left_, top_, left_ + new_w, top_ + new_h) in
  resize cropped (target_w, target_h) LANCZOS.

End Resize.

End Img.
Import Img.


(* ===================================================================== *)
(** * The file system seen by the workers                                *)
(* ===================================================================== *)

Module Fs.

(** What a file of interest holds. *)
Inductive artifact : Type :=
| RawVideo (frames : list Frame)   (* written by the OpenCV video writer *)
| Encoded (cmd : list string)      (* written by a successful ffmpeg run *)
| Media (tag : string).            (* any other file: a source video, music *)

(** [path] lies below directory [dir]. *)
Definition under (dir path : string) : bool := String.prefix (dir +:+ "/") path.

(** [shutil.rmtree(dir, ignore_errors=True)]. *)
Definition rmtree (dir : string) (fs : gmap string artifact)
  : gmap string artifact :=
  filter (fun kv => under dir kv.1 = false) fs.

(** [shutil.move(src, dst)] onto a file path, when the system allows it. *)
Definition move_file (src dst : string) (fs : gmap string artifact)
  : option (gmap string artifact) :=
  c ← fs !! src; Some (<[dst := c]> (delete src fs)).

(** [shutil.copy(src, dst)] onto a file path, when the system allows it. *)
Definition copy_file (src dst : string) (fs : gmap string artifact)
  : option (gmap string artifact) :=
  c ← fs !! src; Some (<[dst := c]> fs).

End Fs.
Import Fs.

(* ===================================================================== *)
(** * image_video_maker.py                                               *)
(* ===================================================================== *)

Module Slideshow.

(** The world of one slideshow job. *)
Record env : Type := MkEnv {
  (** [os.listdir(folder)] *)
  listdir : string -> outcome (list string);
  (** the order [random.shuffle] leaves the list in *)
  shuffled : list string -> list string;
  (** [Image.open(path).convert("RGB")] *)
  image_open : string -> outcome Image;
  (** the resampling kernel of [Image.resize] *)
  pil_resample : resampling -> Image -> Z -> Z -> Z -> Z -> rgb;
  (** the directory [tempfile.mkdtemp(prefix="thumbvid_")] creates *)
  mkdtemp : string;
  (** [cv2.VideoWriter(...).isOpened()] for a fourcc *)
  writer_opens : string -> bool;
  (** [os.path.exists] *)
  path_exists : string -> bool;
  (** the error text of an ffmpeg run, [None] on exit status 0 *)
  ffmpeg_error : list string -> option string;
  (** the error [shutil.move] / [shutil.copy] raise, if any *)
  move_error : string -> string -> option string;
  copy_error : string -> string -> option string
}.

(** The two callbacks of the caller. *)
Inductive event : Type :=
| Progress (pct : Z) (status : string)    (* update_progress(pct, status) *)
| Done (ok : bool) (msg : string).        (* on_done(ok, msg) *)

(** The mutable state of the job. *)
Record state : Type := MkState {
  fs : gmap string artifact;      (* files *)
  events : list event;            (* callbacks issued so far, oldest first *)
  written : list Frame;           (* frames passed to writer.write *)
  frames_written : Z;             (* the local counter of that name *)
  tmp_dir : option string         (* the local [tmp_dir], once bound *)
}.

Abbreviation job := (M state).

Definition get_frames_written : job Z := fun s => (Ret (frames_written s), s).

Definition add_frames_written (n : Z) : job unit :=
  fun s => (Ret tt, MkState (fs s) (events s) (written s)
                            (frames_written s + n) (tmp_dir s)).

Definition emit (e : event) : job unit :=
  fun s => (Ret tt, MkState (fs s) (events s ++ [e]) (written s)
                            (frames_written s) (tmp_dir s)).

Definition update_progress (pct : Z) (status : string) : job unit :=
  emit (Progress pct status).

Definition on_done (ok : bool) (msg : string) : job unit :=
  emit (Done ok msg).

(** [writer.write(frame)]. *)
Definition writer_write (f : Frame) : job unit :=
  fun s => (Ret tt, MkState (fs s) (events s) (written s ++ [f])
                            (frames_written s) (tmp_dir s)).

Definition set_fs (f : gmap string artifact) : job unit :=
  fun s => (Ret tt, MkState f (events s) (written s)
                            (frames_written s) (tmp_dir s)).

Definition get_fs : job (gmap string artifact) := fun s => (Ret (fs s), s).

Definition get_written : job (list Frame) := fun s => (Ret (written s), s).

(** [tmp_dir = tempfile.mkdtemp(prefix="thumbvid_")]. *)
Definition bind_tmp_dir (d : string) : job unit :=
  fun s => (Ret tt, MkState (fs s) (events s) (written s)
                            (frames_written s) (Some d)).

Definition get_tmp_dir : job (option string) := fun s => (Ret (tmp_dir s), s).

(** [shutil.rmtree(d, ignore_errors=True)]. *)
Definition do_rmtree (d : string) : job unit :=
  f ← get_fs; set_fs (rmtree d f).

(** [shutil.move(src, dst)]; a failing call is taken to leave the files
    as they were. *)
Definition do_move (E : env) (src dst : string) : job unit :=
  match move_error E src dst with
  | Some e => raise e
  | None =>
      f ← get_fs;
      match move_file src dst f with
      | Some f' => set_fs f'
      | None => raise ("No such file or directory: " +:+ src)
      end
  end.

(** [shutil.copy(src, dst)]; a failing call is taken to leave the files
    as they were. *)
Definition do_copy (E : env) (src dst : string) : job unit :=
  match copy_error E src dst with
  | Some e => raise e
  | None =>
      f ← get_fs;
      match copy_file src dst f with
      | Some f' => set_fs f'
      | None => raise ("No such file or directory: " +:+ src)
      end
  end.

(** [run_ffmpeg(cmd_args)]: a non-zero exit status raises [RuntimeError]
    with the captured error stream; on success the output file, the last
    argument, exists. *)
Definition run_ffmpeg (E : env) (cmd_args : list string) : job unit :=
  match ffmpeg_error E cmd_args with
  | Some e => raise e
  | None =>
      f ← get_fs;
      set_fs (<[List.last cmd_args EmptyString := Encoded cmd_args]> f)
  end.

(** The image file names of the listing, sorted. *)
Definition is_image_name (f : string) : bool :=
  (endswith (lower f) ".jpg" || endswith (lower f) ".jpeg"
   || endswith (lower f) ".png")%bool.

Definition scan_images (names : list string) : list string :=
  sorted (List.filter is_image_name names).

(** The catalog in rendering order: sorted, then shuffled when asked. *)
Definition ordered_images (E : env) (shuffle : bool) (names : list string)
  : list string :=
  let images := scan_images names in
  match images with
  | [] => []
  | _ :: _ => if shuffle then shuffled E images else images
  end.

(** [max(1, int(duration_sec * fps))]. *)
Definition frames_per_image_of (duration_sec fps : Z) : Z :=
  Z.max 1 (duration_sec * fps).

(** The preloading loop: an image that cannot be opened becomes [None]. *)
Definition preload (E : env) (folder : string) (images : list string)
  : list (option Image) :=
  map (fun img_name =>
         match image_open E (path_join folder img_name) with
         | Ret pil => Some pil
         | Raise _ => None
         end) images.

(** The bookkeeping after each [writer.write]. *)
Definition count_frame (fps total_frames : Z) : job unit :=
  add_frames_written 1 ;;
  fw ← get_frames_written;
  if ((fw mod Z.max 1 (fps / 2) =? 0) || (fw =? total_frames))%bool then
    pct ← lift (percent fw total_frames);
    update_progress pct
      ("Rendering frames... (" +:+ str_of_int fw +:+ "/"
       +:+ str_of_int total_frames +:+ ")")
  else mret tt.

(** [stable_frames], clamped. *)
Definition stable_frames_of (frames_per_image crossfade_frames : Z) : Z :=
  let stable_frames := frames_per_image - crossfade_frames in
  if stable_frames <? 0 then 0 else stable_frames.

(** The frame the cross-fade of item [idx] goes to. *)
Definition next_frame (E : env) (pil_images : list (option Image))
    (target_w target_h : Z) (idx : nat) (curr_bgr : Frame) : outcome Frame :=
  match pil_images !! (idx + 1)%nat with
  | Some (Some pil_next) =>
      (* idx + 1 < total_images and pil_images[idx + 1] is not None *)
      next_frame_pil ←
        zoom_crop_and_resize (pil_resample E) pil_next target_w target_h;
      Ret (to_bgr next_frame_pil)
  | _ => Ret (zeros_like curr_bgr)  (* fade to black on last image *)
  end.

(** One iteration of the rendering loop. *)
Definition render_item (E : env) (pil_images : list (option Image))
    (target_w target_h frames_per_image crossfade_frames fps : Z)
    (idx : nat) : job unit :=
  let total_images := Z.of_nat (length pil_images) in
  let total_frames := total_images * frames_per_image in
  match pil_images !! idx with
  | None => raise "list index out of range"
  | Some None =>
      (* skip unreadable *)
      add_frames_written frames_per_image ;;
      fw ← get_frames_written;
      pct ← lift (percent fw total_frames);
      update_progress (Z.min 100 pct)
        ("Skipping unreadable image " +:+ str_of_int (Z.of_nat idx + 1)
         +:+ "/" +:+ str_of_int total_images)
  | Some (Some pil_curr) =>
      curr_frame_pil ←
        lift (zoom_crop_and_resize (pil_resample E) pil_curr target_w target_h);
      let curr_bgr := to_bgr curr_frame_pil in
      next_bgr ← lift (next_frame E pil_images target_w target_h idx curr_bgr);
      let stable_frames := stable_frames_of frames_per_image crossfade_frames in
      (* write stable frames *)
      for_each (range stable_frames) (fun _ =>
        writer_write curr_bgr ;;
        count_frame fps total_frames) ;;
      (* write crossfade frames *)
      for_each (range crossfade_frames) (fun f =>
        alpha ← lift (truediv (f + 1) (Z.max 1 crossfade_frames));
        let blended := blend curr_bgr next_bgr alpha in
        writer_write blended ;;
        count_frame fps total_frames)
  end.

(** The rendering loop, [for idx in range(total_images)]. *)
Definition render_frames (E : env) (pil_images : list (option Image))
    (target_w target_h frames_per_image crossfade_frames fps : Z) : job unit :=
  for_each (seq 0 (length pil_images))
    (render_item E pil_images target_w target_h frames_per_image
                 crossfade_frames fps).

(** The ffmpeg command of the final stage. *)
Definition ffmpeg_cmd_of (E : env) (raw_video final_tmp : string)
    (bgm_path : option string) : list string :=
  match bgm_path with
  | Some bgm =>
      if (negb (String.eqb bgm EmptyString) && path_exists E bgm)%bool then
        ["ffmpeg"; "-y"; "-i"; raw_video; "-i"; bgm;
         "-map"; "0:v:0"; "-map"; "1:a:0";
         "-c:v"; "libx264"; "-pix_fmt"; "yuv420p"; "-preset"; "medium";
         "-c:a"; "aac"; "-b:a"; "192k";
         "-shortest";
         final_tmp]
      else
        ["ffmpeg"; "-y"; "-i"; raw_video;
         "-c:v"; "libx264"; "-pix_fmt"; "yuv420p"; "-preset"; "medium";
         final_tmp]
  | None =>
      ["ffmpeg"; "-y"; "-i"; raw_video;
       "-c:v"; "libx264"; "-pix_fmt"; "yuv420p"; "-preset"; "medium";
       final_tmp]
  end.

(** Everything after [writer.release()]: re-encode, then save. *)
Definition encode_and_save (E : env) (tmp raw_video output_path : string)
    (bgm_path : option string) : job unit :=
  update_progress 85 "Re-encoding & adding audio (ffmpeg)..." ;;
  let final_tmp := path_join tmp "final.mp4" in
  let ffmpeg_cmd := ffmpeg_cmd_of E raw_video final_tmp bgm_path in
  r ← attempt (run_ffmpeg E ffmpeg_cmd);
  match r with
  | Raise e =>
      (* If ffmpeg fails, attempt to move raw video directly *)
      r2 ← attempt (do_move E raw_video output_path);
      match r2 with
      | Ret _ =>
          do_rmtree tmp ;;
          on_done true
            ("Saved raw video (ffmpeg failed). Video at: " +:+ output_path
             +:+ newline +:+ "ffmpeg error:" +:+ newline +:+ e)
      | Raise e2 =>
          do_rmtree tmp ;;
          on_done false
            ("ffmpeg failed and fallback save failed:" +:+ newline
             +:+ e +:+ newline +:+ e2)
      end
  | Ret _ =>
      (* Move final file to output_path *)
      r3 ← attempt (do_move E final_tmp output_path);
      failed ← match r3 with
               | Ret _ => mret None
               | Raise _ =>
                   r4 ← attempt (do_copy E final_tmp output_path);
                   match r4 with
                   | Ret _ => mret None
                   | Raise e => mret (Some e)
                   end
               end;
      match failed with
      | Some e =>
          do_rmtree tmp ;;
          on_done false ("Failed to save final video to destination: " +:+ e)
      | None =>
          (* cleanup *)
          do_rmtree tmp ;;
          update_progress 100 "Completed" ;;
          on_done true ("Video saved: " +:+ output_path)
      end
  end.

(** [writer.release()]: the raw container now holds the frames written. *)
Definition writer_release (raw_video : string) : job unit :=
  w ← get_written; f ← get_fs; set_fs (<[raw_video := RawVideo w]> f).

(** The body of the outer [try]. *)
Definition slideshow_body (E : env) (folder output_path : string)
    (duration_sec fps : Z) (resolution : option (Z * Z)) (shuffle : bool)
    (crossfade_frames : Z) (bgm_path : option string) (trim_music : bool)
  : job unit :=
  (* Validate and gather images *)
  names ← lift (listdir E folder);
  match scan_images names with
  | [] => on_done false "No images found in selected folder."
  | _ :: _ =>
      let images := ordered_images E shuffle names in
      (* Determine target resolution *)
      first_name ← match images with
                   | [] => raise "list index out of range"
                   | n :: _ => mret n
                   end;
      first_pil ← lift (image_open E (path_join folder first_name));
      let '(target_w, target_h) :=
        match resolution with
        | None => img_size first_pil
        | Some r => r
        end in
      (* create temporary directory *)
      let tmp := mkdtemp E in
      bind_tmp_dir tmp ;;
      let raw_video := path_join tmp "raw_video.mp4" in
      (* open VideoWriter with avc1 then fallback *)
      if (negb (writer_opens E "avc1") && negb (writer_opens E "mp4v"))%bool
      then
        on_done false "Failed to open VideoWriter. Missing codecs." ;;
        do_rmtree tmp
      else
        let frames_per_image := frames_per_image_of duration_sec fps in
        update_progress 0 "Rendering frames..." ;;
        (* Preload PIL images to speed blending and resizing *)
        let pil_images := preload E folder images in
        (* Render frames with crossfade *)
        render_frames E pil_images target_w target_h frames_per_image
                      crossfade_frames fps ;;
        writer_release raw_video ;;
        encode_and_save E tmp raw_video output_path bgm_path
  end.

(** [create_slideshow_thread(...)]: the body under its catch-all handler.
    In the handler, [shutil.rmtree(tmp_dir, ...)] raises [NameError] when
    [tmp_dir] is not bound yet, which the inner [except] swallows. *)
Definition create_slideshow_thread (E : env) (folder output_path : string)
    (duration_sec fps : Z) (resolution : option (Z * Z)) (shuffle : bool)
    (crossfade_frames : Z) (bgm_path : option string) (trim_music : bool)
  : job unit :=
  try_except
    (slideshow_body E folder output_path duration_sec fps resolution shuffle
                    crossfade_frames bgm_path trim_music)
    (fun exc =>
       d ← get_tmp_dir;
       match d with
       | Some tmp => do_rmtree tmp
       | None => mret tt
       end ;;
       on_done false ("Error during generation: " +:+ exc)).

(** The state a job starts from. *)
Definition initial_state (files : gmap string artifact) : state :=
  MkState files [] [] 0 None.

(** ** Vocabulary of the statements *)

(** The blend factor of cross-fade step [f]. *)
Definition alpha_of (crossfade_frames f : Z) : float :=
  SFdiv 53 1024 (unrounded (f + 1)) (unrounded (Z.max 1 crossfade_frames)).

(** The frames one readable item contributes: the stable copies, then the
    cross-fade. *)
Definition item_frames (curr_bgr next_bgr : Frame)
    (frames_per_image crossfade_frames : Z) : list Frame :=
  map (fun _ => curr_bgr)
      (range (stable_frames_of frames_per_image crossfade_frames))
  ++ map (fun f => blend curr_bgr next_bgr (alpha_of crossfade_frames f))
         (range crossfade_frames).

(** The number of frames one readable item contributes. *)
Definition item_frame_count (frames_per_image crossfade_frames : Z) : Z :=
  stable_frames_of frames_per_image crossfade_frames
  + Z.max 0 crossfade_frames.

(** The number of readable items of a catalog. *)
Definition readable (pil_images : list (option Image)) : Z :=
  Z.of_nat (length (List.filter (fun o => match o with
                                          | Some _ => true
                                          | None => false
                                          end) pil_images)).

(** The largest frame count for which the float percentages are exact
    enough to be computed without overflow. *)
Definition frame_limit : Z := 2 ^ 384.

(** A catalog whose readable images have sides in (0, 2^31). *)
Definition catalog_ok (pil_images : list (option Image)) : Prop :=
  Forall (fun o => match o with
                   | Some im => image_ok im
                   | None => True
                   end) pil_images.

Definition is_progress (e : event) : Prop :=
  match e with
  | Progress _ _ => True
  | Done _ _ => False
  end.

(** From [s] to [s']: the frames [frames] were written, the counter rose
    by [k], progress was reported, and nothing else changed. *)
Record advances (s s' : state) (frames : list Frame) (k : Z) : Prop :=
  MkAdvances {
  adv_fs : fs s' = fs s;
  adv_tmp : tmp_dir s' = tmp_dir s;
  adv_written : written s' = written s ++ frames;
  adv_counter : frames_written s' = frames_written s + k;
  adv_events :
    exists evs, events s' = events s ++ evs /\ Forall is_progress evs
}.

End Slideshow.

(* ===================================================================== *)
(** * ffmpeg, as far as the workers rely on it                           *)
(* ===================================================================== *)

Module Ffmpeg.

(** ** The command line

    ffmpeg reads its arguments left to right: an option that takes a value
    consumes the next argument whatever it looks like, a switch stands
    alone, [-i] names an input, and a bare argument names an output file. *)

Record invocation : Type := MkInvocation {
  inv_inputs : list string;
  inv_options : list (string * string);
  inv_switches : list string;
  inv_outputs : list string
}.

(** The switches the workers use. *)
Definition is_switch (a : string) : bool :=
  (String.eqb a "-y" || String.eqb a "-an" || String.eqb a "-shortest")%bool.

Fixpoint parse_from (pending : option string) (args : list string)
    (acc : invocation) : invocation :=
  match args with
  | [] => acc
  | a :: r =>
      match pending with
      | Some opt =>
          if String.eqb opt "-i" then
            parse_from None r
              (MkInvocation (inv_inputs acc ++ [a]) (inv_options acc)
                            (inv_switches acc) (inv_outputs acc))
          else
            parse_from None r
              (MkInvocation (inv_inputs acc) (inv_options acc ++ [(opt, a)])
                            (inv_switches acc) (inv_outputs acc))
      | None =>
          if is_switch a then
            parse_from None r
              (MkInvocation (inv_inputs acc) (inv_options acc)
                            (inv_switches acc ++ [a]) (inv_outputs acc))
          else if startswith a "-" then parse_from (Some a) r acc
          else
            parse_from None r
              (MkInvocation (inv_inputs acc) (inv_options acc)
                            (inv_switches acc) (inv_outputs acc ++ [a]))
      end
  end.

(** The reading of a whole command, program name first. *)
Definition parse (cmd : list string) : invocation :=
  parse_from None (drop 1 cmd) (MkInvocation [] [] [] []).

(** ** Filter chains and the frame size they produce *)

Inductive size_expr : Type :=
| Px (n : Z)        (* a number of pixels *)
| MinIw (n : Z)     (* 'min(n,iw)' *)
| Keep (k : Z).     (* -k: follow the aspect ratio, as a multiple of k *)

Inductive aspect_rule : Type := Decrease | Increase.

Inductive vfilter : Type :=
| Scale (w h : size_expr) (force : option aspect_rule)
| Pad (w h : Z) (color : string)    (* centred: x=(ow-iw)/2, y=(oh-ih)/2 *)
| Crop (w h : Z)
| Boxblur (lr lp : Z).

Definition show_size (e : size_expr) : string :=
  match e with
  | Px n => str_of_int n
  | MinIw n => "'min(" +:+ str_of_int n +:+ ",iw)'"
  | Keep k => str_of_int (- k)
  end.

Definition show_filter (f : vfilter) : string :=
  match f with
  | Scale w h force =>
      "scale=" +:+ show_size w +:+ ":" +:+ show_size h +:+
      match force with
      | None => EmptyString
      | Some Decrease => ":force_original_aspect_ratio=decrease"
      | Some Increase => ":force_original_aspect_ratio=increase"
      end
  | Pad w h color =>
      "pad=" +:+ str_of_int w +:+ ":" +:+ str_of_int h
      +:+ ":(ow-iw)/2:(oh-ih)/2:" +:+ color
  | Crop w h => "crop=" +:+ str_of_int w +:+ ":" +:+ str_of_int h
  | Boxblur lr lp => "boxblur=" +:+ str_of_int lr +:+ ":" +:+ str_of_int lp
  end.

Fixpoint show_chain (c : list vfilter) : string :=
  match c with
  | [] => EmptyString
  | [f] => show_filter f
  | f :: r => show_filter f +:+ "," +:+ show_chain r
  end.

(** [av_rescale(a, b, c)]: [a * b / c] rounded to nearest, halves away from
    zero (on the non-negative operands that occur here). *)
Definition av_rescale (a b c : Z) : Z := (a * b + c / 2) / c.

(** The value a size expression denotes before aspect handling; a [Keep k]
    is the negative number [-k], as in the filter. *)
Definition eval_size (e : size_expr) (iw : Z) : Z :=
  match e with
  | Px n => n
  | MinIw n => Z.min n iw
  | Keep k => - k
  end.

(** The output size of the scale filter on an [iw x ih] input with square
    pixels. *)
Definition scale_size (we he : size_expr) (force : option aspect_rule)
    (iw ih : Z) : outcome (Z * Z) :=
  let w := eval_size we iw in
  let h := eval_size he iw in
  let factor_w := if w <? -1 then - w else 1 in
  let factor_h := if h <? -1 then - h else 1 in
  let '(w, h) := if ((w <? 0) && (h <? 0))%bool then (iw, ih) else (w, h) in
  let w := if w <? 0 then av_rescale h iw (ih * factor_w) * factor_w else w in
  let h := if h <? 0 then av_rescale w ih (iw * factor_h) * factor_h else h in
  let tmp_w := av_rescale h iw ih in
  let tmp_h := av_rescale w ih iw in
  let '(w, h) :=
    match force with
    | None => (w, h)
    | Some Decrease => (Z.min tmp_w w, Z.min tmp_h h)
    | Some Increase => (Z.max tmp_w w, Z.max tmp_h h)
    end in
  if ((w <=? 0) || (h <=? 0))%bool
  then Raise "Rescaled value for width or height is too big."
  else Ret (w, h).

(** The output size of one filter, or the error with which ffmpeg refuses
    to configure it. *)
Definition filter_size (f : vfilter) (size : Z * Z) : outcome (Z * Z) :=
  let '(iw, ih) := size in
  match f with
  | Scale we he force => scale_size we he force iw ih
  | Pad w h _ =>
      if ((w <? iw) || (h <? ih))%bool
      then Raise "Padded dimensions cannot be smaller than input dimensions."
      else Ret (w, h)
  | Crop w h =>
      if ((iw <? w) || (ih <? h) || (w <=? 0) || (h <=? 0))%bool
      then Raise "Invalid too big or non positive size for width or height"
      else Ret (w, h)
  | Boxblur _ _ => Ret (iw, ih)
  end.

Fixpoint chain_size (c : list vfilter) (size : Z * Z) : outcome (Z * Z) :=
  match c with
  | [] => Ret size
  | f :: r => s ← filter_size f size; chain_size r s
  end.

End Ffmpeg.
Import Ffmpeg.

(* ===================================================================== *)
(** * portrait_to_landscape_pro_rewrite.py                               *)
(* ===================================================================== *)

Module Portrait.

(** ** FFmpeg filter builders *)

(** [build_blur_vf(W, H, blur_strength)]. *)
Definition build_blur_vf (W H blur_strength : Z) : string :=
  let s := Z.max 1 blur_strength in
  "[0:v]scale=" +:+ str_of_int W +:+ ":" +:+ str_of_int H
  +:+ ":force_original_aspect_ratio=decrease,pad=" +:+ str_of_int W +:+ ":"
  +:+ str_of_int H +:+ ":(ow-iw)/2:(oh-ih)/2:black[fg];"
  +:+ "[0:v]scale=" +:+ str_of_int W +:+ ":" +:+ str_of_int H
  +:+ ":force_original_aspect_ratio=increase,crop=" +:+ str_of_int W +:+ ":"
  +:+ str_of_int H +:+ ",boxblur=" +:+ str_of_int s +:+ ":" +:+ str_of_int s
  +:+ "[bg];"
  +:+ "[bg][fg]overlay=(W-w)/2:(H-h)/2".

(** The colour argument of the pad filter: [#rrggbb] becomes [0xrrggbb]. *)
Definition pad_color (hexcolor : string) : string :=
  let col := hexcolor in
  if startswith col "#" then "0x" +:+ drop_first col else col.

(** [build_letterbox_vf(W, H, hexcolor)]. *)
Definition build_letterbox_vf (W H : Z) (hexcolor : string) : string :=
  let col := pad_color hexcolor in
  "scale='min(" +:+ str_of_int W +:+ ",iw)':-2,pad=" +:+ str_of_int W +:+ ":"
  +:+ str_of_int H +:+ ":(ow-iw)/2:(oh-ih)/2:" +:+ col.

(** [build_zoom_vf(W, H, zoom)]; the zoom factor only enters an expression
    the function does not return. *)
Definition build_zoom_vf (W H : Z) (zoom : float) : string :=
  "scale=-2:" +:+ str_of_int H +:+ ",crop=" +:+ str_of_int W +:+ ":"
  +:+ str_of_int H.

(** The chains these strings denote. *)
Definition blur_fg_chain (W H : Z) : list vfilter :=
  [Scale (Px W) (Px H) (Some Decrease); Pad W H "black"].

Definition letterbox_chain (W H : Z) (hexcolor : string) : list vfilter :=
  [Scale (MinIw W) (Keep 2) None; Pad W H (pad_color hexcolor)].

Definition zoom_chain (W H : Z) : list vfilter :=
  [Scale (Keep 2) (Px H) None; Crop W H].

(** ** The conversion worker *)

(** The widget variables and attributes the worker reads. *)
Record gui : Type := MkGui {
  res_var : string;
  mode_var : string;
  blur_var : Z;
  lb_color : string;
  zoom_var : float;
  watermark_path : option string;
  wm_scale_var : float;
  wm_opacity_var : float;
  wm_pos_var : string;
  bgm_path : option string;
  bgm_vol_var : float;
  bgm_trim_var : Z;
  bgm_loop_var : Z
}.

(** One row of [self.files]. *)
Record entry : Type := MkEntry {
  path : string;
  res : option (Z * Z)
}.

(** The world of one conversion run. *)
Record env : Type := MkEnv {
  (** [str(x)] for a float, as f-strings print it *)
  float_str : float -> string;
  (** [run_cmd(cmd, timeout)]: [(ok, stdout, stderr)] *)
  run_cmd : list string -> bool * string * string;
  (** the directory the k-th [tempfile.mkdtemp(prefix="p2l_")] creates;
      the call is taken to succeed *)
  mkdtemp : nat -> string;
  (** the error [shutil.copy] raises, if any *)
  copy_error : string -> string -> option string;
  (** [self.stop_flag] as the k-th iteration of the loop reads it; the
      Stop button sets it from the GUI thread *)
  stop_flag : nat -> bool
}.

(** What the worker does to the outside, in order. *)
Inductive event : Type :=
| Log (text : string)                   (* self.log(text) *)
| Poll (k : nat) (stop : bool)          (* reading self.stop_flag *)
| Run (cmd : list string) (ok : bool)   (* run_cmd(cmd) and its status *)
| Copy (src dst : string)               (* shutil.copy(src, dst) *)
| Mkdtemp (dir : string)
| Rmtree (dir : string)
| OverallProgress (v : Z)
| CurrentProgress (v : Z)
| Status (text : string)                (* self.status_var.set *)
| ConvertButton (st : string)           (* self.btn_convert.config(state=) *)
| MessageBox (title msg : string).      (* messagebox.showinfo *)

Record state : Type := MkState {
  fs : gmap string artifact;
  events : list event;          (* oldest first *)
  done : Z                      (* the local counter of that name *)
}.

Abbreviation job := (M state).

Definition emit (e : event) : job unit :=
  modify (fun s => MkState (fs s) (events s ++ [e]) (done s)).

Definition log (text : string) : job unit := emit (Log text).

Definition set_fs (f : gmap string artifact) : job unit :=
  modify (fun s => MkState f (events s) (done s)).

(** [ok, out, err = run_cmd(cmd, timeout=...)]; a successful run leaves its
    output file, the last argument. *)
Definition do_run (E : env) (cmd : list string) : job (bool * string * string) :=
  let '(ok, out, err) := run_cmd E cmd in
  emit (Run cmd ok) ;;
  (if ok then
     f ← gets fs; set_fs (<[List.last cmd EmptyString := Encoded cmd]> f)
   else mret tt) ;;
  mret (ok, out, err).

(** [shutil.rmtree(dir, ignore_errors=True)]. *)
Definition do_rmtree (dir : string) : job unit :=
  emit (Rmtree dir) ;;
  f ← gets fs; set_fs (rmtree dir f).

(** [shutil.copy(src, dst)]. *)
Definition do_copy (E : env) (src dst : string) : job unit :=
  emit (Copy src dst) ;;
  match copy_error E src dst with
  | Some e => raise e
  | None =>
      f ← gets fs;
      match copy_file src dst f with
      | Some f' => set_fs f'
      | None => raise ("No such file or directory: " +:+ src)
      end
  end.

(** Truth value of an optional path ([None] and the empty string are
    false). *)
Definition truthy (p : option string) : option string :=
  match p with
  | Some s => if String.eqb s EmptyString then None else Some s
  | None => None
  end.

(** The overlay position of the watermark. *)
Definition watermark_xy (pos : string) : string * string :=
  if String.eqb pos "top-left" then ("10", "10")
  else if String.eqb pos "top-right" then ("W-w-10", "10")
  else if String.eqb pos "bottom-left" then ("10", "H-h-10")
  else if String.eqb pos "center" then ("(W-w)/2", "(H-h)/2")
  else ("W-w-10", "H-h-10").

(** Step A: the command that renders the video alone. *)
Definition video_cmd (E : env) (G : gui) (W : Z) (vf src tmp_video : string)
  : outcome (list string) :=
  match truthy (watermark_path G) with
  | Some wm =>
      wm_scale_px ← int_of_float (fmul (float_of_int W) (wm_scale_var G));
      let wm_op := wm_opacity_var G in
      let '(x_expr, y_expr) := watermark_xy (wm_pos_var G) in
      let filter_complex :=
        "[1:v]scale=" +:+ str_of_int wm_scale_px
        +:+ ":-2,format=rgba,colorchannelmixer=aa=" +:+ float_str E wm_op
        +:+ "[wm];" +:+ vf +:+ "[base];" +:+ "[base][wm]overlay="
        +:+ x_expr +:+ ":" +:+ y_expr in
      Ret ["ffmpeg"; "-y"; "-i"; src; "-i"; wm;
           "-filter_complex"; filter_complex;
           "-map"; "0:v"; "-c:v"; "libx264"; "-preset"; "medium";
           "-pix_fmt"; "yuv420p"; "-an"; tmp_video]
  | None =>
      Ret ["ffmpeg"; "-y"; "-i"; src; "-vf"; vf; "-c:v"; "libx264";
           "-preset"; "medium"; "-pix_fmt"; "yuv420p"; "-an"; tmp_video]
  end.

(** The [-filter_complex] of the audio mix. *)
Definition amix_filter (E : env) (vol : float) : string :=
  "[1:a]volume=1.0[a1];[2:a]volume=" +:+ float_str E vol
  +:+ "[a2];[a1][a2]amix=inputs=2:duration=shortest[aout]".

(** Step B with music, first stage: original audio mixed with the track. *)
Definition mix_cmd (E : env) (tmp_video src bgm outpath : string)
    (vol : float) (trim loop : bool) : list string :=
  if loop then
    (* loop bgm indefinitely *)
    ["ffmpeg"; "-y"; "-i"; tmp_video; "-i"; src;
     "-stream_loop"; "-1"; "-i"; bgm;
     "-filter_complex"; amix_filter E vol;
     "-map"; "0:v"; "-map"; "[aout]"; "-c:v"; "copy"; "-c:a"; "aac";
     "-b:a"; "192k"; outpath]
  else
    let cmdB :=
      ["ffmpeg"; "-y"; "-i"; tmp_video; "-i"; src; "-i"; bgm;
       "-filter_complex"; amix_filter E vol;
       "-map"; "0:v"; "-map"; "[aout]"; "-c:v"; "copy"; "-c:a"; "aac";
       "-b:a"; "192k"] in
    let cmdB := if trim then list_insert_at (-1) "-shortest" cmdB else cmdB in
    cmdB ++ [outpath].

(** Second stage: the track alone replaces the audio. *)
Definition fallback_cmd (tmp_video bgm outpath : string) (trim : bool)
  : list string :=
  let fallback :=
    ["ffmpeg"; "-y"; "-i"; tmp_video; "-i"; bgm; "-map"; "0:v";
     "-map"; "1:a"; "-c:v"; "copy"; "-c:a"; "aac"; "-b:a"; "192k"] in
  let fallback :=
    if trim then list_insert_at (-1) "-shortest" fallback else fallback in
  fallback ++ [outpath].

(** Step B without music: keep the original audio if there is any. *)
Definition keep_audio_cmd (tmp_video src outpath : string) : list string :=
  ["ffmpeg"; "-y"; "-i"; tmp_video; "-i"; src; "-map"; "0:v";
   "-map"; "1:a?"; "-c:v"; "copy"; "-c:a"; "aac"; "-b:a"; "160k"; outpath].

(** Step B: audio handling (bgm or preserve original). *)
Definition audio_stage (E : env) (G : gui) (tmp_video src outpath : string)
  : job unit :=
  match truthy (bgm_path G) with
  | Some bgm =>
      let vol := bgm_vol_var G in
      let trim := negb (bgm_trim_var G =? 0) in
      let loop := negb (bgm_loop_var G =? 0) in
      let cmdB := mix_cmd E tmp_video src bgm outpath vol trim loop in
      log "Mixing audio and writing final output..." ;;
      '(ok2, _, e2) ← do_run E cmdB;
      if negb ok2 then
        log ("Audio mix failed: " +:+ take_str 400 e2) ;;
        (* fallback: replace audio with bgm only *)
        let fallback := fallback_cmd tmp_video bgm outpath trim in
        '(okf, _, ef) ← do_run E fallback;
        if negb okf then
          log ("Fallback audio mux failed: " +:+ take_str 400 ef) ;;
          (* as last resort, copy video-only temp to output *)
          do_copy E tmp_video outpath
        else mret tt
      else mret tt
  | None =>
      (* preserve original audio if exists; else leave silent *)
      let cmdB := keep_audio_cmd tmp_video src outpath in
      '(ok2, _, e2) ← do_run E cmdB;
      if negb ok2 then
        log ("Audio copy failed: " +:+ take_str 400 e2
             +:+ "; saving video-only instead.") ;;
        do_copy E tmp_video outpath
      else mret tt
  end.

(** The target size of a resolution choice. *)
Definition target_size (res_choice : string) : Z * Z :=
  if String.eqb res_choice "1080p" then (1920, 1080) else (1280, 720).

(** The video filter of the chosen mode. *)
Definition video_filter (G : gui) (W H : Z) : string :=
  let mode := mode_var G in
  if String.eqb mode "Blur" then build_blur_vf W H (blur_var G)
  else if String.eqb mode "Letterbox" then build_letterbox_vf W H (lb_color G)
  else build_zoom_vf W H (zoom_var G).

(** The output path of a source. *)
Definition outpath_of (outdir src : string) : string :=
  let base := splitext_root (basename src) in
  path_join outdir (base +:+ "_landscape.mp4").

(** The [try] block of one entry.  [false] stands for the [continue] after
    a failed video render. *)
Definition convert_steps (E : env) (G : gui) (W : Z)
    (vf src tmpdir tmp_video outpath : string) : job bool :=
  (* Step A: render video-only (with watermark if present) *)
  cmdA ← lift (video_cmd E G W vf src tmp_video);
  log "Rendering video-only to temp file..." ;;
  '(ok, _, err) ← do_run E cmdA;
  if negb ok then
    log ("Video render failed: " +:+ take_str 400 err) ;;
    do_rmtree tmpdir ;;
    mret false
  else
    audio_stage E G tmp_video src outpath ;;
    mret true.

(** One entry past the stop check: [true] when the entry reaches
    [done += 1]. *)
Definition convert_entry (E : env) (G : gui) (outdir : string) (k : nat)
    (e : entry) : job bool :=
  let src := path e in
  let outpath := outpath_of outdir src in
  log ("Processing: " +:+ src) ;;
  let '(W, H) := target_size (res_var G) in
  let vf := video_filter G W H in
  let tmpdir := mkdtemp E k in
  emit (Mkdtemp tmpdir) ;;
  let tmp_video := path_join tmpdir "video_only.mp4" in
  r ← attempt (convert_steps E G W vf src tmpdir tmp_video outpath);
  completed ← match r with
              | Ret b => mret b
              | Raise ex =>
                  log ("Exception while converting " +:+ src +:+ ": " +:+ ex) ;;
                  do_rmtree tmpdir ;;
                  mret false
              end;
  (* finally *)
  do_rmtree tmpdir ;;
  mret completed.

(** The loop over the entries, from iteration [k] on. *)
Fixpoint convert_loop (E : env) (G : gui) (outdir : string) (total : Z)
    (k : nat) (entries : list entry) : job unit :=
  match entries with
  | [] => mret tt
  | e :: rest =>
      emit (Poll k (stop_flag E k)) ;;
      if stop_flag E k then
        log "Stopped by user."   (* break *)
      else
        completed ← convert_entry E G outdir k e;
        (if completed : bool then
           modify (fun s => MkState (fs s) (events s) (done s + 1)) ;;
           d ← gets done;
           pct ← lift (percent d total);
           emit (OverallProgress pct) ;;
           emit (CurrentProgress 0) ;;
           log ("Saved: " +:+ outpath_of outdir (path e))
         else mret tt) ;;
        convert_loop E G outdir total (S k) rest
  end.

(** [_worker_convert(entries, outdir)]. *)
Definition _worker_convert (E : env) (G : gui) (entries : list entry)
    (outdir : string) : job unit :=
  let total := Z.of_nat (length entries) in
  convert_loop E G outdir total 0 entries ;;
  emit (Status "Done") ;;
  emit (ConvertButton "normal") ;;
  d ← gets done;
  log ("Completed " +:+ str_of_int d +:+ "/" +:+ str_of_int total
       +:+ " files.") ;;
  emit (MessageBox "Done"
          ("Finished " +:+ str_of_int d +:+ "/" +:+ str_of_int total
           +:+ " files.")).

(** The state a run starts from. *)
Definition initial_state (files : gmap string artifact) : state :=
  MkState files [] 0.

(** What the user is told when the run ends: the status line and the
    message box. *)
Definition is_report (e : event) : bool :=
  match e with
  | Status _ | MessageBox _ _ => true
  | _ => false
  end.

Definition completion_report (s : state) : list event :=
  List.filter is_report (events s).

(** The temporary directories created and not yet removed, after the
    given events. *)
Fixpoint live_dirs (evs : list event) (live : list string) : list string :=
  match evs with
  | [] => live
  | Mkdtemp d :: r => live_dirs r (d :: live)
  | Rmtree d :: r =>
      live_dirs r (List.filter (fun x => negb (String.eqb x d)) live)
  | _ :: r => live_dirs r live
  end.

(** The readings of the stop flag, in order. *)
Definition polls (evs : list event) : list (nat * bool) :=
  flat_map (fun e => match e with
                     | Poll k b => [(k, b)]
                     | _ => []
                     end) evs.

(** An event of the stages of the entry that works in directory [dir]. *)
Definition stage_event (dir : string) (e : event) : Prop :=
  match e with
  | Log _ | Run _ _ | Copy _ _ => True
  | Rmtree d => d = dir
  | _ => False
  end.

(** From [s] to [s'] only stage events happened. *)
Definition stage_run (dir : string) (s s' : state) : Prop :=
  done s' = done s /\
  exists evs, events s' = events s ++ evs /\ Forall (stage_event dir) evs.

(** A statement that always ends, normally or by raising, and does only
    stage events. *)
Definition runs {A : Type} (dir : string) (m : job A) : Prop :=
  forall s, exists r s', m s = (r, s') /\ stage_run dir s s'.

(** The events of one entry of the batch that neither poll the flag nor
    report completion. *)
Definition entry_event (e : event) : Prop :=
  match e with
  | Poll _ _ | Status _ | ConvertButton _ | MessageBox _ _ => False
  | _ => True
  end.

End Portrait.

(* ===================================================================== *)
(** * Sample inputs                                                      *)
(* ===================================================================== *)

Module Samples.


(** A 2 x 2 image of one colour. *)
Definition flat_image (v : Z) : Image :=
  {| img_size := (2, 2); img_at := fun _ _ => (v, v, v) |}.

(** A kernel that samples the source at the scaled position. *)
Definition point_kernel : resampling -> Image -> Z -> Z -> Z -> Z -> rgb :=
  fun _ im w h x y =>
    img_at im (x * fst (img_size im) / w) (y * snd (img_size im) / h).

(** A folder of two pictures, the second of which does not decode, on a
    machine whose ffmpeg fails. *)
Definition studio : Slideshow.env :=
  {| Slideshow.listdir := fun _ => Ret ["b.jpg"; "notes.txt"; "a.PNG"];
     Slideshow.shuffled := fun l => l;
     Slideshow.image_open := fun p =>
       if String.eqb p "pics/b.jpg" then Raise "cannot identify image file"
       else Ret (flat_image 100);
     Slideshow.pil_resample := point_kernel;
     Slideshow.mkdtemp := "/tmp/thumbvid_0";
     Slideshow.writer_opens := fun _ => true;
     Slideshow.path_exists := fun _ => false;
     Slideshow.ffmpeg_error := fun _ => Some "ffmpeg: not found";
     Slideshow.move_error := fun _ _ => None;
     Slideshow.copy_error := fun _ _ => None |}.

(** The same folder where the first picture is the one that does not
    decode. *)
Definition broken_first : Slideshow.env :=
  {| Slideshow.listdir := fun _ => Ret ["b.jpg"; "notes.txt"; "a.PNG"];
     Slideshow.shuffled := fun l => l;
     Slideshow.image_open := fun p =>
       if String.eqb p "pics/a.PNG" then Raise "cannot identify image file"
       else Ret (flat_image 100);
     Slideshow.pil_resample := point_kernel;
     Slideshow.mkdtemp := "/tmp/thumbvid_0";
     Slideshow.writer_opens := fun _ => true;
     Slideshow.path_exists := fun _ => false;
     Slideshow.ffmpeg_error := fun _ => None;
     Slideshow.move_error := fun _ _ => None;
     Slideshow.copy_error := fun _ _ => None |}.

(** A catalog of two items, the second unreadable. *)
Definition two_items : list (option Image) := [Some (flat_image 100); None].

(** An ffmpeg that accepts a command exactly when its arguments read as one
    output file and no option has swallowed another option as its value,
    and that cannot decode the source [bad_source]. *)
Definition well_formed (cmd : list string) : bool :=
  let inv := parse cmd in
  (Nat.eqb (length (inv_outputs inv)) 1
   && forallb (fun kv => negb (startswith (snd kv) "-")
                         || String.eqb (fst kv) "-stream_loop")
              (inv_options inv))%bool.

(** A conversion booth: the Stop button is pressed while entry number
    [stop_at - 1] is being converted. *)
Definition booth (stop_at : nat) (bad_source : string) : Portrait.env :=
  {| Portrait.float_str := fun _ => "1.0";
     Portrait.run_cmd := fun cmd =>
       if (well_formed cmd
           && negb (String.eqb (nth 3 cmd EmptyString) bad_source))%bool
       then (true, EmptyString, EmptyString)
       else (false, EmptyString, "ffmpeg: error");
     Portrait.mkdtemp := fun k => "/tmp/p2l_" +:+ str_of_int (Z.of_nat k);
     Portrait.copy_error := fun _ _ => None;
     Portrait.stop_flag := fun k => (stop_at <=? k)%nat |}.

(** Settings without and with background music (trim on, loop off: the
    defaults). *)
Definition plain : Portrait.gui :=
  Portrait.MkGui "1080p" "Blur" 20 "#000000" (float_of_int 1) None
    (float_of_int 0) (float_of_int 1) "bottom-right" None (float_of_int 1)
    1 0.

Definition with_music : Portrait.gui :=
  Portrait.MkGui "1080p" "Blur" 20 "#000000" (float_of_int 1) None
    (float_of_int 0) (float_of_int 1) "bottom-right" (Some "music.mp3")
    (float_of_int 1) 1 0.

(** Two clips to convert. *)
Definition clips : list Portrait.entry :=
  [Portrait.MkEntry "/v/a.mp4" (Some (1080, 1920));
   Portrait.MkEntry "/v/b.mp4" (Some (1080, 1920))].

(** Two one-byte frames. *)
Definition dark : Frame := {| fr_shape := (1, 1); fr_data := [0; 0; 0] |}.
Definition light : Frame := {| fr_shape := (1, 1); fr_data := [255; 1; 7] |}.

End Samples.

(* ===================================================================== *)
(** * Vocabulary of the further statements                                *)
(* ===================================================================== *)

Module SlideshowRun.
Import Slideshow.

(** From [s] to [s'] nothing happened but progress reports (and writes to
    the video writer): no file and no binding of [tmp_dir] changed, and
    [on_done] was not called. *)
Definition progress_step (s s' : state) : Prop :=
  fs s' = fs s /\ tmp_dir s' = tmp_dir s /\
  exists evs, events s' = events s ++ evs /\ Forall is_progress evs.

(** A statement that always ends, normally or by raising, and is a progress
    step. *)
Definition renders {A : Type} (m : job A) : Prop :=
  forall s, exists r s', m s = (r, s') /\ progress_step s s'.

(** No file is left below [dir]. *)
Definition cleared (dir : string) (f : gmap string artifact) : Prop :=
  forall p, under dir p = true -> f !! p = None.

(** The order of [sorted] on strings. *)
Definition str_le (a b : string) : Prop := String.ltb b a = false.

End SlideshowRun.

Module PortraitRun.
Import Portrait.

(** The updates of the overall progress bar, one per saved file. *)
Definition is_overall_progress (e : event) : bool :=
  match e with
  | OverallProgress _ => true
  | _ => false
  end.

Definition saved_count (evs : list event) : Z :=
  Z.of_nat (length (List.filter is_overall_progress evs)).

End PortraitRun.

Module PortraitFilters.
Import Portrait.

(** The background chain of the blur mode. *)
Definition blur_bg_chain (W H s : Z) : list vfilter :=
  [Scale (Px W) (Px H) (Some Increase); Crop W H; Boxblur s s].

End PortraitFilters.

Module PathVocabulary.

(** A string without a slash: a file name. *)
Fixpoint no_slash (s : string) : bool :=
  match s with
  | EmptyString => true
  | String c r => (negb (Ascii.eqb c "/") && no_slash r)%bool
  end.

End PathVocabulary.

(* ===================================================================== *)
(** * image_video_maker.py: the thumbnail downloader                      *)
(* ===================================================================== *)

Module Thumbs.

(** The world of the downloader. *)
Record env : Type := MkEnv {
  (** [requests.get(url, ...)]: the status code and the body of the
      response, or the exception of a failed request *)
  http_get : string -> outcome (Z * string);
  (** [Image.open(BytesIO(content)).convert("RGB")] *)
  decode : string -> outcome Image;
  (** the error [img.save(path, quality=92)] raises, if any *)
  save_error : string -> option string
}.

(** [response.raise_for_status()]: client and server errors raise. *)
Definition raise_for_status (status : Z) : outcome unit :=
  if ((400 <=? status) && (status <? 600))%bool then Raise "HTTPError"
  else Ret tt.

(** The class [[A-Za-z0-9_-]]. *)
Definition is_id_char (c : ascii) : bool :=
  let n := nat_of_ascii c in
  ((65 <=? n) && (n <=? 90) || (97 <=? n) && (n <=? 122)
   || (48 <=? n) && (n <=? 57) || (n =? 95) || (n =? 45))%nat.

(** [s[n:]]. *)
Fixpoint drop_str (n : nat) (s : string) : string :=
  match n, s with
  | S k, String _ r => drop_str k r
  | _, _ => s
  end.

(** [[A-Za-z0-9_-]{n}] at the head of [s]: the characters matched. *)
Fixpoint take_id (n : nat) (s : string) : option string :=
  match n with
  | O => Some EmptyString
  | S k =>
      match s with
      | String c r =>
          if is_id_char c then option_map (String c) (take_id k r) else None
      | EmptyString => None
      end
  end.

(** The pattern [shorts/([A-Za-z0-9_-]{11})] at the head of [s]: its
    group. *)
Definition match_short (s : string) : option string :=
  if String.prefix "shorts/" s then take_id 11 (drop_str 7 s) else None.

(** [re.findall(r"shorts/([A-Za-z0-9_-]{11})", s)]: the groups of the
    matches met scanning left to right; after a match the scan resumes
    behind it, so the next [skip] characters are not tried. *)
Fixpoint findall_shorts (skip : nat) (s : string) : list string :=
  match s with
  | EmptyString => []
  | String _ r =>
      match skip with
      | S k => findall_shorts k r
      | O =>
          match match_short s with
          | Some id => id :: findall_shorts 17 r
          | None => findall_shorts 0 r
          end
      end
  end.

(** [list(dict.fromkeys(ids))]: the keys in insertion order, a key that is
    met again keeping its place. *)
Definition fromkeys (ids : list string) : list string :=
  fold_left (fun keys x =>
               if existsb (String.eqb x) keys then keys else keys ++ [x])
            ids [].

(** [extract_video_ids(url)]. *)
Definition extract_video_ids (E : env) (url : string) : list string :=
  match (r ← http_get E url;
         _ ← raise_for_status (fst r);
         let html := snd r in
         let ids := findall_shorts 0 html in
         Ret (fromkeys ids)) with
  | Ret ids => ids
  | Raise _ => []
  end.

(** [f"{n:04d}"]: at least four characters, zeros after the sign. *)
Definition format_04d (n : Z) : string :=
  let digits := str_of_int (Z.abs n) in
  let sign := if n <? 0 then "-"%string else EmptyString in
  let fill := (4 - String.length sign - String.length digits)%nat in
  sign +:+ String.concat EmptyString (repeat "0"%string fill) +:+ digits.

(** The file name of thumbnail number [index]. *)
Definition thumb_name (index : Z) : string :=
  "thumb_" +:+ format_04d index +:+ ".jpg".

(** The addresses tried for a video, best quality first. *)
Definition thumbnail_urls (video_id : string) : list string :=
  ["https://i.ytimg.com/vi/" +:+ video_id +:+ "/maxresdefault.jpg";
   "https://i.ytimg.com/vi/" +:+ video_id +:+ "/hq720.jpg";
   "https://i.ytimg.com/vi/" +:+ video_id +:+ "/hqdefault.jpg"].

(** The saved images and the requests sent, oldest first. *)
Record state : Type := MkState {
  files : gmap string Image;
  requests : list string
}.

Abbreviation job := (M state).

(** The body of the [try] for one address: [true] stands for
    [return True]. *)
Definition try_url (E : env) (u save_path : string) : job bool :=
  modify (fun s => MkState (files s) (requests s ++ [u])) ;;
  r ← lift (http_get E u);
  if fst r =? 200 then
    img ← lift (decode E (snd r));
    match save_error E save_path with
    | Some e => raise e
    | None =>
        modify (fun s => MkState (<[save_path := img]> (files s))
                                 (requests s)) ;;
        mret true
    end
  else mret false.

(** The loop over the addresses; an exception moves on to the next one. *)
Fixpoint try_urls (E : env) (urls : list string) (save_path : string)
  : job bool :=
  match urls with
  | [] => mret false
  | u :: rest =>
      r ← attempt (try_url E u save_path);
      match r with
      | Ret true => mret true
      | _ => try_urls E rest save_path
      end
  end.

(** [download_thumbnail(video_id, folder, index)]. *)
Definition download_thumbnail (E : env) (video_id folder : string)
    (index : Z) : job bool :=
  try_urls E (thumbnail_urls video_id) (path_join folder (thumb_name index)).

(** The loop of [dl_thread]: the number of thumbnails saved. *)
Fixpoint download_all (E : env) (ids : list string) (folder : string)
    (i : Z) : job Z :=
  match ids with
  | [] => mret 0
  | vid :: rest =>
      ok ← download_thumbnail E vid folder i;
      count ← download_all E rest folder (i + 1);
      mret (if ok : bool then count + 1 else count)
  end.

(** ** Vocabulary of the statements *)

(** What an address delivers: the image, when the response has status 200,
    its body decodes and the file can be written. *)
Definition delivers (E : env) (save_path u : string) : option Image :=
  match http_get E u with
  | Ret (status, body) =>
      if status =? 200 then
        match decode E body, save_error E save_path with
        | Ret img, None => Some img
        | _, _ => None
        end
      else None
  | Raise _ => None
  end.

(** The addresses tried until one delivers, and what it delivers. *)
Fixpoint first_delivery (E : env) (save_path : string) (urls : list string)
  : list string * option Image :=
  match urls with
  | [] => ([], None)
  | u :: rest =>
      match delivers E save_path u with
      | Some img => ([u], Some img)
      | None =>
          let '(tried, r) := first_delivery E save_path rest in
          (u :: tried, r)
      end
  end.

(** [id] stands behind "shorts/" somewhere in [html]. *)
Definition occurs_as_short (id html : string) : Prop :=
  exists before after, html = before +:+ "shorts/" +:+ id +:+ after.

Definition all_id_chars (s : string) : bool :=
  forallb is_id_char (list_ascii_of_string s).

End Thumbs.

(* ===================================================================== *)
(** * portrait_to_landscape_pro_rewrite.py: the file list                 *)
(* ===================================================================== *)

Module Library.
Import Portrait.

(** The world of the file list. *)
Record env : Type := MkEnv {
  (** [os.path.abspath] *)
  abspath : string -> string;
  (** [cv2.VideoCapture(path)]: whether it opened, and the frame width and
      height it reports; or the exception raised *)
  capture : string -> outcome (bool * float * float);
  (** [get_duration(path)] *)
  get_duration : string -> option float;
  (** [os.listdir(folder)] *)
  listdir : string -> outcome (list string)
}.

(** [int(x or 0)] for a float [x]. *)
Definition int_or_zero (x : float) : outcome Z :=
  if is_zero x then Ret 0 else int_of_float x.

(** [video_resolution(path)]. *)
Definition video_resolution (E : env) (path : string) : option (Z * Z) :=
  match (c ← capture E path;
         let '(opened, fw, fh) := c in
         if negb opened then Ret None
         else
           w ← int_or_zero fw;
           h ← int_or_zero fh;
           if ((w <=? 0) || (h <=? 0))%bool then Ret None
           else Ret (Some (w, h))) with
  | Ret r => r
  | Raise _ => None
  end.

(** [is_portrait(res)]. *)
Definition is_portrait (res : option (Z * Z)) : bool :=
  match res with
  | None => false
  | Some (w, h) => w <? h
  end.

(** One row of [self.files], with its check box. *)
Record row : Type := MkRow {
  row_path : string;
  row_res : option (Z * Z);
  row_dur : option float;
  row_selected : Z
}.

(** [self._add_file_entry(path)]. *)
Definition _add_file_entry (E : env) (files : list row) (path : string)
  : list row :=
  let path := abspath E path in
  if existsb (fun entry => String.eqb (row_path entry) path) files then files
  else
    let res := video_resolution E path in
    let dur := get_duration E path in
    let selected := if is_portrait res then 1 else 0 in
    files ++ [MkRow path res dur selected].

(** The loop of [add_files]. *)
Definition add_files (E : env) (files : list row) (chosen : list string)
  : list row :=
  fold_left (_add_file_entry E) chosen files.

Definition is_video_name (fname : string) : bool :=
  (endswith (lower fname) ".mp4" || endswith (lower fname) ".mov"
   || endswith (lower fname) ".mkv" || endswith (lower fname) ".avi"
   || endswith (lower fname) ".webm")%bool.

(** [scan_folder(folder)]: the new list and the line logged, if any. *)
Definition scan_folder (E : env) (folder : string)
  : list row * option string :=
  match listdir E folder with
  | Ret names =>
      (fold_left (fun files fname =>
                    if is_video_name fname
                    then _add_file_entry E files (path_join folder fname)
                    else files)
                 (sorted names) [],
       None)
  | Raise e => ([], Some ("Scan error: " +:+ e))
  end.

(** [refresh_scan()]. *)
Definition refresh_scan (E : env) (files : list row) : list row :=
  map (fun entry =>
         let res := video_resolution E (row_path entry) in
         MkRow (row_path entry) res (row_dur entry)
               (if is_portrait res then 1 else 0))
      files.

(** The entries [start_conversion] hands to the worker. *)
Definition selected_entries (files : list row) : list entry :=
  map (fun e => MkEntry (row_path e) (row_res e))
      (List.filter (fun e => row_selected e =? 1) files).

(** ** Vocabulary of the statements *)

(** A row as a probe of its file leaves it: resolution and check box
    follow from the path. *)
Definition probed (E : env) (r : row) : Prop :=
  row_res r = video_resolution E (row_path r) /\
  row_selected r = (if is_portrait (row_res r) then 1 else 0).

End Library.

(* ===================================================================== *)
(** * Further sample inputs                                               *)
(* ===================================================================== *)

Module Cases.

(** A folder of two pictures on a machine without a usable video codec. *)
Definition no_codec : Slideshow.env :=
  {| Slideshow.listdir := fun _ => Ret ["b.jpg"; "a.PNG"];
     Slideshow.shuffled := fun l => l;
     Slideshow.image_open := fun _ => Ret (Samples.flat_image 100);
     Slideshow.pil_resample := Samples.point_kernel;
     Slideshow.mkdtemp := "/tmp/thumbvid_0";
     Slideshow.writer_opens := fun _ => false;
     Slideshow.path_exists := fun _ => false;
     Slideshow.ffmpeg_error := fun _ => None;
     Slideshow.move_error := fun _ _ => None;
     Slideshow.copy_error := fun _ _ => None |}.

(** A folder without pictures. *)
Definition no_pictures : Slideshow.env :=
  {| Slideshow.listdir := fun _ => Ret ["notes.txt"; "clip.mp4"; "jpg"];
     Slideshow.shuffled := fun l => l;
     Slideshow.image_open := fun _ => Raise "cannot identify image file";
     Slideshow.pil_resample := Samples.point_kernel;
     Slideshow.mkdtemp := "/tmp/thumbvid_0";
     Slideshow.writer_opens := fun _ => true;
     Slideshow.path_exists := fun _ => false;
     Slideshow.ffmpeg_error := fun _ => None;
     Slideshow.move_error := fun _ _ => None;
     Slideshow.copy_error := fun _ _ => None |}.

(** A machine whose output folder is read-only and full. *)
Definition no_room : Slideshow.env :=
  {| Slideshow.listdir := fun _ => Ret ["a.jpg"];
     Slideshow.shuffled := fun l => l;
     Slideshow.image_open := fun _ => Ret (Samples.flat_image 100);
     Slideshow.pil_resample := Samples.point_kernel;
     Slideshow.mkdtemp := "/tmp/thumbvid_0";
     Slideshow.writer_opens := fun _ => true;
     Slideshow.path_exists := fun _ => false;
     Slideshow.ffmpeg_error := fun _ => None;
     Slideshow.move_error := fun _ _ => Some "Permission denied";
     Slideshow.copy_error := fun _ _ => Some "No space left on device" |}.

(** A channel page that links one short twice and another once; the image
    server has no maxresdefault thumbnail. *)
Definition channel : Thumbs.env :=
  {| Thumbs.http_get := fun url =>
       if String.eqb url "https://www.youtube.com/@someone/shorts"
       then Ret (200, "<a href=/shorts/AAAAAAAAAAA><a href=/shorts/bbbbbbbbbbb>"
                      +:+ "<a href=/shorts/AAAAAAAAAAA>")
       else if endswith url "/maxresdefault.jpg" then Ret (404, "Not Found")
       else Ret (200, "JFIF");
     Thumbs.decode := fun body =>
       if String.eqb body "JFIF" then Ret (Samples.flat_image 7)
       else Raise "cannot identify image file";
     Thumbs.save_error := fun _ => None |}.

(** A page that is not there. *)
Definition gone : Thumbs.env :=
  {| Thumbs.http_get := fun _ => Ret (404, "shorts/AAAAAAAAAAA");
     Thumbs.decode := fun _ => Raise "cannot identify image file";
     Thumbs.save_error := fun _ => None |}.

(** A shelf where every file is a 1080 x 1920 video of ten seconds. *)
Definition shelf : Library.env :=
  {| Library.abspath := fun p => path_join "/home/me" p;
     Library.capture := fun _ =>
       Ret (true, float_of_int 1080, float_of_int 1920);
     Library.get_duration := fun _ => Some (float_of_int 10);
     Library.listdir := fun _ => Ret ["b.MP4"; "a.mov"; "notes.txt"] |}.

End Cases.

(* ===================================================================== *)
(** * Facts about the float model                                        *)
(* ===================================================================== *)

(** The operations of [SpecFloat] round a mantissa by shifting it; the
    lemmas below bound the result well enough to show that the float
    expressions of the workers are defined (no infinity, no NaN, no zero
    divisor) on every input of sensible size. *)

Module FloatFacts.
Import Rounding.

Lemma digits2_pos_size (p : positive) : digits2_pos p = Pos.size p.
Proof. induction p as [p IH | p IH | ]; simpl; congruence. Qed.

Lemma Zdigits2_log2 (z : Z) : 0 < z -> Zdigits2 z = Z.log2 z + 1.
Proof.
  destruct z as [ | p | p]; try lia. intros _. simpl.
  rewrite digits2_pos_size.
  destruct p as [p | p | ]; simpl; lia.
Qed.

Lemma Zdigits2_bounds (z : Z) :
  0 < z -> 2 ^ (Zdigits2 z - 1) <= z < 2 ^ Zdigits2 z.
Proof.
  intros Hz. rewrite Zdigits2_log2 by assumption.
  replace (Z.log2 z + 1 - 1) with (Z.log2 z) by lia.
  replace (Z.log2 z + 1) with (Z.succ (Z.log2 z)) by lia.
  apply Z.log2_spec. assumption.
Qed.

Lemma Zdigits2_unique (z d : Z) :
  1 <= d -> 2 ^ (d - 1) <= z < 2 ^ d -> Zdigits2 z = d.
Proof.
  intros Hd Hz.
  assert (0 < z) by (pose proof (Z.pow_pos_nonneg 2 (d - 1)); lia).
  rewrite Zdigits2_log2 by assumption.
  rewrite (Z.log2_unique z (d - 1)); try lia.
  replace (Z.succ (d - 1)) with d by lia. assumption.
Qed.

Lemma Zdigits2_pos (z : Z) : 0 < z -> 1 <= Zdigits2 z.
Proof.
  intros Hz. rewrite Zdigits2_log2 by assumption.
  pose proof (Z.log2_nonneg z). lia.
Qed.

(** Shifting a mantissa right. *)
Lemma shr_1_m (mrs : shr_record) :
  0 <= shr_m mrs -> shr_m (shr_1 mrs) = shr_m mrs / 2.
Proof.
  destruct mrs as [m r s]. cbn [shr_m]. intros Hm.
  destruct m as [ | [p | p | ] | p]; cbn [shr_1 shr_m]; try lia;
    try reflexivity.
  - apply (Z.div_unique_pos _ _ _ 1); lia.
  - apply (Z.div_unique_pos _ _ _ 0); lia.
Qed.

Lemma shr_1_nonneg (mrs : shr_record) : 0 <= shr_m mrs -> 0 <= shr_m (shr_1 mrs).
Proof.
  intros H. rewrite shr_1_m by assumption. apply Z.div_pos; lia.
Qed.

Lemma iter_shr_m (p : positive) : forall mrs,
  0 <= shr_m mrs ->
  shr_m (SpecFloat.iter_pos shr_1 p mrs) = shr_m mrs / 2 ^ Z.pos p.
Proof.
  induction p as [p IH | p IH | ]; intros mrs Hm; cbn [SpecFloat.iter_pos].
  - assert (Hp : 0 < 2 ^ Z.pos p) by (apply Z.pow_pos_nonneg; lia).
    assert (Hpow : 2 ^ Z.pos p~1 = 2 * (2 ^ Z.pos p * 2 ^ Z.pos p)).
    { rewrite <- Z.pow_add_r by lia. rewrite <- Z.pow_succ_r by lia.
      f_equal. lia. }
    assert (H1 : 0 <= shr_m (shr_1 mrs)) by (apply shr_1_nonneg; assumption).
    assert (H2 : 0 <= shr_m (SpecFloat.iter_pos shr_1 p (shr_1 mrs))).
    { rewrite IH by assumption. apply Z.div_pos; lia. }
    rewrite IH by assumption. rewrite IH by assumption.
    rewrite shr_1_m by assumption.
    rewrite Hpow. rewrite !Z.div_div by lia. reflexivity.
  - assert (Hp : 0 < 2 ^ Z.pos p) by (apply Z.pow_pos_nonneg; lia).
    assert (Hpow : 2 ^ Z.pos p~0 = 2 ^ Z.pos p * 2 ^ Z.pos p).
    { rewrite <- Z.pow_add_r by lia. f_equal. lia. }
    assert (H2 : 0 <= shr_m (SpecFloat.iter_pos shr_1 p mrs)).
    { rewrite IH by assumption. apply Z.div_pos; lia. }
    rewrite IH by assumption. rewrite IH by assumption.
    rewrite Hpow. rewrite !Z.div_div by lia. reflexivity.
  - rewrite shr_1_m by assumption. reflexivity.
Qed.

Lemma shr_spec (mrs : shr_record) (e n : Z) :
  0 <= shr_m mrs ->
  shr_m (fst (shr mrs e n)) = shr_m mrs / 2 ^ Z.max 0 n /\
  snd (shr mrs e n) = e + Z.max 0 n.
Proof.
  intros Hm. destruct n as [ | p | p]; simpl.
  - rewrite Z.div_1_r. lia.
  - rewrite iter_shr_m by assumption. split; [reflexivity | lia].
  - rewrite Z.div_1_r. lia.
Qed.

Lemma shr_m_of_loc (m : Z) (l : location) : shr_m (shr_record_of_loc m l) = m.
Proof. destruct l as [ | [ | | ]]; reflexivity. Qed.

Lemma shr_fexp_spec (prec emax m e : Z) (l : location) :
  0 <= m ->
  let n := Z.max 0 (fexp prec emax (Zdigits2 m + e) - e) in
  shr_m (fst (shr_fexp prec emax m e l)) = m / 2 ^ n /\
  snd (shr_fexp prec emax m e l) = e + n.
Proof.
  intros Hm n. unfold shr_fexp.
  pose proof (shr_spec (shr_record_of_loc m l) e
                (fexp prec emax (Zdigits2 m + e) - e)) as H.
  rewrite shr_m_of_loc in H. apply H. assumption.
Qed.

Lemma round_nearest_even_bounds (m : Z) (l : location) :
  m <= round_nearest_even m l <= m + 1.
Proof.
  destruct l as [ | [ | | ]]; simpl; try lia.
  destruct (Z.even m); lia.
Qed.

(** Dividing a number of [d] digits by [2^n]. *)
Lemma div_pow2_bounds (m d n : Z) :
  0 <= n < d -> 2 ^ (d - 1) <= m < 2 ^ d ->
  2 ^ (d - 1 - n) <= m / 2 ^ n < 2 ^ (d - n).
Proof.
  intros Hn Hm.
  assert (Hp : 0 < 2 ^ n) by (apply Z.pow_pos_nonneg; lia).
  split.
  - apply Z.div_le_lower_bound; [assumption | ].
    rewrite <- Z.pow_add_r by lia.
    replace (n + (d - 1 - n)) with (d - 1) by lia. lia.
  - apply Z.div_lt_upper_bound; [assumption | ].
    rewrite <- Z.pow_add_r by lia.
    replace (n + (d - n)) with d by lia. lia.
Qed.

(** Rounding keeps the magnitude, up to one. *)
Lemma binary_round_aux_normal (mx ex : Z) (lx : location) :
  0 < mx ->
  -1021 <= Zdigits2 mx + ex <= 1022 -> ex <= 970 ->
  normal (Zdigits2 mx + ex) (Zdigits2 mx + ex + 1)
         (binary_round_aux 53 1024 false mx ex lx).
Proof.
  intros Hmx Hmag Hex.
  pose proof (Zdigits2_bounds mx Hmx) as HD.
  pose proof (Zdigits2_pos mx Hmx) as HD1.
  remember (Zdigits2 mx) as D eqn:ED.
  unfold binary_round_aux.
  pose proof (shr_fexp_spec 53 1024 mx ex lx ltac:(lia)) as [Hm1 He1].
  destruct (shr_fexp 53 1024 mx ex lx) as [mrs1 e1]. simpl in Hm1, He1.
  rewrite <- ED in Hm1, He1.
  assert (Hn1 : Z.max 0 (fexp 53 1024 (D + ex) - ex) = Z.max 0 (D - 53))
    by (unfold fexp, emin; lia).
  rewrite Hn1 in Hm1, He1. clear Hn1.
  remember (Z.max 0 (D - 53)) as n1 eqn:En1.
  pose proof (div_pow2_bounds mx D n1 ltac:(lia) HD) as Hb1.
  rewrite <- Hm1 in Hb1.
  pose proof (round_nearest_even_bounds (shr_m mrs1) (loc_of_shr_record mrs1))
    as Hr.
  remember (round_nearest_even (shr_m mrs1) (loc_of_shr_record mrs1)) as m2
    eqn:Em2.
  clear Em2.
  assert (Hpos1 : 0 < 2 ^ (D - 1 - n1)) by (apply Z.pow_pos_nonneg; lia).
  assert (Hm2 : 0 < m2) by lia.
  pose proof (shr_fexp_spec 53 1024 m2 e1 loc_Exact ltac:(lia)) as [Hm3 He3].
  destruct (shr_fexp 53 1024 m2 e1 loc_Exact) as [mrs3 e3]. simpl in Hm3, He3.
  pose proof (Zdigits2_bounds m2 Hm2) as HD2.
  pose proof (Zdigits2_pos m2 Hm2) as HD2'.
  remember (Zdigits2 m2) as D2 eqn:ED2.
  (* the rounded mantissa has D - n1 digits, or one more when it is a power of two *)
  assert (HD2cases : (D2 = D - n1 /\ m2 < 2 ^ (D - n1)) \/
                     (D2 = D - n1 + 1 /\ m2 = 2 ^ (D - n1))).
  { destruct (Z.eq_dec m2 (2 ^ (D - n1))) as [Heq | Hne].
    - right. split; [ | assumption]. rewrite ED2.
      apply Zdigits2_unique; [lia | ].
      replace (D - n1 + 1 - 1) with (D - n1) by lia.
      rewrite Heq. split; [lia | ].
      apply Z.pow_lt_mono_r; lia.
    - left. assert (m2 < 2 ^ (D - n1)) by lia. split; [ | assumption].
      rewrite ED2. apply Zdigits2_unique; [lia | ].
      replace (D - n1 - 1) with (D - 1 - n1) by lia. lia. }
  assert (Hn2 : Z.max 0 (fexp 53 1024 (D2 + e1) - e1) = Z.max 0 (D2 - 53))
    by (unfold fexp, emin; lia).
  rewrite Hn2 in Hm3, He3. clear Hn2.
  destruct HD2cases as [[HD2eq Hlt] | [HD2eq Heq]].
  - (* no carry *)
    assert (Hz : Z.max 0 (D2 - 53) = 0) by lia.
    rewrite Hz in Hm3, He3. rewrite Z.pow_0_r, Z.div_1_r in Hm3.
    rewrite Hm3.
    destruct m2 as [ | p2 | p2]; try lia.
    replace (e3 <=? 1024 - 53) with true by (symmetry; apply Z.leb_le; lia).
    exists p2, e3. split; [reflexivity | ]. rewrite <- ED2.
    lia.
  - (* carry into a new digit *)
    destruct (Z_le_gt_dec D2 53) as [Hle | Hgt].
    + assert (Hz : Z.max 0 (D2 - 53) = 0) by lia.
      rewrite Hz in Hm3, He3. rewrite Z.pow_0_r, Z.div_1_r in Hm3.
      rewrite Hm3.
      destruct m2 as [ | p2 | p2]; try lia.
      replace (e3 <=? 1024 - 53) with true by (symmetry; apply Z.leb_le; lia).
      exists p2, e3. split; [reflexivity | ]. rewrite <- ED2. lia.
    + assert (Hz : Z.max 0 (D2 - 53) = 1) by lia.
      rewrite Hz in Hm3, He3.
      assert (HDn : D - n1 = 53) by lia.
      rewrite Heq, HDn in Hm3.
      change (2 ^ 53 / 2 ^ 1) with (Z.pos (2 ^ 52)) in Hm3.
      rewrite Hm3.
      replace (e3 <=? 1024 - 53) with true by (symmetry; apply Z.leb_le; lia).
      exists (2 ^ 52)%positive, e3. split; [reflexivity | ].
      assert (H53 : Zdigits2 (Z.pos (2 ^ 52)) = 53) by (vm_compute; reflexivity).
      rewrite H53. lia.
Qed.

(** ** The operations on normal floats *)

Lemma shl_align_spec (mx : positive) (ex ex' : Z) :
  Z.pos (fst (shl_align mx ex ex')) = Z.pos mx * 2 ^ (ex - snd (shl_align mx ex ex'))
  /\ snd (shl_align mx ex ex') = Z.min ex ex'.
Proof.
  unfold shl_align.
  destruct (ex' - ex) as [ | d | d] eqn:Hd; cbn [fst snd].
  - replace (ex - ex) with 0 by lia. rewrite Z.pow_0_r. lia.
  - replace (ex - ex) with 0 by lia. rewrite Z.pow_0_r. lia.
  - fold (shift_pos d mx). rewrite shift_pos_correct.
    change (Z.pow_pos 2 d) with (2 ^ Z.pos d).
    replace (ex - ex') with (Z.pos d) by lia. lia.
Qed.

(** ** Powers of two *)

Lemma pow2_pos (e : Z) : (0 < pow2 e)%Q.
Proof. apply Qpower_0_lt. reflexivity. Qed.

Lemma pow2_add (a b : Z) : (pow2 (a + b) == pow2 a * pow2 b)%Q.
Proof. apply Qpower_plus. discriminate. Qed.

Lemma pow2_Z (n : Z) : 0 <= n -> (pow2 n == inject_Z (2 ^ n))%Q.
Proof. intros Hn. unfold pow2. symmetry. apply Zpower_Qpower. exact Hn. Qed.

Lemma pow2_shift (e ex : Z) :
  ex <= e -> (pow2 e == inject_Z (2 ^ (e - ex)) * pow2 ex)%Q.
Proof.
  intros H. replace e with ((e - ex) + ex) at 1 by lia.
  rewrite pow2_add, pow2_Z by lia. reflexivity.
Qed.

Lemma pow2_le (a b : Z) : a <= b -> (pow2 a <= pow2 b)%Q.
Proof. intros H. apply Qpower_le_compat_l; [exact H | ]. discriminate. Qed.

(** ** Rounding a mantissa of at least [prec] digits *)

Lemma binary_round_aux_bracket (prec emax mx ex : Z) (lx : location) :
  1 <= prec -> 0 < mx -> prec <= Zdigits2 mx ->
  3 - emax <= Zdigits2 mx + ex -> Zdigits2 mx + ex < emax ->
  exists m e,
    binary_round_aux prec emax false mx ex lx = S754_finite false m e /\
    Zdigits2 (Z.pos m) = prec /\
    ex <= e /\
    Zdigits2 mx + ex <= e + prec <= Zdigits2 mx + ex + 1 /\
    (Z.pos m - 1) * 2 ^ (e - ex) <= mx /\
    mx + 1 <= (Z.pos m + 1) * 2 ^ (e - ex).
Proof.
  intros Hprec Hmx Hdig Hlo Hhi.
  pose proof (Zdigits2_bounds mx Hmx) as HD.
  remember (Zdigits2 mx) as D eqn:ED.
  unfold binary_round_aux.
  pose proof (shr_fexp_spec prec emax mx ex lx ltac:(lia)) as [Hm1 He1].
  destruct (shr_fexp prec emax mx ex lx) as [mrs1 e1]. simpl in Hm1, He1.
  rewrite <- ED in Hm1, He1.
  assert (Hn1 : Z.max 0 (fexp prec emax (D + ex) - ex) = D - prec)
    by (unfold fexp, emin; lia).
  rewrite Hn1 in Hm1, He1. clear Hn1.
  remember (D - prec) as n1 eqn:En1.
  pose proof (div_pow2_bounds mx D n1 ltac:(lia) HD) as Hb1.
  assert (Hp1 : 0 < 2 ^ n1) by (apply Z.pow_pos_nonneg; lia).
  pose proof (Z.div_mod mx (2 ^ n1) ltac:(lia)) as Hdm.
  pose proof (Z.mod_pos_bound mx (2 ^ n1) Hp1) as Hmod.
  rewrite <- Hm1 in Hb1, Hdm.
  replace (D - 1 - n1) with (prec - 1) in Hb1 by lia.
  replace (D - n1) with prec in Hb1 by lia.
  pose proof (round_nearest_even_bounds (shr_m mrs1) (loc_of_shr_record mrs1))
    as Hr.
  remember (round_nearest_even (shr_m mrs1) (loc_of_shr_record mrs1)) as m2
    eqn:Em2.
  clear Em2.
  remember (shr_m mrs1) as m1 eqn:Em1. clear Em1 mrs1.
  assert (Hpp : 0 < 2 ^ (prec - 1)) by (apply Z.pow_pos_nonneg; lia).
  assert (Hpw : 2 ^ prec = 2 * 2 ^ (prec - 1)).
  { replace prec with (Z.succ (prec - 1)) at 1 by lia.
    apply Z.pow_succ_r. lia. }
  assert (Hm2 : 0 < m2) by lia.
  pose proof (shr_fexp_spec prec emax m2 e1 loc_Exact ltac:(lia)) as [Hm3 He3].
  destruct (shr_fexp prec emax m2 e1 loc_Exact) as [mrs3 e3]. simpl in Hm3, He3.
  destruct (Z.eq_dec m2 (2 ^ prec)) as [Heq | Hne].
  - (* carry into a new digit *)
    assert (HD2 : Zdigits2 m2 = prec + 1).
    { apply Zdigits2_unique; [lia | ].
      replace (prec + 1 - 1) with prec by lia. rewrite Heq.
      split; [lia | ]. apply Z.pow_lt_mono_r; lia. }
    rewrite HD2 in Hm3, He3.
    assert (Hn2 : Z.max 0 (fexp prec emax (prec + 1 + e1) - e1) = 1)
      by (unfold fexp, emin; lia).
    rewrite Hn2 in Hm3, He3. clear Hn2.
    assert (Hm3' : shr_m mrs3 = 2 ^ (prec - 1)).
    { rewrite Hm3, Heq, Hpw. change (2 ^ 1) with 2.
      rewrite Z.mul_comm. apply Z.div_mul. lia. }
    rewrite Hm3'.
    destruct (2 ^ (prec - 1)) as [ | p | p] eqn:Hp; try lia.
    replace (e3 <=? emax - prec) with true by (symmetry; apply Z.leb_le; lia).
    exists p, e3. split; [reflexivity | ].
    split.
    { apply Zdigits2_unique; [lia | ]. rewrite <- Hp.
      split; [lia | ]. lia. }
    split; [lia | ]. split; [lia | ].
    replace (e3 - ex) with (Z.succ n1) by lia.
    rewrite Z.pow_succ_r by lia. rewrite <- Hp. nia.
  - (* no carry *)
    assert (Hlt : m2 < 2 ^ prec) by lia.
    assert (HD2 : Zdigits2 m2 = prec).
    { apply Zdigits2_unique; [lia | ]. lia. }
    rewrite HD2 in Hm3, He3.
    assert (Hn2 : Z.max 0 (fexp prec emax (prec + e1) - e1) = 0)
      by (unfold fexp, emin; lia).
    rewrite Hn2 in Hm3, He3. clear Hn2.
    rewrite Z.pow_0_r, Z.div_1_r in Hm3. rewrite Hm3.
    destruct m2 as [ | p2 | p2]; try lia.
    replace (e3 <=? emax - prec) with true by (symmetry; apply Z.leb_le; lia).
    exists p2, e3. split; [reflexivity | ].
    split; [exact HD2 | ]. split; [lia | ]. split; [lia | ].
    replace (e3 - ex) with n1 by lia. nia.
Qed.

(** A mantissa of exactly [prec] digits is kept as it is. *)
Lemma binary_round_aux_exact (prec emax : Z) (mx : positive) (ex : Z) :
  Zdigits2 (Z.pos mx) = prec ->
  3 - emax <= prec + ex -> prec + ex <= emax ->
  binary_round_aux prec emax false (Z.pos mx) ex loc_Exact
  = S754_finite false mx ex.
Proof.
  intros Hdig Hlo Hhi.
  assert (Hshr : forall l, shr_fexp prec emax (Z.pos mx) ex l
                 = (shr_record_of_loc (Z.pos mx) l, ex)).
  { intros l. unfold shr_fexp. rewrite Hdig.
    replace (fexp prec emax (prec + ex) - ex) with 0
      by (unfold fexp, emin; lia).
    reflexivity. }
  unfold binary_round_aux. rewrite Hshr.
  cbn [shr_record_of_loc loc_of_shr_record shr_m shr_r shr_s
       round_nearest_even].
  rewrite Hshr. cbn [shr_record_of_loc shr_m].
  replace (ex <=? emax - prec) with true by (symmetry; apply Z.leb_le; lia).
  reflexivity.
Qed.


(** ** From integers to rationals *)

Lemma inject_Z_sub (a b : Z) : (inject_Z (a - b) == inject_Z a - inject_Z b)%Q.
Proof. unfold Z.sub. rewrite inject_Z_plus, inject_Z_opp. reflexivity. Qed.

Ltac to_Q H :=
  first [rewrite Zle_Qle in H | rewrite Zlt_Qlt in H
        | apply (f_equal inject_Z) in H];
  repeat first [rewrite inject_Z_plus in H | rewrite inject_Z_mult in H
               | rewrite inject_Z_sub in H];
  change (inject_Z 1) with 1%Q in H.

Lemma bracket_Q (m e mx ex : Z) :
  ex <= e ->
  (m - 1) * 2 ^ (e - ex) <= mx -> mx + 1 <= (m + 1) * 2 ^ (e - ex) ->
  ((inject_Z m - 1) * pow2 e <= inject_Z mx * pow2 ex /\
   (inject_Z mx + 1) * pow2 ex <= (inject_Z m + 1) * pow2 e)%Q.
Proof.
  intros He Hlo Hhi. rewrite (pow2_shift e ex He).
  pose proof (pow2_pos ex) as Hp.
  to_Q Hlo. to_Q Hhi.
  change (inject_Z 1) with 1%Q in *.
  split; nra.
Qed.

Lemma digits_shift (m d n : Z) :
  0 < m -> 0 <= n -> Zdigits2 m = d -> Zdigits2 (m * 2 ^ n) = d + n.
Proof.
  intros Hm Hn Hd. pose proof (Zdigits2_bounds m Hm) as HB.
  pose proof (Zdigits2_pos m Hm) as H1. rewrite Hd in HB, H1.
  assert (Hp : 0 < 2 ^ n) by (apply Z.pow_pos_nonneg; lia).
  apply Zdigits2_unique; [lia | ].
  replace (d + n - 1) with (d - 1 + n) by lia.
  rewrite !Z.pow_add_r by lia. nia.
Qed.

(** [binary_round]: a value in the normal range is rounded to within one
    unit in the last place, and a mantissa of at most [prec] digits is
    kept exactly. *)
Lemma binary_round_near (prec emax : Z) (mx : positive) (ex : Z) :
  1 <= prec ->
  3 - emax <= Zdigits2 (Z.pos mx) + ex -> Zdigits2 (Z.pos mx) + ex < emax ->
  exists m e,
    binary_round prec emax false mx ex = S754_finite false m e /\
    Zdigits2 (Z.pos m) = prec /\
    Zdigits2 (Z.pos mx) + ex <= e + prec <= Zdigits2 (Z.pos mx) + ex + 1 /\
    ((inject_Z (Z.pos m) - 1) * pow2 e <= inject_Z (Z.pos mx) * pow2 ex)%Q /\
    (inject_Z (Z.pos mx) * pow2 ex <= (inject_Z (Z.pos m) + 1) * pow2 e)%Q /\
    (Zdigits2 (Z.pos mx) <= prec ->
     (inject_Z (Z.pos m) * pow2 e == inject_Z (Z.pos mx) * pow2 ex)%Q).
Proof.
  intros Hprec Hlo Hhi. unfold binary_round.
  change (Z.pos (digits2_pos mx)) with (Zdigits2 (Z.pos mx)).
  pose proof (shl_align_spec mx ex (fexp prec emax (Zdigits2 (Z.pos mx) + ex)))
    as [Hm He].
  destruct (shl_align mx ex (fexp prec emax (Zdigits2 (Z.pos mx) + ex)))
    as [mz ez]. cbn [fst snd] in Hm, He.
  pose proof (Zdigits2_pos (Z.pos mx) ltac:(lia)) as HD1.
  remember (Zdigits2 (Z.pos mx)) as D eqn:ED.
  assert (Hf : fexp prec emax (D + ex) = D + ex - prec)
    by (unfold fexp, emin; lia).
  rewrite Hf in He.
  assert (Hez : ez <= ex) by lia.
  assert (Hdz : Zdigits2 (Z.pos mz) = D + (ex - ez)).
  { rewrite Hm. apply digits_shift; [lia | lia | congruence]. }
  pose proof (pow2_pos ez) as Hpz.
  assert (Hval : (inject_Z (Z.pos mz) * pow2 ez
                  == inject_Z (Z.pos mx) * pow2 ex)%Q).
  { rewrite Hm, inject_Z_mult, (pow2_shift ex ez Hez). ring. }
  destruct (Z_le_gt_dec D prec) as [Hle | Hgt].
  - (* at most [prec] digits: aligned to exactly [prec], then kept *)
    assert (Hez' : ez = D + ex - prec) by lia.
    rewrite binary_round_aux_exact by lia.
    exists mz, ez. split; [reflexivity | ]. split; [lia | ].
    split; [lia | ]. rewrite <- Hval.
    split; [nra | ]. split; [nra | ]. intros _. reflexivity.
  - (* more digits: rounded *)
    assert (Hez' : ez = ex) by lia.
    destruct (binary_round_aux_bracket prec emax (Z.pos mz) ez loc_Exact
                Hprec ltac:(lia) ltac:(lia) ltac:(lia) ltac:(lia))
      as (m & e & Hres & Hdm & Hee & Hmag & Hb1 & Hb2).
    exists m, e. split; [exact Hres | ]. split; [exact Hdm | ].
    split; [lia | ].
    destruct (bracket_Q (Z.pos m) e (Z.pos mz) ez Hee Hb1 Hb2) as [Q1 Q2].
    rewrite <- Hval. split; [exact Q1 | ]. split; [nra | lia].
Qed.

(** The product of two floats whose mantissas have at least [prec + 1]
    digits together. *)
Lemma SFmul_near (prec emax : Z) (mx my : positive) (ex ey : Z) :
  1 <= prec ->
  prec + 1 <= Zdigits2 (Z.pos mx) + Zdigits2 (Z.pos my) ->
  let M := Zdigits2 (Z.pos mx) + ex + (Zdigits2 (Z.pos my) + ey) in
  4 - emax <= M -> M < emax ->
  exists m e,
    SFmul prec emax (S754_finite false mx ex) (S754_finite false my ey)
    = S754_finite false m e /\
    Zdigits2 (Z.pos m) = prec /\
    M - 1 <= e + prec <= M + 1 /\
    ((inject_Z (Z.pos m) - 1) * pow2 e
     <= (inject_Z (Z.pos mx) * pow2 ex) * (inject_Z (Z.pos my) * pow2 ey))%Q /\
    ((inject_Z (Z.pos mx) * pow2 ex) * (inject_Z (Z.pos my) * pow2 ey)
     <= (inject_Z (Z.pos m) + 1) * pow2 e)%Q.
Proof.
  intros Hprec Hdig M Hlo Hhi. unfold SFmul. cbn [xorb].
  pose proof (Zdigits2_pos (Z.pos mx) ltac:(lia)) as Hx1.
  pose proof (Zdigits2_pos (Z.pos my) ltac:(lia)) as Hy1.
  assert (Hd : Zdigits2 (Z.pos mx) + Zdigits2 (Z.pos my) - 1
               <= Zdigits2 (Z.pos (mx * my))
               <= Zdigits2 (Z.pos mx) + Zdigits2 (Z.pos my)).
  { rewrite Pos2Z.inj_mul. rewrite !Zdigits2_log2 by lia.
    pose proof (Z.log2_mul_below (Z.pos mx) (Z.pos my) ltac:(lia) ltac:(lia)).
    pose proof (Z.log2_mul_above (Z.pos mx) (Z.pos my) ltac:(lia) ltac:(lia)).
    lia. }
  unfold M in *. clear M.
  remember (Zdigits2 (Z.pos mx)) as Dx eqn:EDx.
  remember (Zdigits2 (Z.pos my)) as Dy eqn:EDy.
  destruct (binary_round_aux_bracket prec emax (Z.pos (mx * my)) (ex + ey)
              loc_Exact Hprec ltac:(lia) ltac:(lia) ltac:(lia) ltac:(lia))
    as (m & e & Hres & Hdm & Hee & Hmag & Hb1 & Hb2).
  exists m, e. split; [exact Hres | ]. split; [exact Hdm | ].
  split; [lia | ].
  destruct (bracket_Q (Z.pos m) e (Z.pos (mx * my)) (ex + ey) Hee Hb1 Hb2)
    as [Q1 Q2].
  rewrite Pos2Z.inj_mul, inject_Z_mult, pow2_add in Q1, Q2.
  pose proof (pow2_pos ex). pose proof (pow2_pos ey).
  split; [ | ].
  - eapply Qle_trans; [exact Q1 | ]. apply Qle_lteq. right. ring.
  - assert (Hstep : ((inject_Z (Z.pos mx) * pow2 ex)
                     * (inject_Z (Z.pos my) * pow2 ey)
                     <= (inject_Z (Z.pos mx) * inject_Z (Z.pos my) + 1)
                        * (pow2 ex * pow2 ey))%Q) by nra.
    eapply Qle_trans; [exact Hstep | exact Q2].
Qed.

(** The quotient of two positive floats, whatever the digits of their
    mantissas. *)
Lemma SFdiv_near (prec emax : Z) (mx my : positive) (ex ey : Z) (v : Q) :
  1 <= prec ->
  let M := Zdigits2 (Z.pos mx) + ex - (Zdigits2 (Z.pos my) + ey) in
  3 - emax <= M -> M + 1 < emax ->
  (v * (inject_Z (Z.pos my) * pow2 ey) == inject_Z (Z.pos mx) * pow2 ex)%Q ->
  exists m e,
    SFdiv prec emax (S754_finite false mx ex) (S754_finite false my ey)
    = S754_finite false m e /\
    Zdigits2 (Z.pos m) = prec /\
    M <= e + prec <= M + 2 /\
    ((inject_Z (Z.pos m) - 1) * pow2 e <= v)%Q /\
    (v <= (inject_Z (Z.pos m) + 1) * pow2 e)%Q.
Proof.
  intros Hprec M Hlo Hhi Hv.
  unfold SFdiv, SFdiv_core_binary. cbn [xorb].
  pose proof (Zdigits2_bounds (Z.pos mx) ltac:(lia)) as Bx.
  pose proof (Zdigits2_bounds (Z.pos my) ltac:(lia)) as By.
  pose proof (Zdigits2_pos (Z.pos mx) ltac:(lia)) as Hx1.
  pose proof (Zdigits2_pos (Z.pos my) ltac:(lia)) as Hy1.
  unfold M in *. clear M.
  remember (Zdigits2 (Z.pos mx)) as Dx eqn:EDx.
  remember (Zdigits2 (Z.pos my)) as Dy eqn:EDy.
  remember (Z.min (fexp prec emax (Dx + ex - (Dy + ey))) (ex - ey)) as e'
    eqn:Ee'.
  assert (He' : e' = Z.min (Dx + ex - (Dy + ey) - prec) (ex - ey))
    by (unfold fexp, emin in Ee'; lia).
  clear Ee'.
  remember (ex - ey - e') as s eqn:Es.
  assert (Hs0 : 0 <= s) by lia.
  remember (match s with
            | 0 => Z.pos mx
            | Z.pos _ => Z.pos mx ≪ s
            | Z.neg _ => 0
            end) as m' eqn:Em'.
  assert (Hm' : m' = Z.pos mx * 2 ^ s).
  { destruct s as [ | ps | ps]; try lia.
    rewrite Em'. apply Z.shiftl_mul_pow2. lia. }
  clear Em'.
  pose proof (Z_div_mod m' (Z.pos my) ltac:(lia)) as Hdm.
  destruct (Z.div_eucl m' (Z.pos my)) as [q r]. destruct Hdm as [Hq Hr].
  assert (Hps : 0 < 2 ^ s) by (apply Z.pow_pos_nonneg; lia).
  remember (Dx + s - Dy) as t eqn:Et.
  assert (Ht : prec <= t) by lia.
  assert (Hte : t + e' = Dx + ex - (Dy + ey)) by lia.
  assert (Hqlo : 2 ^ (t - 1) <= q).
  { assert (Hlow : 2 ^ (t - 1) * Z.pos my < m').
    { assert (2 ^ (t - 1) * Z.pos my < 2 ^ (t - 1) * 2 ^ Dy)
        by (apply Z.mul_lt_mono_pos_l; [apply Z.pow_pos_nonneg; lia | lia]).
      assert (2 ^ (Dx - 1) * 2 ^ s <= Z.pos mx * 2 ^ s)
        by (apply Z.mul_le_mono_nonneg_r; lia).
      rewrite <- Z.pow_add_r in * by lia.
      replace (Dx - 1 + s) with (t - 1 + Dy) in * by lia. lia. }
    destruct (Z_le_gt_dec (2 ^ (t - 1)) q) as [Hle | Hgt]; [assumption | exfalso].
    assert (q + 1 <= 2 ^ (t - 1)) by lia.
    assert ((q + 1) * Z.pos my <= 2 ^ (t - 1) * Z.pos my)
      by (apply Z.mul_le_mono_nonneg_r; lia).
    lia. }
  assert (Hqhi : q < 2 ^ (t + 1)).
  { assert (Hup : m' < 2 ^ (t + 1) * Z.pos my).
    { assert (Z.pos mx * 2 ^ s < 2 ^ Dx * 2 ^ s)
        by (apply Z.mul_lt_mono_pos_r; lia).
      assert (2 ^ (t + 1) * 2 ^ (Dy - 1) <= 2 ^ (t + 1) * Z.pos my)
        by (apply Z.mul_le_mono_nonneg_l; [apply Z.pow_nonneg; lia | lia]).
      rewrite <- Z.pow_add_r in * by lia.
      replace (Dx + s) with (t + 1 + (Dy - 1)) in * by lia. lia. }
    destruct (Z_lt_le_dec q (2 ^ (t + 1))) as [Hlt | Hge]; [assumption | exfalso].
    assert (2 ^ (t + 1) * Z.pos my <= q * Z.pos my)
      by (apply Z.mul_le_mono_nonneg_r; lia).
    lia. }
  assert (Hq0 : 0 < q).
  { assert (0 < 2 ^ (t - 1)) by (apply Z.pow_pos_nonneg; lia). lia. }
  assert (Hdq : t <= Zdigits2 q <= t + 1).
  { pose proof (Zdigits2_bounds q Hq0) as Bq.
    pose proof (Zdigits2_pos q Hq0).
    remember (Zdigits2 q) as Dq. split.
    - destruct (Z_le_gt_dec t Dq) as [Hle | Hgt]; [assumption | exfalso].
      assert (2 ^ Dq <= 2 ^ (t - 1)) by (apply Z.pow_le_mono_r; lia). lia.
    - destruct (Z_le_gt_dec Dq (t + 1)) as [Hle | Hgt]; [assumption | exfalso].
      assert (2 ^ (t + 1) <= 2 ^ (Dq - 1)) by (apply Z.pow_le_mono_r; lia).
      lia. }
  destruct (binary_round_aux_bracket prec emax q e'
              (new_location (Z.pos my) r)
              Hprec Hq0 ltac:(lia) ltac:(lia) ltac:(lia))
    as (m & e & Hres & Hdm & Hee & Hmag & Hb1 & Hb2).
  exists m, e. split; [exact Hres | ]. split; [exact Hdm | ].
  split; [lia | ].
  (* the bracket, first among integers *)
  assert (HP : 0 < 2 ^ (e - e')) by (apply Z.pow_pos_nonneg; lia).
  assert (Z1 : (Z.pos m - 1) * 2 ^ (e - e') * Z.pos my <= Z.pos mx * 2 ^ s)
    by nia.
  assert (Z2 : Z.pos mx * 2 ^ s <= (Z.pos m + 1) * 2 ^ (e - e') * Z.pos my)
    by nia.
  to_Q Z1. to_Q Z2. change (inject_Z 1) with 1%Q in *.
  pose proof (pow2_pos e') as Pe'. pose proof (pow2_pos ey) as Pey.
  assert (Hex : (pow2 ex == inject_Z (2 ^ s) * pow2 e' * pow2 ey)%Q).
  { replace ex with (s + e' + ey) at 1 by lia.
    rewrite !pow2_add, pow2_Z by lia. reflexivity. }
  assert (HY : (0 < inject_Z (Z.pos my) * pow2 ey)%Q).
  { apply Qmult_lt_0_compat; [reflexivity | exact Pey]. }
  rewrite (pow2_shift e e' Hee).
  rewrite Hex in Hv.
  split.
  - apply (Qmult_le_r _ _ _ HY). rewrite Hv.
    assert (Hk : (0 <= pow2 e' * pow2 ey)%Q) by nra.
    pose proof (Qmult_le_compat_r _ _ _ Z1 Hk) as Hk1.
    eapply Qle_trans; [ | eapply Qle_trans; [exact Hk1 | ]];
      apply Qle_lteq; right; ring.
  - apply (Qmult_le_r _ _ _ HY). rewrite Hv.
    assert (Hk : (0 <= pow2 e' * pow2 ey)%Q) by nra.
    pose proof (Qmult_le_compat_r _ _ _ Z2 Hk) as Hk2.
    eapply Qle_trans; [ | eapply Qle_trans; [exact Hk2 | ]];
      apply Qle_lteq; right; ring.
Qed.

(** [float(n)] for a positive [n] of at most [k] digits. *)
Lemma float_of_int_normal (n k : Z) :
  0 < n < 2 ^ k -> k <= 1000 ->
  normal 1 (k + 1) (float_of_int n).
Proof.
  intros Hn Hk.
  destruct n as [ | p | p]; try lia.
  unfold float_of_int, binary_normalize, binary_round.
  pose proof (shl_align_spec p 0 (fexp 53 1024 (Z.pos (digits2_pos p) + 0)))
    as [Hm He].
  destruct (shl_align p 0 (fexp 53 1024 (Z.pos (digits2_pos p) + 0)))
    as [mz ez]. cbn [fst snd] in Hm, He.
  change (Z.pos (digits2_pos p)) with (Zdigits2 (Z.pos p)) in He.
  pose proof (Zdigits2_bounds (Z.pos p) ltac:(lia)) as HD.
  pose proof (Zdigits2_pos (Z.pos p) ltac:(lia)) as HD1.
  remember (Zdigits2 (Z.pos p)) as D eqn:ED.
  assert (HDk : D <= k).
  { destruct (Z_le_gt_dec D k) as [Hle | Hgt]; [assumption | exfalso].
    assert (2 ^ k <= 2 ^ (D - 1)) by (apply Z.pow_le_mono_r; lia). lia. }
  assert (Hez : ez <= 0) by lia.
  assert (Hdz : Zdigits2 (Z.pos mz) = D - ez).
  { apply Zdigits2_unique; [lia | ]. rewrite Hm.
    replace (0 - ez) with (- ez) by lia.
    replace (D - ez - 1) with (D - 1 + - ez) by lia.
    replace (D - ez) with (D + - ez) by lia.
    rewrite !Z.pow_add_r by lia.
    assert (0 < 2 ^ (- ez)) by (apply Z.pow_pos_nonneg; lia).
    split; [apply Z.mul_le_mono_nonneg_r; lia | apply Z.mul_lt_mono_pos_r; lia]. }
  pose proof (binary_round_aux_normal (Z.pos mz) ez loc_Exact ltac:(lia)) as Hr.
  rewrite Hdz in Hr.
  destruct Hr as (m & e & Hr & Hd & Hmag).
  - unfold fexp, emin in He. lia.
  - lia.
  - exists m, e. split; [assumption | ]. lia.
Qed.

Lemma fmul_normal (a b c d : Z) (x y : spec_float) :
  normal a b x -> normal c d y ->
  -1020 <= a + c -> b + d <= 972 ->
  normal (a + c - 1) (b + d + 1) (fmul x y).
Proof.
  intros (mx & ex & -> & Hdx & Hx) (my & ey & -> & Hdy & Hy) Hlo Hhi.
  unfold fmul, SFmul. cbn [xorb].
  pose proof (Zdigits2_pos (Z.pos mx) ltac:(lia)) as Hx1.
  pose proof (Zdigits2_pos (Z.pos my) ltac:(lia)) as Hy1.
  assert (Hd : Zdigits2 (Z.pos mx) + Zdigits2 (Z.pos my) - 1
               <= Zdigits2 (Z.pos (mx * my))
               <= Zdigits2 (Z.pos mx) + Zdigits2 (Z.pos my)).
  { rewrite Pos2Z.inj_mul. rewrite !Zdigits2_log2 by lia.
    pose proof (Z.log2_mul_below (Z.pos mx) (Z.pos my) ltac:(lia) ltac:(lia)).
    pose proof (Z.log2_mul_above (Z.pos mx) (Z.pos my) ltac:(lia) ltac:(lia)).
    lia. }
  pose proof (binary_round_aux_normal (Z.pos (mx * my)) (ex + ey) loc_Exact
                ltac:(lia)) as Hr.
  remember (Zdigits2 (Z.pos (mx * my))) as Dm eqn:EDm.
  remember (Zdigits2 (Z.pos mx)) as Dx eqn:EDx.
  remember (Zdigits2 (Z.pos my)) as Dy eqn:EDy.
  destruct Hr as (m & e & Hr & Hdm & Hmag); [lia | lia | ].
  exists m, e. split; [assumption | ]. lia.
Qed.

(** The quotient of two normal floats. *)
Lemma SFdiv_normal (a b c d : Z) (x y : spec_float) :
  normal a b x -> normal c d y ->
  -1000 <= a - d -> b - c <= 900 -> -900 <= a -> b <= 900 -> -900 <= c -> d <= 900 ->
  normal (a - d) (b - c + 2) (SFdiv 53 1024 x y).
Proof.
  intros (mx & ex & -> & Hdx & Hx) (my & ey & -> & Hdy & Hy) H1 H2 H3 H4 H5 H6.
  unfold SFdiv, SFdiv_core_binary. cbn [xorb].
  pose proof (Zdigits2_bounds (Z.pos mx) ltac:(lia)) as Bx.
  pose proof (Zdigits2_bounds (Z.pos my) ltac:(lia)) as By.
  pose proof (Zdigits2_pos (Z.pos mx) ltac:(lia)) as Hx1.
  pose proof (Zdigits2_pos (Z.pos my) ltac:(lia)) as Hy1.
  remember (Zdigits2 (Z.pos mx)) as Dx eqn:EDx.
  remember (Zdigits2 (Z.pos my)) as Dy eqn:EDy.
  remember (Z.min (fexp 53 1024 (Dx + ex - (Dy + ey))) (ex - ey)) as e' eqn:Ee'.
  assert (He' : e' = Dx + ex - (Dy + ey) - 53) by (unfold fexp, emin in Ee'; lia).
  remember (ex - ey - e') as s eqn:Es.
  assert (Hs : s = 53 + Dy - Dx) by lia.
  assert (Hs0 : 0 < s) by lia.
  remember (match s with
            | 0 => Z.pos mx
            | Z.pos _ => Z.pos mx ≪ s
            | Z.neg _ => 0
            end) as m' eqn:Em'.
  assert (Hm' : m' = Z.pos mx * 2 ^ s).
  { destruct s as [ | ps | ps]; try lia. rewrite Em'. apply Z.shiftl_mul_pow2. lia. }
  clear Em'.
  pose proof (Z_div_mod m' (Z.pos my) ltac:(lia)) as Hdm.
  destruct (Z.div_eucl m' (Z.pos my)) as [q r]. destruct Hdm as [Hq Hr].
  assert (Hps : 0 < 2 ^ s) by (apply Z.pow_pos_nonneg; lia).
  (* the quotient has 53 or 54 digits *)
  assert (Hqlo : 2 ^ 52 <= q).
  { assert (Hlow : 2 ^ 52 * Z.pos my < m' + 1).
    { assert (2 ^ 52 * Z.pos my < 2 ^ 52 * 2 ^ Dy)
        by (apply Z.mul_lt_mono_pos_l; lia).
      assert (2 ^ (Dx - 1) * 2 ^ s <= Z.pos mx * 2 ^ s)
        by (apply Z.mul_le_mono_nonneg_r; lia).
      rewrite <- Z.pow_add_r in * by lia.
      replace (Dx - 1 + s) with (52 + Dy) in * by lia. lia. }
    destruct (Z_le_gt_dec (2 ^ 52) q) as [Hle | Hgt]; [assumption | exfalso].
    assert (q + 1 <= 2 ^ 52) by lia.
    assert ((q + 1) * Z.pos my <= 2 ^ 52 * Z.pos my)
      by (apply Z.mul_le_mono_nonneg_r; lia).
    lia. }
  assert (Hqhi : q < 2 ^ 54).
  { assert (Hup : m' < 2 ^ 54 * Z.pos my).
    { assert (Z.pos mx * 2 ^ s < 2 ^ Dx * 2 ^ s)
        by (apply Z.mul_lt_mono_pos_r; lia).
      assert (2 ^ 54 * 2 ^ (Dy - 1) <= 2 ^ 54 * Z.pos my)
        by (apply Z.mul_le_mono_nonneg_l; lia).
      rewrite <- Z.pow_add_r in * by lia.
      replace (Dx + s) with (54 + (Dy - 1)) in * by lia. lia. }
    destruct (Z_lt_le_dec q (2 ^ 54)) as [Hlt | Hge]; [assumption | exfalso].
    assert (2 ^ 54 * Z.pos my <= q * Z.pos my)
      by (apply Z.mul_le_mono_nonneg_r; lia).
    lia. }
  assert (Hdq : 53 <= Zdigits2 q <= 54).
  { assert (0 < q) by lia.
    pose proof (Zdigits2_bounds q ltac:(lia)) as Bq.
    pose proof (Zdigits2_pos q ltac:(lia)).
    remember (Zdigits2 q) as Dq. split.
    - destruct (Z_le_gt_dec 53 Dq) as [Hle | Hgt]; [assumption | exfalso].
      assert (2 ^ Dq <= 2 ^ 52) by (apply Z.pow_le_mono_r; lia). lia.
    - destruct (Z_le_gt_dec Dq 54) as [Hle | Hgt]; [assumption | exfalso].
      assert (2 ^ 54 <= 2 ^ (Dq - 1)) by (apply Z.pow_le_mono_r; lia). lia. }
  remember (Zdigits2 q) as Dq eqn:EDq.
  pose proof (binary_round_aux_normal q e' (new_location (Z.pos my) r)
                ltac:(lia)) as Hn.
  rewrite <- EDq in Hn.
  destruct Hn as (m & e & Hres & Hdm & Hmag); [lia | lia | ].
  exists m, e. split; [assumption | ]. lia.
Qed.

(** The quotient of two positive ints: it is [SFdiv] on the unrounded
    operands, a float of 53 digits within one unit in the last place of
    the rational [n / m]. *)
Lemma truediv_near (n k m j : Z) :
  0 < n < 2 ^ k -> 0 < m < 2 ^ j -> 0 <= k <= 400 -> 0 <= j <= 400 ->
  truediv n m = Ret (SFdiv 53 1024 (unrounded n) (unrounded m)) /\
  normal (- j) (k + 2) (SFdiv 53 1024 (unrounded n) (unrounded m)) /\
  near 53 (inject_Z n / inject_Z m)
       (SFdiv 53 1024 (unrounded n) (unrounded m)).
Proof.
  intros Hn Hm Hk Hj. unfold truediv.
  replace (m =? 0) with false by (symmetry; apply Z.eqb_neq; lia).
  destruct n as [ | pn | pn]; try lia. destruct m as [ | pm | pm]; try lia.
  cbn [unrounded].
  pose proof (Zdigits2_bounds (Z.pos pn) ltac:(lia)) as Bn.
  pose proof (Zdigits2_bounds (Z.pos pm) ltac:(lia)) as Bm.
  pose proof (Zdigits2_pos (Z.pos pn) ltac:(lia)) as Hn1.
  pose proof (Zdigits2_pos (Z.pos pm) ltac:(lia)) as Hm1.
  assert (Hdn : Zdigits2 (Z.pos pn) <= k).
  { destruct (Z_le_gt_dec (Zdigits2 (Z.pos pn)) k) as [Hle | Hgt];
      [assumption | exfalso].
    assert (2 ^ k <= 2 ^ (Zdigits2 (Z.pos pn) - 1))
      by (apply Z.pow_le_mono_r; lia).
    lia. }
  assert (Hdm : Zdigits2 (Z.pos pm) <= j).
  { destruct (Z_le_gt_dec (Zdigits2 (Z.pos pm)) j) as [Hle | Hgt];
      [assumption | exfalso].
    assert (2 ^ j <= 2 ^ (Zdigits2 (Z.pos pm) - 1))
      by (apply Z.pow_le_mono_r; lia).
    lia. }
  destruct (SFdiv_near 53 1024 pn pm 0 0
              (inject_Z (Z.pos pn) / inject_Z (Z.pos pm))
              ltac:(lia) ltac:(lia) ltac:(lia))
    as (mq & eq & Hres & Hdq & Hmag & Hb1 & Hb2).
  { change (pow2 0) with 1%Q. field. discriminate. }
  rewrite Hres. split; [reflexivity | ]. split.
  - exists mq, eq. split; [reflexivity | ]. lia.
  - exists mq, eq. split; [reflexivity | ]. split; [exact Hdq | ].
    split; assumption.
Qed.

Lemma truediv_normal (n k m j : Z) :
  0 < n < 2 ^ k -> 0 < m < 2 ^ j -> 0 <= k <= 400 -> 0 <= j <= 400 ->
  exists q, truediv n m = Ret q /\ normal (- j) (k + 2) q.
Proof.
  intros Hn Hm Hk Hj.
  destruct (truediv_near n k m j Hn Hm Hk Hj) as (Hq & Hnorm & _).
  eexists. split; [exact Hq | exact Hnorm].
Qed.

Lemma normal_not_zero (lo hi : Z) (x : spec_float) :
  normal lo hi x -> is_zero x = false.
Proof. intros (m & e & -> & _). reflexivity. Qed.

Lemma normal_int (lo hi : Z) (x : spec_float) :
  normal lo hi x -> exists z, int_of_float x = Ret z /\ 0 <= z.
Proof.
  intros (m & e & -> & _). unfold int_of_float, SFtrunc.
  eexists. split; [reflexivity | ].
  destruct e as [ | p | p].
  - lia.
  - assert (0 < 2 ^ Z.pos p) by (apply Z.pow_pos_nonneg; lia). lia.
  - apply Z.div_pos; [lia | apply Z.pow_pos_nonneg; lia].
Qed.

(** [int(100 * a / b)] is defined on every frame count below the limit. *)
Lemma percent_defined (a b : Z) :
  0 <= a < 2 ^ 384 -> 0 < b < 2 ^ 384 -> exists p, percent a b = Ret p.
Proof.
  intros Ha Hb. unfold percent.
  destruct (Z.eq_dec a 0) as [-> | Hne].
  - unfold truediv.
    replace (b =? 0) with false by (symmetry; apply Z.eqb_neq; lia).
    destruct b as [ | pb | pb]; try lia.
    exists 0. reflexivity.
  - assert (H100 : 0 < 100 * a < 2 ^ 391).
    { change (2 ^ 391) with (128 * 2 ^ 384). lia. }
    destruct (truediv_normal (100 * a) 391 b 384 H100 ltac:(lia) ltac:(lia)
                ltac:(lia)) as (q & -> & Hq).
    cbn [mbind outcome_bind obind].
    destruct (normal_int _ _ _ Hq) as (z & Hz & _). exists z. exact Hz.
Qed.

(** The crop box is defined on every image and target of sensible size,
    and has the shape the function gives it. *)
Lemma crop_geometry_defined (iw ih tw th : Z) :
  0 < iw < 2 ^ 31 -> 0 < ih < 2 ^ 31 -> 0 < tw < 2 ^ 31 -> 0 < th < 2 ^ 31 ->
  exists target_ratio src_ratio new_w new_h,
    truediv tw th = Ret target_ratio /\
    truediv iw ih = Ret src_ratio /\
    0 <= new_w /\ 0 <= new_h /\
    (if fgt src_ratio target_ratio
     then int_of_float (fmul (float_of_int ih) target_ratio) = Ret new_w /\
          new_h = ih /\
          crop_geometry iw ih tw th = Ret ((iw - new_w) / 2, 0, new_w, new_h)
     else (exists q, fdiv (float_of_int iw) target_ratio = Ret q /\
                     int_of_float q = Ret new_h) /\
          new_w = iw /\
          crop_geometry iw ih tw th = Ret (0, (ih - new_h) / 2, new_w, new_h)).
Proof.
  intros Hiw Hih Htw Hth.
  destruct (truediv_normal tw 31 th 31 Htw Hth ltac:(lia) ltac:(lia))
    as (tr & Etr & Ntr).
  destruct (truediv_normal iw 31 ih 31 Hiw Hih ltac:(lia) ltac:(lia))
    as (sr & Esr & Nsr).
  pose proof (float_of_int_normal ih 31 Hih ltac:(lia)) as Nih.
  pose proof (float_of_int_normal iw 31 Hiw ltac:(lia)) as Niw.
  unfold crop_geometry. rewrite Etr, Esr. cbn [mbind outcome_bind obind].
  destruct (fgt sr tr) eqn:Hgt.
  - pose proof (fmul_normal 1 32 (-31) 33 _ _ Nih Ntr ltac:(lia) ltac:(lia))
      as Nm.
    destruct (normal_int _ _ _ Nm) as (z & Hz & Hz0).
    exists tr, sr, z, ih. rewrite Hgt, Hz. cbn [mbind outcome_bind obind].
    repeat split; try reflexivity; lia.
  - pose proof (SFdiv_normal 1 32 (-31) 33 _ _ Niw Ntr ltac:(lia) ltac:(lia)
                  ltac:(lia) ltac:(lia) ltac:(lia) ltac:(lia)) as Nq.
    destruct (normal_int _ _ _ Nq) as (z & Hz & Hz0).
    exists tr, sr, iw, z. rewrite Hgt.
    unfold fdiv. rewrite (normal_not_zero _ _ _ Ntr).
    cbn [mbind outcome_bind obind]. rewrite Hz.
    cbn [mbind outcome_bind obind].
    repeat split; try reflexivity; try lia.
    eexists. split; [reflexivity | exact Hz].
Qed.

End FloatFacts.

(* ===================================================================== *)
(** * Error bounds, over the rationals                                    *)
(* ===================================================================== *)

Module RationalFacts.
Import Rounding.

Section Bounds.
Local Open Scope Q_scope.



(** The blend: [al] is the blend factor [F1 / Cq], [ah] its float, [U] the
    float of [1 - ah], [W0] and [W1] the float32 weights, [P0] and [P1] the
    float32 products, [S] their float32 sum, [Zq] its integer part. *)
Lemma alpha_below_one (Cq F1 al ah : Q) :
  0 < F1 -> F1 + 1 <= Cq -> Cq <= 2147483648 -> al * Cq == F1 ->
  0 < ah -> ah * (1 - u52) <= al ->
  ah < 1.
Proof.
  unfold u52. intros HF HFC HC Hal Hah H1.
  assert (HC0 : 0 < Cq) by lra.
  assert (Hgap : (1 # 2147483648) <= 1 - al).
  { destruct (Qlt_le_dec (1 - al) (1 # 2147483648)) as [Hlt | Hge];
      [exfalso | exact Hge].
    assert ((1 - al) * Cq < (1 # 2147483648) * Cq) by nra.
    assert ((1 - al) * Cq == Cq - F1) by (rewrite <- Hal; ring).
    lra. }
  lra.
Qed.

Lemma blend_arith (Cq F1 al ah U W0 W1 A B P0 P1 S Zq : Q) :
  0 < F1 -> F1 + 1 <= Cq -> Cq <= 2147483648 -> al * Cq == F1 ->
  0 < ah -> ah * (1 - u52) <= al -> al <= ah * (1 + u52) ->
  0 < U -> U * (1 - u52) <= 1 - ah -> 1 - ah <= U * (1 + u52) ->
  0 < W0 -> W0 * (1 - u23) <= U -> U <= W0 * (1 + u23) ->
  0 < W1 -> W1 * (1 - u23) <= ah -> ah <= W1 * (1 + u23) ->
  0 <= A -> A <= 255 -> 0 <= B -> B <= 255 ->
  0 <= P0 -> P0 * (1 - u23) <= A * W0 -> A * W0 <= P0 * (1 + u23) ->
  0 <= P1 -> P1 * (1 - u23) <= B * W1 -> B * W1 <= P1 * (1 + u23) ->
  0 <= S -> S * (1 - u23) <= P0 + P1 -> P0 + P1 <= S * (1 + u23) ->
  Zq <= S -> S < Zq + 1 ->
  Zq < 256 /\ -1 < Zq /\
  1024 * (Zq * Cq) <= 1024 * (A * (Cq - F1) + B * F1) + Cq /\
  1024 * (A * (Cq - F1) + B * F1) < 1024 * ((Zq + 1) * Cq) + Cq.
Proof.
  unfold u52, u23.
  intros HF HFC HC Hal Hah Ha1 Ha2 HU HU1 HU2 HW0 HW01 HW02 HW1 HW11 HW12
    HA0 HA1 HB0 HB1 HP0 HP01 HP02 HP1 HP11 HP12 HS HS1 HS2 HZ1 HZ2.
  assert (HC0 : 0 < Cq) by lra.
  assert (Hal0 : 0 < al).
  { destruct (Qlt_le_dec 0 al) as [H | H]; [exact H | exfalso].
    assert (al * Cq <= 0) by nra. lra. }
  assert (Hal1 : al <= 1).
  { destruct (Qlt_le_dec 1 al) as [H | H]; [exfalso | exact H].
    assert (Cq < al * Cq) by nra. lra. }
  (* the two weights *)
  assert (V0a : 1 - al - (1 # 2097152) <= W0) by lra.
  assert (V0b : W0 <= 1 - al + (1 # 2097152)) by lra.
  assert (V1a : al - (1 # 2097152) <= W1) by lra.
  assert (V1b : W1 <= al + (1 # 2097152)) by lra.
  (* the two products, exactly *)
  assert (X0a : A * (1 - al) - (255 # 2097152) <= A * W0) by nra.
  assert (X0b : A * W0 <= A * (1 - al) + (255 # 2097152)) by nra.
  assert (X1a : B * al - (255 # 2097152) <= B * W1) by nra.
  assert (X1b : B * W1 <= B * al + (255 # 2097152)) by nra.
  assert (E0a : 0 <= A * (1 - al)) by nra.
  assert (E0b : A * (1 - al) <= 255 * (1 - al)) by nra.
  assert (E1a : 0 <= B * al) by nra.
  assert (E1b : B * al <= 255 * al) by nra.
  set (X0 := A * W0) in *. set (X1 := B * W1) in *.
  set (E0 := A * (1 - al)) in *. set (E1 := B * al) in *.
  (* rounded *)
  assert (R1 : S <= E0 + E1 + (1 # 1024)) by lra.
  assert (R2 : E0 + E1 - (1 # 1024) <= S) by lra.
  assert (EC : (E0 + E1) * Cq == A * (Cq - F1) + B * F1).
  { unfold E0, E1. rewrite <- Hal. ring. }
  split; [lra | ]. split; [lra | ]. split.
  - assert (K : Zq * Cq <= (E0 + E1 + (1 # 1024)) * Cq) by nra.
    assert (K' : (E0 + E1 + (1 # 1024)) * Cq
                 == A * (Cq - F1) + B * F1 + (1 # 1024) * Cq).
    { rewrite <- EC. ring. }
    rewrite K' in K. lra.
  - assert (K : (E0 + E1 - (1 # 1024)) * Cq < (Zq + 1) * Cq) by nra.
    assert (K' : (E0 + E1 - (1 # 1024)) * Cq
                 == A * (Cq - F1) + B * F1 - (1 # 1024) * Cq).
    { rewrite <- EC. ring. }
    rewrite K' in K. lra.
Qed.

End Bounds.

End RationalFacts.

(* ===================================================================== *)
(** * The values the float operations compute                             *)
(* ===================================================================== *)

Module ValueFacts.
Import Rounding FloatFacts RationalFacts.

Lemma canon_value_pos (prec lo hi : Z) (x : spec_float) :
  canon prec lo hi x -> (0 < value x)%Q.
Proof.
  intros (m & e & -> & _). cbn [value].
  apply Qmult_lt_0_compat; [reflexivity | apply pow2_pos].
Qed.

Lemma canon_weaken (prec lo hi lo' hi' : Z) (x : spec_float) :
  canon prec lo hi x -> lo' <= lo -> hi <= hi' -> canon prec lo' hi' x.
Proof.
  intros (m & e & -> & Hd & Hm) H1 H2. exists m, e.
  split; [reflexivity | ]. split; [exact Hd | lia].
Qed.


(** A bracket of one unit in the last place is a relative bound. *)
Lemma bracket_close (prec : Z) (m : positive) (e : Z) (v : Q) :
  1 <= prec -> Zdigits2 (Z.pos m) = prec ->
  ((inject_Z (Z.pos m) - 1) * pow2 e <= v)%Q ->
  (v <= (inject_Z (Z.pos m) + 1) * pow2 e)%Q ->
  close prec v (S754_finite false m e).
Proof.
  intros Hprec Hd H1 H2. unfold close. cbn [value].
  pose proof (Zdigits2_bounds (Z.pos m) ltac:(lia)) as [HB _].
  rewrite Hd in HB. to_Q HB. rewrite <- pow2_Z in HB by lia.
  pose proof (pow2_pos e) as He.
  pose proof (pow2_pos (1 - prec)) as Hk.
  assert (Hhk : (pow2 (prec - 1) * pow2 (1 - prec) == 1)%Q).
  { rewrite <- pow2_add. replace (prec - 1 + (1 - prec)) with 0 by lia.
    reflexivity. }
  set (M := inject_Z (Z.pos m)) in *. set (E := pow2 e) in *.
  set (k := pow2 (1 - prec)) in *. set (h := pow2 (prec - 1)) in *.
  assert (Hmk : (1 <= M * k)%Q) by nra.
  assert (HE : (E <= M * E * k)%Q) by nra.
  split; nra.
Qed.

Lemma close_eq (prec : Z) (v v' : Q) (x : spec_float) :
  (v == v')%Q -> close prec v x -> close prec v' x.
Proof. unfold close. intros E [H1 H2]. rewrite <- E. split; assumption. Qed.

Lemma near_canon_close (prec : Z) (v : Q) (x : spec_float) :
  1 <= prec -> near prec v x ->
  exists m e, x = S754_finite false m e /\ Zdigits2 (Z.pos m) = prec /\
              close prec v x.
Proof.
  intros Hprec (m & e & -> & Hd & H1 & H2). exists m, e.
  split; [reflexivity | ]. split; [exact Hd | ].
  apply bracket_close; assumption.
Qed.

(** ** Conversions *)

Lemma digits_le (n k : Z) : 0 < n < 2 ^ k -> 0 <= k -> Zdigits2 n <= k.
Proof.
  intros Hn Hk. pose proof (Zdigits2_bounds n ltac:(lia)) as HB.
  destruct (Z_le_gt_dec (Zdigits2 n) k) as [Hle | Hgt]; [assumption | exfalso].
  assert (2 ^ k <= 2 ^ (Zdigits2 n - 1)) by (apply Z.pow_le_mono_r; lia).
  lia.
Qed.

(** An integer of at most [prec] digits converts exactly. *)
Lemma normalize_exact (prec emax n k : Z) :
  1 <= prec -> 0 < n < 2 ^ k -> 0 <= k <= prec -> prec + 2 <= emax ->
  canon prec 1 (k + 1) (binary_normalize prec emax n 0 false) /\
  (value (binary_normalize prec emax n 0 false) == inject_Z n)%Q.
Proof.
  intros Hprec Hn Hk Hemax. destruct n as [ | p | p]; try lia.
  pose proof (digits_le (Z.pos p) k Hn ltac:(lia)) as Hd.
  pose proof (Zdigits2_pos (Z.pos p) ltac:(lia)) as Hd1.
  unfold binary_normalize.
  destruct (binary_round_near prec emax p 0 Hprec ltac:(lia) ltac:(lia))
    as (m & e & Hres & Hdm & Hmag & _ & _ & Hex).
  rewrite Hres. split.
  - exists m, e. split; [reflexivity | ]. split; [exact Hdm | lia].
  - cbn [value]. rewrite (Hex ltac:(lia)). change (pow2 0) with 1%Q. ring.
Qed.

Lemma float_of_int_exact (n k : Z) :
  0 < n < 2 ^ k -> 0 <= k <= 53 ->
  canon 53 1 (k + 1) (float_of_int n) /\
  (value (float_of_int n) == inject_Z n)%Q.
Proof.
  intros Hn Hk. apply normalize_exact; lia.
Qed.

Lemma f32_of_int_exact (n k : Z) :
  0 < n < 2 ^ k -> 0 <= k <= 24 ->
  canon 24 1 (k + 1) (f32_of_int n) /\
  (value (f32_of_int n) == inject_Z n)%Q.
Proof.
  intros Hn Hk. apply normalize_exact; lia.
Qed.

(** Narrowing a binary64 float to float32. *)
Lemma f32_of_float_close (lo hi : Z) (x : spec_float) :
  canon 53 lo hi x -> -125 <= lo -> hi < 128 ->
  canon 24 lo (hi + 1) (f32_of_float x) /\
  close 24 (value x) (f32_of_float x).
Proof.
  intros (m & e & -> & Hd & Hm) Hlo Hhi. cbn [f32_of_float value].
  destruct (binary_round_near 24 128 m e ltac:(lia) ltac:(lia) ltac:(lia))
    as (m' & e' & Hres & Hdm & Hmag & Hb1 & Hb2 & _).
  rewrite Hres. split.
  - exists m', e'. split; [reflexivity | ]. split; [exact Hdm | lia].
  - apply bracket_close; try assumption. lia.
Qed.

(** ** The operations *)

Lemma truediv_close (n k m j : Z) :
  0 < n < 2 ^ k -> 0 < m < 2 ^ j -> 0 <= k <= 400 -> 0 <= j <= 400 ->
  exists q,
    truediv n m = Ret q /\ canon 53 (- j) (k + 2) q /\
    close 53 (inject_Z n / inject_Z m) q.
Proof.
  intros Hn Hm Hk Hj.
  destruct (truediv_near n k m j Hn Hm Hk Hj) as (Hq & Hnorm & Hnear).
  eexists. split; [exact Hq | ].
  destruct (near_canon_close 53 _ _ ltac:(lia) Hnear)
    as (mq & eq & Hres & Hd & Hc).
  split; [ | exact Hc].
  rewrite Hres in *. destruct Hnorm as (m0 & e0 & [= <- <-] & _ & Hmag).
  exists mq, eq. split; [reflexivity | ]. split; [exact Hd | ].
  rewrite Hd in Hmag. exact Hmag.
Qed.

Lemma SFmul_close (prec emax a b c d : Z) (x y : spec_float) :
  2 <= prec ->
  canon prec a b x -> canon prec c d y ->
  5 - emax <= a + c -> b + d < emax ->
  canon prec (a + c - 1) (b + d + 1) (SFmul prec emax x y) /\
  close prec (value x * value y) (SFmul prec emax x y).
Proof.
  intros Hprec (mx & ex & -> & Hdx & Hx) (my & ey & -> & Hdy & Hy) Hlo Hhi.
  destruct (SFmul_near prec emax mx my ex ey ltac:(lia) ltac:(lia)
              ltac:(lia) ltac:(lia))
    as (m & e & Hres & Hdm & Hmag & Hb1 & Hb2).
  rewrite Hres. split.
  - exists m, e. split; [reflexivity | ]. split; [exact Hdm | lia].
  - cbn [value]. apply bracket_close; try assumption. lia.
Qed.



(** [int(x)] is the integer part of the value. *)
Lemma int_of_float_value (prec lo hi : Z) (x : spec_float) :
  canon prec lo hi x ->
  exists z, int_of_float x = Ret z /\ SFtrunc x = Some z /\
            (inject_Z z <= value x)%Q /\ (value x < inject_Z z + 1)%Q.
Proof.
  intros (m & e & -> & _). unfold int_of_float, SFtrunc. cbn [value].
  eexists. split; [reflexivity | ]. split; [reflexivity | ].
  destruct e as [ | p | p].
  - change (pow2 0) with 1%Q. rewrite Z.pow_0_r, Z.mul_1_r.
    split; lra.
  - rewrite inject_Z_mult, <- pow2_Z by lia.
    pose proof (pow2_pos (Z.pos p)). split; lra.
  - assert (Hp : 0 < 2 ^ Z.pos p) by (apply Z.pow_pos_nonneg; lia).
    pose proof (Z.div_mod (Z.pos m) (2 ^ Z.pos p) ltac:(lia)) as Hdm.
    pose proof (Z.mod_pos_bound (Z.pos m) (2 ^ Z.pos p) Hp) as Hmod.
    remember (Z.pos m / 2 ^ Z.pos p) as z eqn:Ez.
    assert (H1 : z * 2 ^ Z.pos p <= Z.pos m) by lia.
    assert (H2 : Z.pos m < (z + 1) * 2 ^ Z.pos p) by lia.
    to_Q H1. to_Q H2. rewrite <- pow2_Z in H1, H2 by lia.
    assert (Hinv : (pow2 (Z.pos p) * pow2 (Z.neg p) == 1)%Q).
    { rewrite <- pow2_add. replace (Z.pos p + Z.neg p) with 0 by lia.
      reflexivity. }
    pose proof (pow2_pos (Z.pos p)) as P1.
    pose proof (pow2_pos (Z.neg p)) as P2.
    set (A := pow2 (Z.pos p)) in *. set (B := pow2 (Z.neg p)) in *.
    set (M := inject_Z (Z.pos m)) in *. set (Zq := inject_Z z) in *.
    pose proof (Qmult_le_compat_r _ _ B H1 (Qlt_le_weak _ _ P2)) as K1.
    pose proof (Qmult_lt_compat_r _ _ B P2 H2) as K2.
    assert (E1 : (Zq * A * B == Zq)%Q)
      by (rewrite <- Qmult_assoc, Hinv; ring).
    assert (E2 : ((Zq + 1) * A * B == Zq + 1)%Q)
      by (rewrite <- Qmult_assoc, Hinv; ring).
    rewrite E1 in K1. rewrite E2 in K2. split; assumption.
Qed.

(** The aligned mantissas of a sum or difference. *)
Lemma aligned (mx : positive) (ex ez : Z) :
  ez <= ex ->
  Z.pos (fst (shl_align mx ex ez)) = Z.pos mx * 2 ^ (ex - ez).
Proof.
  intros H. pose proof (shl_align_spec mx ex ez) as [Hm He].
  rewrite Hm, He. replace (Z.min ex ez) with ez by lia. reflexivity.
Qed.

Lemma SFadd_close (prec emax a b c d : Z) (x y : spec_float) :
  1 <= prec ->
  canon prec a b x -> canon prec c d y ->
  3 - emax <= a -> Z.max b d + 1 < emax ->
  canon prec a (Z.max b d + 2) (SFadd prec emax x y) /\
  close prec (value x + value y) (SFadd prec emax x y).
Proof.
  intros Hprec (mx & ex & -> & Hdx & Hx) (my & ey & -> & Hdy & Hy) Hlo Hhi.
  unfold SFadd. cbn [cond_Zopp value].
  remember (Z.min ex ey) as ez eqn:Ez.
  rewrite (aligned mx ex ez) by lia. rewrite (aligned my ey ez) by lia.
  pose proof (Zdigits2_bounds (Z.pos mx) ltac:(lia)) as Bx.
  pose proof (Zdigits2_bounds (Z.pos my) ltac:(lia)) as By.
  rewrite Hdx in Bx. rewrite Hdy in By.
  assert (Px : 0 < 2 ^ (ex - ez)) by (apply Z.pow_pos_nonneg; lia).
  assert (Py : 0 < 2 ^ (ey - ez)) by (apply Z.pow_pos_nonneg; lia).
  remember (Z.pos mx * 2 ^ (ex - ez) + Z.pos my * 2 ^ (ey - ez)) as sm eqn:Es.
  assert (Hs0 : 0 < sm) by nia.
  (* the digits of the sum *)
  assert (Hlow : 2 ^ (prec + ex - ez - 1) <= sm).
  { replace (prec + ex - ez - 1) with (prec - 1 + (ex - ez)) by lia.
    rewrite Z.pow_add_r by lia. nia. }
  assert (Hup : sm < 2 ^ (Z.max b d + 1 - ez)).
  { assert (Hx2 : Z.pos mx * 2 ^ (ex - ez) < 2 ^ (Z.max b d - ez)).
    { assert (Z.pos mx * 2 ^ (ex - ez) < 2 ^ prec * 2 ^ (ex - ez)) by nia.
      rewrite <- Z.pow_add_r in * by lia.
      assert (2 ^ (prec + (ex - ez)) <= 2 ^ (Z.max b d - ez))
        by (apply Z.pow_le_mono_r; lia).
      lia. }
    assert (Hy2 : Z.pos my * 2 ^ (ey - ez) < 2 ^ (Z.max b d - ez)).
    { assert (Z.pos my * 2 ^ (ey - ez) < 2 ^ prec * 2 ^ (ey - ez)) by nia.
      rewrite <- Z.pow_add_r in * by lia.
      assert (2 ^ (prec + (ey - ez)) <= 2 ^ (Z.max b d - ez))
        by (apply Z.pow_le_mono_r; lia).
      lia. }
    replace (Z.max b d + 1 - ez) with (Z.succ (Z.max b d - ez)) by lia.
    rewrite Z.pow_succ_r by lia. lia. }
  pose proof (digits_le sm (Z.max b d + 1 - ez) ltac:(lia) ltac:(lia)) as Hd2.
  assert (Hd1 : prec + ex - ez <= Zdigits2 sm).
  { pose proof (Zdigits2_bounds sm Hs0) as Bs.
    destruct (Z_le_gt_dec (prec + ex - ez) (Zdigits2 sm)) as [Hle | Hgt];
      [assumption | exfalso].
    assert (2 ^ Zdigits2 sm <= 2 ^ (prec + ex - ez - 1))
      by (apply Z.pow_le_mono_r; [lia | ]; pose proof (Zdigits2_pos sm Hs0); lia).
    lia. }
  destruct sm as [ | ps | ps]; try lia.
  unfold binary_normalize.
  destruct (binary_round_near prec emax ps ez Hprec ltac:(lia) ltac:(lia))
    as (m & e & Hres & Hdm & Hmag & Hb1 & Hb2 & _).
  rewrite Hres. split.
  - exists m, e. split; [reflexivity | ]. split; [exact Hdm | lia].
  - assert (Hv : (inject_Z (Z.pos ps) * pow2 ez
                  == inject_Z (Z.pos mx) * pow2 ex
                     + inject_Z (Z.pos my) * pow2 ey)%Q).
    { rewrite Es. rewrite inject_Z_plus, !inject_Z_mult.
      rewrite (pow2_shift ex ez) by lia. rewrite (pow2_shift ey ez) by lia.
      ring. }
    apply (close_eq _ _ _ _ Hv). apply bracket_close; assumption.
Qed.

Lemma SFsub_close (prec emax a b c d : Z) (x y : spec_float) :
  1 <= prec ->
  canon prec a b x -> canon prec c d y ->
  (value y < value x)%Q ->
  2 - emax <= Z.min a c - prec -> b + 1 < emax ->
  canon prec (Z.min a c - prec + 1) (b + 1) (SFsub prec emax x y) /\
  close prec (value x - value y) (SFsub prec emax x y).
Proof.
  intros Hprec (mx & ex & -> & Hdx & Hx) (my & ey & -> & Hdy & Hy) Hlt Hlo Hhi.
  unfold SFsub. cbn [cond_Zopp value] in *.
  remember (Z.min ex ey) as ez eqn:Ez.
  rewrite (aligned mx ex ez) by lia. rewrite (aligned my ey ez) by lia.
  pose proof (Zdigits2_bounds (Z.pos mx) ltac:(lia)) as Bx.
  rewrite Hdx in Bx.
  assert (Px : 0 < 2 ^ (ex - ez)) by (apply Z.pow_pos_nonneg; lia).
  assert (Py : 0 < 2 ^ (ey - ez)) by (apply Z.pow_pos_nonneg; lia).
  remember (Z.pos mx * 2 ^ (ex - ez) - Z.pos my * 2 ^ (ey - ez)) as df eqn:Ed.
  assert (Hv : (inject_Z df * pow2 ez
                == inject_Z (Z.pos mx) * pow2 ex
                   - inject_Z (Z.pos my) * pow2 ey)%Q).
  { rewrite Ed. rewrite inject_Z_sub, !inject_Z_mult.
    rewrite (pow2_shift ex ez) by lia. rewrite (pow2_shift ey ez) by lia.
    ring. }
  pose proof (pow2_pos ez) as Pz.
  assert (Hd0 : 0 < df).
  { destruct (Z_lt_le_dec 0 df) as [H | H]; [exact H | exfalso].
    assert (Hq : (inject_Z df <= 0)%Q)
      by (change 0%Q with (inject_Z 0); rewrite <- Zle_Qle; exact H).
    nra. }
  assert (Hup : df < 2 ^ (b - ez)).
  { assert (Z.pos mx * 2 ^ (ex - ez) < 2 ^ prec * 2 ^ (ex - ez)) by nia.
    rewrite <- Z.pow_add_r in * by lia.
    assert (2 ^ (prec + (ex - ez)) <= 2 ^ (b - ez))
      by (apply Z.pow_le_mono_r; lia).
    lia. }
  pose proof (digits_le df (b - ez) ltac:(lia) ltac:(lia)) as Hd2.
  pose proof (Zdigits2_pos df Hd0) as Hd1.
  destruct df as [ | pd | pd]; try lia.
  unfold binary_normalize.
  destruct (binary_round_near prec emax pd ez Hprec ltac:(lia) ltac:(lia))
    as (m & e & Hres & Hdm & Hmag & Hb1 & Hb2 & _).
  rewrite Hres. split.
  - exists m, e. split; [reflexivity | ]. split; [exact Hdm | lia].
  - apply (close_eq _ _ _ _ Hv). apply bracket_close; assumption.
Qed.

(** ** Sums and products with a possible zero *)

Lemma close_zero (prec : Z) : close prec 0 (S754_zero false).
Proof. unfold close. cbn [value]. split; lra. Qed.

Lemma canon0_value_nonneg (prec lo hi : Z) (x : spec_float) :
  canon0 prec lo hi x -> (0 <= value x)%Q.
Proof.
  intros [-> | H]; [cbn; lra | ].
  apply Qlt_le_weak. exact (canon_value_pos _ _ _ _ H).
Qed.

(** A byte as float32, times a float32 weight. *)
Lemma byte_times_weight (a lo hi : Z) (w : spec_float) :
  0 <= a <= 255 -> canon 24 lo hi w -> -120 <= lo -> hi <= 100 ->
  canon0 24 lo (hi + 10)
         (SFmul 24 128 (f32_of_int a) w) /\
  close 24 (inject_Z a * value w) (SFmul 24 128 (f32_of_int a) w).
Proof.
  intros Ha Hw Hlo Hhi. destruct (Z.eq_dec a 0) as [-> | Hne].
  - destruct Hw as (m & e & -> & _).
    change (f32_of_int 0) with (S754_zero false). cbn [SFmul xorb].
    split; [left; reflexivity | ].
    assert (E : (0 == inject_Z 0 * value (S754_finite false m e))%Q) by ring.
    apply (close_eq _ _ _ _ E). apply close_zero.
  - destruct (f32_of_int_exact a 8 ltac:(lia) ltac:(lia)) as [Ca Va].
    destruct (SFmul_close 24 128 1 9 lo hi _ _ ltac:(lia) Ca Hw ltac:(lia)
                ltac:(lia)) as [Cp Kp].
    split.
    + right. eapply canon_weaken; [exact Cp | lia | lia].
    + refine (close_eq _ _ _ _ _ Kp). rewrite Va. reflexivity.
Qed.

Lemma SFadd_close0 (a b c d : Z) (x y : spec_float) :
  canon0 24 a b x -> canon0 24 c d y ->
  -120 <= a -> -120 <= c -> b <= 120 -> d <= 120 ->
  canon0 24 (Z.min a c) (Z.max b d + 2) (SFadd 24 128 x y) /\
  close 24 (value x + value y) (SFadd 24 128 x y).
Proof.
  intros [-> | Hx] [-> | Hy] Ha Hc Hb Hd.
  - cbn [SFadd value]. split; [left; reflexivity | ].
    assert (E : (0 == 0 + 0)%Q) by ring.
    apply (close_eq _ _ _ _ E). apply close_zero.
  - assert (E : SFadd 24 128 (S754_zero false) y = y).
    { destruct Hy as (m & e & -> & _). reflexivity. }
    rewrite E. split.
    + right. eapply canon_weaken; [exact Hy | lia | lia].
    + pose proof (canon_value_pos _ _ _ _ Hy) as Py.
      pose proof (pow2_pos (1 - 24)) as Pk.
      unfold close. cbn [value]. set (k := pow2 (1 - 24)) in *.
      split; nra.
  - assert (E : SFadd 24 128 x (S754_zero false) = x).
    { destruct Hx as (m & e & -> & _). reflexivity. }
    rewrite E. split.
    + right. eapply canon_weaken; [exact Hx | lia | lia].
    + pose proof (canon_value_pos _ _ _ _ Hx) as Px.
      pose proof (pow2_pos (1 - 24)) as Pk.
      unfold close. cbn [value]. set (k := pow2 (1 - 24)) in *.
      split; nra.
  - destruct (SFadd_close 24 128 a b c d x y ltac:(lia) Hx Hy ltac:(lia)
                ltac:(lia)) as [Cs Ks].
    split; [ | exact Ks].
    right. eapply canon_weaken; [exact Cs | lia | lia].
Qed.

Lemma SFtrunc_value0 (prec lo hi : Z) (x : spec_float) :
  canon0 prec lo hi x ->
  exists z, SFtrunc x = Some z /\
            (inject_Z z <= value x)%Q /\ (value x < inject_Z z + 1)%Q.
Proof.
  intros [-> | H].
  - exists 0. split; [reflexivity | ]. cbn [value].
    change (inject_Z 0) with 0%Q. split; lra.
  - destruct (int_of_float_value _ _ _ _ H) as (z & _ & Hz & H1 & H2).
    exists z. repeat split; assumption.
Qed.

(** The last blend factor of a fade is exactly 1. *)
Lemma alpha_last (C : Z) :
  0 < C -> Slideshow.alpha_of C (C - 1) = float_of_int 1.
Proof.
  intros HC. unfold Slideshow.alpha_of.
  replace (C - 1 + 1) with C by lia. replace (Z.max 1 C) with C by lia.
  destruct C as [ | p | p]; try lia. cbn [unrounded].
  unfold SFdiv, SFdiv_core_binary. cbn [xorb].
  replace (Zdigits2 (Z.pos p) + 0 - (Zdigits2 (Z.pos p) + 0)) with 0 by lia.
  change (Z.min (fexp 53 1024 0) (0 - 0)) with (-53).
  change (0 - 0 - -53) with 53.
  cbv iota beta.
  rewrite Z.shiftl_mul_pow2 by lia.
  pose proof (Z_div_mod (Z.pos p * 2 ^ 53) (Z.pos p) ltac:(lia)) as Hdm.
  destruct (Z.div_eucl (Z.pos p * 2 ^ 53) (Z.pos p)) as [q r].
  destruct Hdm as [Hq Hr].
  assert (Hq' : q = 2 ^ 53 /\ r = 0).
  { remember (2 ^ 53) as K eqn:EK. clear EK.
    destruct (Z.lt_trichotomy q K) as [Hlt | [Heq | Hgt]].
    - exfalso. assert (Z.pos p * (q + 1) <= Z.pos p * K)
        by (apply Z.mul_le_mono_nonneg_l; lia). lia.
    - subst q. split; [reflexivity | lia].
    - exfalso. assert (Z.pos p * (K + 1) <= Z.pos p * q)
        by (apply Z.mul_le_mono_nonneg_l; lia). lia. }
  destruct Hq' as [-> ->].
  assert (Hloc : new_location (Z.pos p) 0 = loc_Exact).
  { unfold new_location, new_location_even, new_location_odd.
    destruct (Z.even (Z.pos p)); reflexivity. }
  rewrite Hloc. vm_compute. reflexivity.
Qed.


Lemma close53 (v : Q) (x : spec_float) :
  close 53 v x ->
  (value x * (1 - u52) <= v /\ v <= value x * (1 + u52))%Q.
Proof. intros H. exact H. Qed.


End ValueFacts.

(* ===================================================================== *)
(** * The frame compositor                                               *)
(* ===================================================================== *)

Module FrameFacts.
Import Rounding FloatFacts RationalFacts ValueFacts.

Lemma sf_eqb_eq (x y : spec_float) : sf_eqb x y = true -> x = y.
Proof.
  destruct x as [a | a | | a m e], y as [b | b | | b n f]; simpl;
    try discriminate; try reflexivity.
  - intros H. apply Bool.eqb_prop in H. congruence.
  - intros H. apply Bool.eqb_prop in H. congruence.
  - intros H. apply andb_prop in H as [H He]. apply andb_prop in H as [Hs Hm].
    apply Bool.eqb_prop in Hs. apply Pos.eqb_eq in Hm. apply Z.eqb_eq in He.
    congruence.
Qed.

Lemma range_forall (n : Z) (P : Z -> bool) :
  forallb P (range n) = true -> forall a, 0 <= a < n -> P a = true.
Proof.
  intros H a Ha. rewrite forallb_forall in H. apply H.
  unfold range. apply in_map_iff. exists (Z.to_nat a). split; [lia | ].
  apply in_seq. lia.
Qed.

(** What the narrowing keeps is the integer part. *)
Lemma SFtrunc_Qtrunc (x : spec_float) (z : Z) :
  SFtrunc x = Some z -> z = Qtrunc (Q_of_float x).
Proof.
  destruct x as [s | s | | s m e]; simpl; try discriminate.
  - intros [= <-]. reflexivity.
  - intros [= <-]. unfold Qtrunc.
    destruct e as [ | p | p]; destruct s; cbn [Qnum Qopp Qfloor Qden inject_Z].
    + rewrite Z.pow_0_r, Z.mul_1_r. cbn. rewrite Z.div_1_r. reflexivity.
    + rewrite Z.pow_0_r, Z.mul_1_r. cbn. rewrite Z.div_1_r. reflexivity.
    + assert (Hp : 0 < Z.pos m * 2 ^ Z.pos p).
      { apply Z.mul_pos_pos; [lia | apply Z.pow_pos_nonneg; lia]. }
      replace (- (Z.pos m * 2 ^ Z.pos p) <? 0) with true
        by (symmetry; apply Z.ltb_lt; lia).
      rewrite Z.opp_involutive, Z.div_1_r. reflexivity.
    + assert (Hp : 0 < Z.pos m * 2 ^ Z.pos p).
      { apply Z.mul_pos_pos; [lia | apply Z.pow_pos_nonneg; lia]. }
      replace (Z.pos m * 2 ^ Z.pos p <? 0) with false
        by (symmetry; apply Z.ltb_ge; lia).
      rewrite Z.div_1_r. reflexivity.
    + cbn. rewrite Pos2Z.inj_pow. reflexivity.
    + cbn. rewrite Pos2Z.inj_pow. reflexivity.
Qed.

(** The facts about one byte that the end points of the blend need, checked
    on all 256 bytes. *)
Lemma byte_f32_facts (a : Z) :
  0 <= a <= 255 ->
  SFmul 24 128 (f32_of_int a) (f32_of_float (float_of_int 1)) = f32_of_int a /\
  SFmul 24 128 (f32_of_int a) (f32_of_float (float_of_int 0)) = S754_zero false /\
  uint8_of_f32 (f32_of_int a) = a /\
  SFadd 24 128 (f32_of_int a) (S754_zero false) = f32_of_int a /\
  SFadd 24 128 (S754_zero false) (f32_of_int a) = f32_of_int a.
Proof.
  intros Ha.
  pose (check := fun a : Z =>
    (sf_eqb (SFmul 24 128 (f32_of_int a) (f32_of_float (float_of_int 1)))
            (f32_of_int a)
     && sf_eqb (SFmul 24 128 (f32_of_int a) (f32_of_float (float_of_int 0)))
               (S754_zero false)
     && (uint8_of_f32 (f32_of_int a) =? a)
     && sf_eqb (SFadd 24 128 (f32_of_int a) (S754_zero false)) (f32_of_int a)
     && sf_eqb (SFadd 24 128 (S754_zero false) (f32_of_int a)) (f32_of_int a))%bool).
  assert (Hall : forallb check (range 256) = true) by (vm_compute; reflexivity).
  pose proof (range_forall 256 check Hall a ltac:(lia)) as H.
  unfold check in H.
  repeat (apply andb_prop in H as [H ?]).
  repeat split; try (apply sf_eqb_eq; assumption).
  apply Z.eqb_eq. assumption.
Qed.

Lemma blend_px_zero (a b : Z) :
  0 <= a <= 255 -> 0 <= b <= 255 -> blend_px (float_of_int 0) a b = a.
Proof.
  intros Ha Hb.
  destruct (byte_f32_facts a Ha) as (Ha1 & _ & Ha3 & Ha4 & _).
  destruct (byte_f32_facts b Hb) as (_ & Hb0 & _).
  unfold blend_px, blend_f32.
  change (fsub (float_of_int 1) (float_of_int 0)) with (float_of_int 1).
  rewrite Ha1, Hb0, Ha4. exact Ha3.
Qed.

Lemma blend_px_one (a b : Z) :
  0 <= a <= 255 -> 0 <= b <= 255 -> blend_px (float_of_int 1) a b = b.
Proof.
  intros Ha Hb.
  destruct (byte_f32_facts a Ha) as (_ & Ha0 & _).
  destruct (byte_f32_facts b Hb) as (Hb1 & _ & Hb3 & _ & Hb5).
  unfold blend_px, blend_f32.
  change (fsub (float_of_int 1) (float_of_int 1)) with (float_of_int 0).
  rewrite Ha0, Hb1, Hb5. exact Hb3.
Qed.

Lemma zip_with_blend_left (alpha : float) (xs ys : list Z) :
  (forall a b, 0 <= a <= 255 -> 0 <= b <= 255 -> blend_px alpha a b = a) ->
  Forall (fun v => 0 <= v <= 255) xs -> Forall (fun v => 0 <= v <= 255) ys ->
  length xs = length ys ->
  zip_with (blend_px alpha) xs ys = xs.
Proof.
  intros Hpx Hxs. revert ys.
  induction Hxs as [ | x xs Hx Hxs IH]; intros ys Hys Hlen.
  - reflexivity.
  - destruct Hys as [ | y ys Hy Hys]; [discriminate | ].
    cbn [zip_with]. rewrite Hpx by assumption. f_equal.
    apply IH; [assumption | ]. simpl in Hlen. congruence.
Qed.

Lemma zip_with_blend_right (alpha : float) (xs ys : list Z) :
  (forall a b, 0 <= a <= 255 -> 0 <= b <= 255 -> blend_px alpha a b = b) ->
  Forall (fun v => 0 <= v <= 255) xs -> Forall (fun v => 0 <= v <= 255) ys ->
  length xs = length ys ->
  zip_with (blend_px alpha) xs ys = ys.
Proof.
  intros Hpx Hxs. revert ys.
  induction Hxs as [ | x xs Hx Hxs IH]; intros ys Hys Hlen.
  - destruct ys; [reflexivity | discriminate].
  - destruct Hys as [ | y ys Hy Hys]; [discriminate | ].
    cbn [zip_with]. rewrite Hpx by assumption. f_equal.
    apply IH; [assumption | ]. simpl in Hlen. congruence.
Qed.

Ltac of_Q' H :=
  change 0%Q with (inject_Z 0) in H;
  change 1%Q with (inject_Z 1) in H;
  change (-1)%Q with (inject_Z (-1)) in H;
  change 256%Q with (inject_Z 256) in H;
  change 1024%Q with (inject_Z 1024) in H;
  repeat first [rewrite <- inject_Z_mult in H | rewrite <- inject_Z_plus in H
               | rewrite <- inject_Z_sub in H];
  first [rewrite <- Zle_Qle in H | rewrite <- Zlt_Qlt in H].

Lemma close24 (v : Q) (x : spec_float) :
  close 24 v x ->
  (value x * (1 - u23) <= v /\ v <= value x * (1 + u23))%Q.
Proof. intros H. exact H. Qed.

(** One sample of a cross-fade frame that is not the last: the integer part
    of a value within [2^-10] of [a (1 - alpha) + b alpha], for
    [alpha = (f + 1) / C]. *)
Lemma blend_px_fade (C f a b : Z) :
  0 <= f -> f + 1 < C -> C < 2 ^ 31 -> 0 <= a <= 255 -> 0 <= b <= 255 ->
  let z := blend_px (Slideshow.alpha_of C f) a b in
  0 <= z <= 255 /\
  2 ^ 10 * (z * C) <= 2 ^ 10 * (a * (C - (f + 1)) + b * (f + 1)) + C /\
  2 ^ 10 * (a * (C - (f + 1)) + b * (f + 1)) < 2 ^ 10 * ((z + 1) * C) + C.
Proof.
  intros Hf HfC HC Ha Hb.
  (* the blend factor *)
  destruct (truediv_close (f + 1) 31 C 31 ltac:(lia) ltac:(lia) ltac:(lia)
              ltac:(lia)) as (al & Etd & Cal & Kal).
  assert (Eal : Slideshow.alpha_of C f = al).
  { destruct (truediv_near (f + 1) 31 C 31 ltac:(lia) ltac:(lia) ltac:(lia)
                ltac:(lia)) as (Etd' & _).
    unfold Slideshow.alpha_of. replace (Z.max 1 C) with C by lia.
    congruence. }
  rewrite Eal. clear Eal Etd.
  apply close53 in Kal. destruct Kal as [Kal1 Kal2].
  pose proof (canon_value_pos _ _ _ _ Cal) as Pal.
  assert (QF : (0 < inject_Z (f + 1))%Q) by (rewrite <- (Zlt_Qlt 0); lia).
  assert (QFC : (inject_Z (f + 1) + 1 <= inject_Z C)%Q).
  { change 1%Q with (inject_Z 1). rewrite <- inject_Z_plus, <- Zle_Qle. lia. }
  assert (QC : (inject_Z C <= 2147483648)%Q).
  { change 2147483648%Q with (inject_Z (2 ^ 31)). rewrite <- Zle_Qle. lia. }
  assert (QC0 : (0 < inject_Z C)%Q) by (rewrite <- (Zlt_Qlt 0); lia).
  assert (Eq : (inject_Z (f + 1) / inject_Z C * inject_Z C
                == inject_Z (f + 1))%Q) by (field; lra).
  pose proof (alpha_below_one _ _ _ _ QF QFC QC Eq Pal Kal1) as Hlt1.
  (* 1 - alpha *)
  destruct (float_of_int_exact 1 1 ltac:(lia) ltac:(lia)) as [C1 V1].
  assert (Hlt : (value al < value (float_of_int 1))%Q)
    by (rewrite V1; exact Hlt1).
  destruct (SFsub_close 53 1024 1 2 (-31) 33 _ _ ltac:(lia) C1 Cal Hlt
              ltac:(lia) ltac:(lia)) as [Cu Ku].
  change (SFsub 53 1024 (float_of_int 1) al)
    with (fsub (float_of_int 1) al) in *.
  apply close53 in Ku. destruct Ku as [Ku1 Ku2].
  rewrite V1 in Ku1, Ku2. change (inject_Z 1) with 1%Q in Ku1, Ku2.
  pose proof (canon_value_pos _ _ _ _ Cu) as Pu.
  (* the two float32 weights *)
  destruct (f32_of_float_close _ _ _ Cu ltac:(lia) ltac:(lia)) as [Cw0 Kw0].
  destruct (f32_of_float_close _ _ _ Cal ltac:(lia) ltac:(lia)) as [Cw1 Kw1].
  apply close24 in Kw0, Kw1.
  destruct Kw0 as [Kw01 Kw02]. destruct Kw1 as [Kw11 Kw12].
  pose proof (canon_value_pos _ _ _ _ Cw0) as Pw0.
  pose proof (canon_value_pos _ _ _ _ Cw1) as Pw1.
  (* the two products and their sum *)
  destruct (byte_times_weight a _ _ _ Ha Cw0 ltac:(lia) ltac:(lia))
    as [Cp0 Kp0].
  destruct (byte_times_weight b _ _ _ Hb Cw1 ltac:(lia) ltac:(lia))
    as [Cp1 Kp1].
  apply close24 in Kp0, Kp1.
  destruct Kp0 as [Kp01 Kp02]. destruct Kp1 as [Kp11 Kp12].
  pose proof (canon0_value_nonneg _ _ _ _ Cp0) as Pp0.
  pose proof (canon0_value_nonneg _ _ _ _ Cp1) as Pp1.
  destruct (SFadd_close0 _ _ _ _ _ _ Cp0 Cp1 ltac:(lia) ltac:(lia)
              ltac:(lia) ltac:(lia)) as [Cs Ks].
  apply close24 in Ks. destruct Ks as [Ks1 Ks2].
  pose proof (canon0_value_nonneg _ _ _ _ Cs) as Ps.
  destruct (SFtrunc_value0 _ _ _ _ Cs) as (z & Hz & Hz1 & Hz2).
  assert (QA0 : (0 <= inject_Z a)%Q) by (rewrite <- (Zle_Qle 0); lia).
  assert (QA1 : (inject_Z a <= 255)%Q).
  { change 255%Q with (inject_Z 255). rewrite <- Zle_Qle. lia. }
  assert (QB0 : (0 <= inject_Z b)%Q) by (rewrite <- (Zle_Qle 0); lia).
  assert (QB1 : (inject_Z b <= 255)%Q).
  { change 255%Q with (inject_Z 255). rewrite <- Zle_Qle. lia. }
  destruct (blend_arith _ _ _ _ _ _ _ _ _ _ _ _ _
              QF QFC QC Eq Pal Kal1 Kal2 Pu Ku1 Ku2 Pw0 Kw01 Kw02
              Pw1 Kw11 Kw12 QA0 QA1 QB0 QB1 Pp0 Kp01 Kp02 Pp1 Kp11 Kp12
              Ps Ks1 Ks2 Hz1 Hz2) as (R1 & R2 & R3 & R4).
  of_Q' R1. of_Q' R2. of_Q' R3. of_Q' R4.
  cbv zeta. unfold blend_px, uint8_of_f32, blend_f32. rewrite Hz.
  rewrite Z.mod_small by lia.
  split; [lia | ]. split; [exact R3 | exact R4].
Qed.

(** C3, as the code has it.  The cross-fade blend of two 8-bit frames of one
    shape computes each sample [a * (1 - alpha) + b * alpha] in float32 and
    narrows it to 8 bits by discarding the fractional part (truncation
    toward zero, not rounding).  At the blend factors of a fade,
    [alpha = (f + 1) / C] with [0 <= f < C < 2^31], every sample of the
    blended frame is a byte [z] with
    [v - 1 - 2^-10 < z <= v + 2^-10] for [v = a (1 - alpha) + b alpha]
    (stated after multiplication by [2^10 C]).  At [alpha = 0] the result
    is frame A, and at [alpha = 1], the factor of the last frame of every
    fade, it is frame B, exactly. *)
Theorem blend_truncates_with_exact_ends (A B : Frame) :
  bytes_ok A -> bytes_ok B ->
  fr_shape A = fr_shape B -> length (fr_data A) = length (fr_data B) ->
  blend A B (float_of_int 0) = A /\
  blend A B (float_of_int 1) = B /\
  (forall alpha a b z,
     SFtrunc (blend_f32 alpha a b) = Some z ->
     blend_px alpha a b = Qtrunc (Q_of_float (blend_f32 alpha a b)) mod 256) /\
  (forall C, 0 < C -> blend A B (Slideshow.alpha_of C (C - 1)) = B) /\
  (forall C f (i : nat) a b,
     0 <= f < C -> C < 2 ^ 31 ->
     fr_data A !! i = Some a -> fr_data B !! i = Some b ->
     exists z,
       fr_data (blend A B (Slideshow.alpha_of C f)) !! i = Some z /\
       0 <= z <= 255 /\
       2 ^ 10 * (z * C)
       <= 2 ^ 10 * (a * (C - (f + 1)) + b * (f + 1)) + C /\
       2 ^ 10 * (a * (C - (f + 1)) + b * (f + 1))
       < 2 ^ 10 * ((z + 1) * C) + C).
Proof.
  intros HA HB Hshape Hlen.
  assert (Hone : blend A B (float_of_int 1) = B).
  { unfold blend. rewrite (zip_with_blend_right _ _ _ blend_px_one HA HB Hlen).
    rewrite Hshape. destruct B; reflexivity. }
  split; [ | split; [exact Hone | split; [ | split]]].
  - unfold blend. rewrite (zip_with_blend_left _ _ _ blend_px_zero HA HB Hlen).
    destruct A; reflexivity.
  - intros alpha a b z Hz. unfold blend_px, uint8_of_f32. rewrite Hz.
    rewrite (SFtrunc_Qtrunc _ _ Hz). reflexivity.
  - intros C HC. rewrite (alpha_last C HC). exact Hone.
  - intros C f i a b Hf HC Hia Hib.
    pose proof (Forall_lookup_1 _ _ _ _ HA Hia) as Ha.
    pose proof (Forall_lookup_1 _ _ _ _ HB Hib) as Hb.
    cbv beta in Ha, Hb.
    exists (blend_px (Slideshow.alpha_of C f) a b). split.
    { unfold blend. cbn [fr_data]. rewrite lookup_zip_with, Hia, Hib.
      reflexivity. }
    destruct (Z.eq_dec (f + 1) C) as [Hlast | Hmid].
    + replace f with (C - 1) by lia.
      rewrite (alpha_last C ltac:(lia)), (blend_px_one a b Ha Hb).
      replace (C - 1 + 1) with C by lia.
      split; [exact Hb | ]. split; nia.
    + apply blend_px_fade; lia.
Qed.

Lemma blend_truncates_with_exact_ends_witness :
  blend Samples.dark Samples.light (float_of_int 0) = Samples.dark /\
  blend Samples.dark Samples.light (float_of_int 1) = Samples.light /\
  exists z,
    fr_data (blend Samples.dark Samples.light (Slideshow.alpha_of 4 1))
      !! 0%nat = Some z /\
    2 ^ 10 * (z * 4) <= 2 ^ 10 * (0 * (4 - (1 + 1)) + 255 * (1 + 1)) + 4 /\
    2 ^ 10 * (0 * (4 - (1 + 1)) + 255 * (1 + 1)) < 2 ^ 10 * ((z + 1) * 4) + 4.
Proof.
  destruct (blend_truncates_with_exact_ends Samples.dark Samples.light)
    as (H0 & H1 & _ & _ & Hfade).
  - unfold bytes_ok, Samples.dark. cbn [fr_data].
    repeat constructor; lia.
  - unfold bytes_ok, Samples.light. cbn [fr_data].
    repeat constructor; lia.
  - reflexivity.
  - reflexivity.
  - split; [exact H0 | ]. split; [exact H1 | ].
    destruct (Hfade 4 1 0%nat 0 255 ltac:(lia) ltac:(lia) eq_refl eq_refl)
      as (z & Hz & _ & Hlo & Hhi).
    exists z. split; [exact Hz | ]. split; [exact Hlo | exact Hhi].
Defined.

(** C3, as stated, fails: at blend factor 3/4 (third of four cross-fade
    steps) the samples 0 and 1 blend to 0.75, which the code narrows to 0
    where rounding gives 1.  Every float operation involved is exact. *)
Lemma blend_rounds_counterexample :
  Slideshow.alpha_of 4 2 = three_quarters /\
  Qeq (Q_of_float three_quarters) (Qmake 3 4) /\
  Qeq (Q_of_float (blend_f32 three_quarters 0 1)) (Qmake 3 4) /\
  blend_px three_quarters 0 1 = 0 /\
  spec_blend_px (Q_of_float three_quarters) 0 1 = 1.
Proof. vm_compute. repeat split; reflexivity. Qed.

End FrameFacts.

Module ZoomCropFacts.
Import FloatFacts ValueFacts.





End ZoomCropFacts.

(* ===================================================================== *)
(** * The render sequencer                                               *)
(* ===================================================================== *)

Module EffFacts.

Lemma bind_ret {S A B : Type} (m : M S A) (k : A -> M S B) (s s1 : S) (a : A) :
  m s = (Ret a, s1) -> (m ≫= k) s = k a s1.
Proof. intros H. unfold mbind, M_bind, mbind_M. rewrite H. reflexivity. Qed.

Lemma bind_raise {S A B : Type} (m : M S A) (k : A -> M S B) (s s1 : S)
    (e : string) :
  m s = (Raise e, s1) -> (m ≫= k) s = (Raise e, s1).
Proof. intros H. unfold mbind, M_bind, mbind_M. rewrite H. reflexivity. Qed.

Lemma lift_ret {S A : Type} (o : outcome A) (a : A) (s : S) :
  o = Ret a -> lift o s = (Ret a, s).
Proof. intros ->. reflexivity. Qed.

End EffFacts.

Module RenderFacts.
Import Slideshow FloatFacts EffFacts.

Lemma advances_refl (s : state) : advances s s [] 0.
Proof.
  split; try reflexivity.
  - rewrite app_nil_r. reflexivity.
  - lia.
  - exists []. rewrite app_nil_r. split; [reflexivity | constructor].
Qed.

Lemma advances_trans (s1 s2 s3 : state) (f1 f2 : list Frame) (k1 k2 : Z) :
  advances s1 s2 f1 k1 -> advances s2 s3 f2 k2 ->
  advances s1 s3 (f1 ++ f2) (k1 + k2).
Proof.
  intros [A1 A2 A3 A4 (e1 & A5 & A6)] [B1 B2 B3 B4 (e2 & B5 & B6)].
  split.
  - congruence.
  - congruence.
  - rewrite B3, A3, app_assoc. reflexivity.
  - lia.
  - exists (e1 ++ e2). split.
    + rewrite B5, A5, app_assoc. reflexivity.
    + apply Forall_app. split; assumption.
Qed.

(** The bookkeeping after a write never fails below the frame limit. *)
Lemma count_frame_advances (fps total_frames : Z) (s : state) :
  0 < total_frames < frame_limit ->
  0 <= frames_written s -> frames_written s + 1 < frame_limit ->
  exists s', count_frame fps total_frames s = (Ret tt, s') /\
             advances s s' [] 1.
Proof.
  intros Ht H0 Hlim. unfold count_frame.
  unfold mbind, M_bind, mbind_M, add_frames_written, get_frames_written.
  cbn [frames_written].
  destruct ((((frames_written s + 1) mod Z.max 1 (fps / 2) =? 0)
             || (frames_written s + 1 =? total_frames))%bool).
  - destruct (percent_defined (frames_written s + 1) total_frames
                ltac:(unfold frame_limit in *; lia)
                ltac:(unfold frame_limit in *; lia)) as (p & Hp).
    rewrite Hp. cbn.
    eexists. split; [reflexivity | ].
    split; cbn; try reflexivity.
    + rewrite app_nil_r. reflexivity.
    + eexists. split; [reflexivity | ]. repeat constructor.
  - eexists. split; [reflexivity | ].
    split; cbn; try reflexivity.
    + rewrite app_nil_r. reflexivity.
    + exists []. rewrite app_nil_r. split; [reflexivity | constructor].
Qed.

Lemma write_and_count (f : Frame) (fps total_frames : Z) (s : state) :
  0 < total_frames < frame_limit ->
  0 <= frames_written s -> frames_written s + 1 < frame_limit ->
  exists s', (writer_write f ;; count_frame fps total_frames) s = (Ret tt, s')
             /\ advances s s' [f] 1.
Proof.
  intros Ht H0 Hlim.
  set (s1 := MkState (fs s) (events s) (written s ++ [f]) (frames_written s)
                     (tmp_dir s)).
  destruct (count_frame_advances fps total_frames s1 Ht H0 Hlim)
    as (s' & Hrun & Hadv).
  exists s'. split.
  - rewrite (bind_ret _ _ s s1 tt) by reflexivity. exact Hrun.
  - replace [f] with ([f] ++ []) by reflexivity.
    replace 1 with (0 + 1) by lia.
    apply (advances_trans s s1 s'); [ | exact Hadv].
    split; try reflexivity.
    + cbn. lia.
    + exists []. rewrite app_nil_r. split; [reflexivity | constructor].
Qed.

(** A loop whose every iteration writes one frame. *)
Lemma for_each_writes {A : Type} (body : A -> job unit) (g : A -> Frame)
    (xs : list A) : forall s,
  (forall x s0, In x xs ->
     0 <= frames_written s0 -> frames_written s0 + 1 < frame_limit ->
     exists s1, body x s0 = (Ret tt, s1) /\ advances s0 s1 [g x] 1) ->
  0 <= frames_written s ->
  frames_written s + Z.of_nat (length xs) < frame_limit ->
  exists s', for_each xs body s = (Ret tt, s') /\
             advances s s' (map g xs) (Z.of_nat (length xs)).
Proof.
  induction xs as [ | x xs IH]; intros s Hbody H0 Hlim.
  - exists s. split; [reflexivity | apply advances_refl].
  - cbn [length] in Hlim.
    destruct (Hbody x s (or_introl eq_refl) H0 ltac:(lia))
      as (s1 & Hrun1 & Hadv1).
    destruct (IH s1 (fun y s0 Hy => Hbody y s0 (or_intror Hy)))
      as (s' & Hrun & Hadv).
    + rewrite (adv_counter _ _ _ _ Hadv1). lia.
    + rewrite (adv_counter _ _ _ _ Hadv1). lia.
    + exists s'. split.
      * cbn [for_each]. rewrite (bind_ret _ _ s s1 tt) by exact Hrun1.
        exact Hrun.
      * replace (Z.of_nat (length (x :: xs)))
          with (1 + Z.of_nat (length xs)) by (cbn [length]; lia).
        change (map g (x :: xs)) with ([g x] ++ map g xs).
        apply (advances_trans s s1 s'); assumption.
Qed.

Lemma range_length (n : Z) : Z.of_nat (length (range n)) = Z.max 0 n.
Proof. unfold range. rewrite length_map, length_seq. lia. Qed.

Lemma stable_frames_nonneg (F C : Z) : 0 <= stable_frames_of F C.
Proof.
  unfold stable_frames_of. destruct (F - C <? 0) eqn:H; [lia | ].
  apply Z.ltb_ge in H. lia.
Qed.

Lemma item_frames_length (curr next : Frame) (F C : Z) :
  Z.of_nat (length (item_frames curr next F C)) = item_frame_count F C.
Proof.
  unfold item_frames, item_frame_count.
  rewrite length_app, Nat2Z.inj_add.
  rewrite (length_map _ (range (stable_frames_of F C))).
  rewrite (length_map _ (range C)).
  rewrite !range_length.
  pose proof (stable_frames_nonneg F C). lia.
Qed.

(** A readable item contributes its stable frames, then its cross-fade. *)
Lemma render_item_readable (E : env) (pil_images : list (option Image))
    (tw th F C fps : Z) (idx : nat) (pil_curr curr_fit : Image)
    (next_bgr : Frame) (s : state) :
  pil_images !! idx = Some (Some pil_curr) ->
  zoom_crop_and_resize (pil_resample E) pil_curr tw th = Ret curr_fit ->
  next_frame E pil_images tw th idx (to_bgr curr_fit) = Ret next_bgr ->
  0 < Z.of_nat (length pil_images) * F < frame_limit ->
  0 <= frames_written s ->
  frames_written s + item_frame_count F C < frame_limit ->
  exists s', render_item E pil_images tw th F C fps idx s = (Ret tt, s') /\
             advances s s' (item_frames (to_bgr curr_fit) next_bgr F C)
                      (item_frame_count F C).
Proof.
  intros Hidx Hfit Hnext Ht H0 Hlim.
  unfold render_item. rewrite Hidx.
  rewrite (bind_ret _ _ s s curr_fit) by (apply lift_ret; exact Hfit).
  rewrite (bind_ret _ _ s s next_bgr) by (apply lift_ret; exact Hnext).
  pose proof (stable_frames_nonneg F C) as Hst.
  unfold item_frame_count in Hlim.
  set (total_frames := Z.of_nat (length pil_images) * F) in *.
  destruct (for_each_writes
              (fun _ : Z => writer_write (to_bgr curr_fit) ;;
                            count_frame fps total_frames)
              (fun _ => to_bgr curr_fit)
              (range (stable_frames_of F C)) s) as (s1 & Hrun1 & Hadv1).
  { intros x s0 _ Hs0 Hs0'. apply write_and_count; assumption. }
  { assumption. }
  { rewrite range_length. lia. }
  destruct (for_each_writes
              (fun f : Z =>
                 alpha ← lift (truediv (f + 1) (Z.max 1 C));
                 writer_write (blend (to_bgr curr_fit) next_bgr alpha) ;;
                 count_frame fps total_frames)
              (fun f => blend (to_bgr curr_fit) next_bgr (alpha_of C f))
              (range C) s1) as (s2 & Hrun2 & Hadv2).
  { intros f s0 Hf Hs0 Hs0'.
    assert (Hrange : 0 <= f < C).
    { unfold range in Hf. apply in_map_iff in Hf.
      destruct Hf as (k & <- & Hk). apply in_seq in Hk. lia. }
    assert (Htd : truediv (f + 1) (Z.max 1 C) = Ret (alpha_of C f)).
    { assert (HC : C < 2 ^ 384) by (unfold frame_limit in Hlim; lia).
      apply (truediv_near (f + 1) 384 (Z.max 1 C) 384); lia. }
    rewrite (bind_ret _ _ s0 s0 (alpha_of C f)) by (apply lift_ret; exact Htd).
    apply write_and_count; assumption. }
  { rewrite (adv_counter _ _ _ _ Hadv1), range_length. lia. }
  { rewrite (adv_counter _ _ _ _ Hadv1), !range_length. lia. }
  exists s2. split.
  - rewrite (bind_ret _ _ s s1 tt) by exact Hrun1. exact Hrun2.
  - rewrite !range_length in *. unfold item_frames, item_frame_count.
    rewrite (Z.max_r 0 (stable_frames_of F C)) in Hadv1 by lia.
    apply (advances_trans s s1 s2); assumption.
Qed.

(** An unreadable item advances the counter and writes nothing. *)
Lemma render_item_unreadable (E : env) (pil_images : list (option Image))
    (tw th F C fps : Z) (idx : nat) (s : state) :
  pil_images !! idx = Some None ->
  0 < Z.of_nat (length pil_images) * F < frame_limit ->
  0 <= frames_written s + F < frame_limit ->
  exists s', render_item E pil_images tw th F C fps idx s = (Ret tt, s') /\
             advances s s' [] F.
Proof.
  intros Hidx Ht Hlim.
  unfold render_item. rewrite Hidx.
  unfold mbind, M_bind, mbind_M, add_frames_written, get_frames_written.
  cbn [frames_written].
  destruct (percent_defined (frames_written s + F)
              (Z.of_nat (length pil_images) * F)
              ltac:(unfold frame_limit in *; lia)
              ltac:(unfold frame_limit in *; lia)) as (p & Hp).
  rewrite Hp. cbn.
  eexists. split; [reflexivity | ].
  split; cbn; try reflexivity.
  - rewrite app_nil_r. reflexivity.
  - eexists. split; [reflexivity | ]. repeat constructor.
Qed.

Lemma zoom_crop_returns
    (resample : resampling -> Image -> Z -> Z -> Z -> Z -> rgb)
    (pil_img : Image) (tw th : Z) :
  image_ok pil_img -> 0 < tw < 2 ^ 31 -> 0 < th < 2 ^ 31 ->
  exists out, zoom_crop_and_resize resample pil_img tw th = Ret out /\
              img_size out = (tw, th).
Proof.
  intros [Hiw Hih] Htw Hth.
  destruct (crop_geometry_defined _ _ tw th Hiw Hih Htw Hth)
    as (tr & sr & nw & nh & _ & _ & _ & _ & Hbox).
  unfold zoom_crop_and_resize.
  destruct (img_size pil_img) as [w h]. cbn [fst snd] in Hbox.
  assert (Hgeo : exists box, crop_geometry w h tw th = Ret box).
  { destruct (fgt sr tr); destruct Hbox as (_ & _ & ->); eexists; reflexivity. }
  destruct Hgeo as ([[[l t] cw] ch] & ->). cbn [mbind outcome_bind obind].
  unfold resize.
  replace ((tw <? 1) || (th <? 1))%bool with false
    by (symmetry; apply orb_false_intro; apply Z.ltb_ge; lia).
  eexists. split; reflexivity.
Qed.

Lemma to_bgr_shape (im : Image) (w h : Z) :
  img_size im = (w, h) -> fr_shape (to_bgr im) = (h, w).
Proof. intros H. unfold to_bgr. rewrite H. reflexivity. Qed.

Lemma catalog_ok_lookup (pil_images : list (option Image)) (i : nat)
    (im : Image) :
  catalog_ok pil_images -> pil_images !! i = Some (Some im) -> image_ok im.
Proof.
  intros Hok Hi. unfold catalog_ok in Hok. rewrite Forall_lookup in Hok.
  exact (Hok i (Some im) Hi).
Qed.

Lemma next_frame_defined (E : env) (pil_images : list (option Image))
    (tw th : Z) (idx : nat) (curr_bgr : Frame) :
  catalog_ok pil_images -> 0 < tw < 2 ^ 31 -> 0 < th < 2 ^ 31 ->
  exists next_bgr, next_frame E pil_images tw th idx curr_bgr = Ret next_bgr.
Proof.
  intros Hok Htw Hth. unfold next_frame.
  destruct (pil_images !! (idx + 1)%nat) as [[pil_next | ] | ] eqn:Hn.
  - destruct (zoom_crop_returns (pil_resample E) pil_next tw th
                (catalog_ok_lookup _ _ _ Hok Hn) Htw Hth) as (out & -> & _).
    eexists. reflexivity.
  - eexists. reflexivity.
  - eexists. reflexivity.
Qed.

Lemma item_frame_count_ge (F C : Z) : F <= item_frame_count F C.
Proof.
  unfold item_frame_count, stable_frames_of.
  destruct (F - C <? 0) eqn:H.
  - apply Z.ltb_lt in H. lia.
  - apply Z.ltb_ge in H. lia.
Qed.

Lemma readable_cons_some (im : Image) (l : list (option Image)) :
  readable (Some im :: l) = 1 + readable l.
Proof. unfold readable. cbn [List.filter length]. lia. Qed.

Lemma readable_cons_none (l : list (option Image)) :
  readable (None :: l) = readable l.
Proof. reflexivity. Qed.

Lemma readable_bounds (l : list (option Image)) :
  0 <= readable l <= Z.of_nat (length l).
Proof.
  unfold readable. pose proof (filter_length_le (fun o : option Image =>
    match o with Some _ => true | None => false end) l). lia.
Qed.

(** The rendering loop from item [start] on. *)
Lemma render_from (E : env) (pil_images : list (option Image))
    (tw th F C fps : Z) :
  catalog_ok pil_images -> 0 < tw < 2 ^ 31 -> 0 < th < 2 ^ 31 ->
  1 <= F -> Z.of_nat (length pil_images) * F < frame_limit ->
  forall (n start : nat) (s : state),
    (start + n)%nat = length pil_images ->
    0 <= frames_written s ->
    frames_written s + Z.of_nat n * item_frame_count F C < frame_limit ->
    exists s' frames,
      for_each (seq start n) (render_item E pil_images tw th F C fps) s
      = (Ret tt, s') /\
      advances s s' frames
        (readable (drop start pil_images) * item_frame_count F C
         + (Z.of_nat n - readable (drop start pil_images)) * F) /\
      Z.of_nat (length frames)
      = readable (drop start pil_images) * item_frame_count F C.
Proof.
  intros Hok Htw Hth HF Htot.
  pose proof (item_frame_count_ge F C) as HP.
  induction n as [ | n IH]; intros start s Hlen H0 Hlim.
  - exists s, []. rewrite drop_ge by lia. cbn [seq for_each].
    change (readable []) with 0.
    split; [reflexivity | ]. split; [ | reflexivity].
    replace (0 * item_frame_count F C + (Z.of_nat 0 - 0) * F) with 0 by lia.
    apply advances_refl.
  - assert (Hlt : (start < length pil_images)%nat) by lia.
    destruct (lookup_lt_is_Some_2 pil_images start Hlt) as [x Hx].
    rewrite (drop_S _ _ _ Hx).
    assert (Htot' : 0 < Z.of_nat (length pil_images) * F < frame_limit) by nia.
    pose proof (readable_bounds (drop (S start) pil_images)) as HR.
    rewrite length_drop in HR.
    cbn [seq for_each].
    destruct x as [pil_curr | ].
    + destruct (zoom_crop_returns (pil_resample E) pil_curr tw th
                  (catalog_ok_lookup _ _ _ Hok Hx) Htw Hth)
        as (curr_fit & Hfit & _).
      destruct (next_frame_defined E pil_images tw th start (to_bgr curr_fit)
                  Hok Htw Hth) as (next_bgr & Hnext).
      destruct (render_item_readable E pil_images tw th F C fps start pil_curr
                  curr_fit next_bgr s Hx Hfit Hnext Htot' H0 ltac:(nia))
        as (s1 & Hrun1 & Hadv1).
      destruct (IH (S start) s1 ltac:(lia)) as (s' & frames & Hrun & Hadv & Hfl).
      * rewrite (adv_counter _ _ _ _ Hadv1). lia.
      * rewrite (adv_counter _ _ _ _ Hadv1). nia.
      * exists s', (item_frames (to_bgr curr_fit) next_bgr F C ++ frames).
        split; [ | split].
        -- rewrite (bind_ret _ _ s s1 tt) by exact Hrun1. exact Hrun.
        -- rewrite readable_cons_some.
           match goal with
           | |- advances _ _ _ ?k =>
               replace k with
                 (item_frame_count F C
                  + (readable (drop (S start) pil_images) * item_frame_count F C
                     + (Z.of_nat n - readable (drop (S start) pil_images)) * F))
                 by lia
           end.
           apply (advances_trans s s1 s'); assumption.
        -- rewrite length_app, Nat2Z.inj_add, item_frames_length, Hfl.
           rewrite readable_cons_some. lia.
    + destruct (render_item_unreadable E pil_images tw th F C fps start s Hx
                  Htot' ltac:(nia)) as (s1 & Hrun1 & Hadv1).
      destruct (IH (S start) s1 ltac:(lia)) as (s' & frames & Hrun & Hadv & Hfl).
      * rewrite (adv_counter _ _ _ _ Hadv1). lia.
      * rewrite (adv_counter _ _ _ _ Hadv1). nia.
      * exists s', frames. split; [ | split].
        -- rewrite (bind_ret _ _ s s1 tt) by exact Hrun1. exact Hrun.
        -- rewrite readable_cons_none.
           match goal with
           | |- advances _ _ _ ?k =>
               replace k with
                 (F + (readable (drop (S start) pil_images) * item_frame_count F C
                       + (Z.of_nat n - readable (drop (S start) pil_images)) * F))
                 by lia
           end.
           change frames with ([] ++ frames).
           apply (advances_trans s s1 s'); assumption.
        -- rewrite readable_cons_none. exact Hfl.
Qed.

(** C1, as the code has it.  For a catalog of N items, F frames per item
    and a cross-fade of C <= F frames, the frame counter ends N * F higher,
    however many items failed to decode; the frames actually written to the
    video are F for each readable item only: an unreadable item advances
    the counter by F and writes nothing. *)
Theorem render_frames_counter_and_output (E : env)
    (pil_images : list (option Image)) (tw th duration_sec fps C : Z)
    (s : state) :
  let F := frames_per_image_of duration_sec fps in
  let N := Z.of_nat (length pil_images) in
  catalog_ok pil_images -> 0 < tw < 2 ^ 31 -> 0 < th < 2 ^ 31 ->
  0 <= C <= F ->
  0 <= frames_written s -> frames_written s + N * F < frame_limit ->
  exists s',
    render_frames E pil_images tw th F C fps s = (Ret tt, s') /\
    frames_written s' = frames_written s + N * F /\
    Z.of_nat (length (written s'))
    = Z.of_nat (length (written s)) + readable pil_images * F.
Proof.
  intros F N Hok Htw Hth HC H0 Hlim.
  assert (HF : 1 <= F) by (unfold F, frames_per_image_of; lia).
  assert (HP : item_frame_count F C = F).
  { unfold item_frame_count, stable_frames_of.
    replace (F - C <? 0) with false by (symmetry; apply Z.ltb_ge; lia). lia. }
  destruct (render_from E pil_images tw th F C fps Hok Htw Hth HF
              ltac:(fold N; lia) (length pil_images) 0%nat s
              ltac:(reflexivity) H0 ltac:(rewrite HP; fold N; lia))
    as (s' & frames & Hrun & Hadv & Hfl).
  rewrite drop_0, HP in Hadv, Hfl.
  exists s'. split; [exact Hrun | ]. split.
  - rewrite (adv_counter _ _ _ _ Hadv). fold N. lia.
  - rewrite (adv_written _ _ _ _ Hadv), length_app, Nat2Z.inj_add, Hfl.
    reflexivity.
Qed.

Lemma render_frames_counter_and_output_witness :
  exists s',
    render_frames Samples.studio Samples.two_items 2 2
      (frames_per_image_of 1 2) 1 2 (initial_state ∅) = (Ret tt, s') /\
    frames_written s' = 4 /\ Z.of_nat (length (written s')) = 2.
Proof.
  destruct (render_frames_counter_and_output Samples.studio Samples.two_items
              2 2 1 2 1 (initial_state ∅)) as (s' & Hrun & Hc & Hw).
  - unfold Samples.two_items, catalog_ok.
    repeat constructor; unfold image_ok; cbn; lia.
  - lia.
  - lia.
  - unfold frames_per_image_of. lia.
  - cbn. lia.
  - vm_compute. reflexivity.
  - exists s'. split; [exact Hrun | ]. split; [exact Hc | exact Hw].
Defined.

(** C1, as stated, fails: with two items of which the second does not
    decode, F = 2 and C = 1, the counter reaches N * F = 4 but only 2 frames
    are emitted. *)
Lemma unreadable_item_shortens_output_counterexample :
  let run := render_frames Samples.studio Samples.two_items 2 2
               (frames_per_image_of 1 2) 1 2 (initial_state ∅) in
  fst run = Ret tt /\
  frames_written (snd run) = 2 * frames_per_image_of 1 2 /\
  Z.of_nat (length (written (snd run))) = 2 /\
  Z.of_nat (length (written (snd run))) <> 2 * frames_per_image_of 1 2.
Proof. vm_compute. repeat split; try reflexivity. discriminate. Qed.

(** C6.  When the cross-fade is longer than an item (C > F) the stable
    count is clamped to zero and the job goes on: the loop returns without
    raising, each readable item writes exactly its C cross-fade frames, and
    each unreadable one advances the counter by F. *)
Theorem long_crossfade_clamps_stable_frames (E : env)
    (pil_images : list (option Image)) (tw th duration_sec fps C : Z)
    (s : state) :
  let F := frames_per_image_of duration_sec fps in
  let N := Z.of_nat (length pil_images) in
  catalog_ok pil_images -> 0 < tw < 2 ^ 31 -> 0 < th < 2 ^ 31 ->
  F < C ->
  0 <= frames_written s -> frames_written s + N * C < frame_limit ->
  stable_frames_of F C = 0 /\
  (forall curr next, Z.of_nat (length (item_frames curr next F C)) = C) /\
  exists s',
    render_frames E pil_images tw th F C fps s = (Ret tt, s') /\
    Z.of_nat (length (written s'))
    = Z.of_nat (length (written s)) + readable pil_images * C /\
    frames_written s'
    = frames_written s + readable pil_images * C
      + (N - readable pil_images) * F.
Proof.
  intros F N Hok Htw Hth HC H0 Hlim.
  assert (HF : 1 <= F) by (unfold F, frames_per_image_of; lia).
  assert (Hst : stable_frames_of F C = 0).
  { unfold stable_frames_of.
    replace (F - C <? 0) with true by (symmetry; apply Z.ltb_lt; lia).
    reflexivity. }
  assert (HP : item_frame_count F C = C).
  { unfold item_frame_count. rewrite Hst. lia. }
  split; [exact Hst | ]. split.
  { intros curr next. rewrite item_frames_length. exact HP. }
  destruct (render_from E pil_images tw th F C fps Hok Htw Hth HF
              ltac:(fold N; nia) (length pil_images) 0%nat s
              ltac:(reflexivity) H0 ltac:(rewrite HP; fold N; lia))
    as (s' & frames & Hrun & Hadv & Hfl).
  rewrite drop_0, HP in Hadv, Hfl.
  exists s'. split; [exact Hrun | ]. split.
  - rewrite (adv_written _ _ _ _ Hadv), length_app, Nat2Z.inj_add, Hfl.
    reflexivity.
  - rewrite (adv_counter _ _ _ _ Hadv). fold N. lia.
Qed.

Lemma long_crossfade_clamps_stable_frames_witness :
  stable_frames_of (frames_per_image_of 1 2) 5 = 0 /\
  exists s',
    render_frames Samples.studio Samples.two_items 2 2
      (frames_per_image_of 1 2) 5 2 (initial_state ∅) = (Ret tt, s') /\
    Z.of_nat (length (written s')) = 5.
Proof.
  destruct (long_crossfade_clamps_stable_frames Samples.studio
              Samples.two_items 2 2 1 2 5 (initial_state ∅))
    as (Hst & _ & s' & Hrun & Hw & _).
  - unfold Samples.two_items, catalog_ok.
    repeat constructor; unfold image_ok; cbn; lia.
  - lia.
  - lia.
  - unfold frames_per_image_of. lia.
  - cbn. lia.
  - vm_compute. reflexivity.
  - split; [exact Hst | ]. exists s'. split; [exact Hrun | exact Hw].
Defined.

Lemma zeros_like_black (f : Frame) : is_black (zeros_like f).
Proof.
  unfold is_black, zeros_like. cbn [fr_data].
  induction (fr_data f) as [ | v l IH]; constructor; [reflexivity | exact IH].
Qed.

(** C9.  When item [idx] decoded and item [idx + 1] exists but did not, the
    cross-fade of item [idx] goes to a black frame of the shape of the
    current frame: the very frame used when [idx] is the last item, and the
    same whatever items follow. *)
Theorem crossfade_before_unreadable_goes_black (E : env)
    (pil_images : list (option Image)) (tw th F C fps : Z) (idx : nat)
    (pil_curr : Image) (s : state) :
  pil_images !! idx = Some (Some pil_curr) ->
  pil_images !! (idx + 1)%nat = Some None ->
  image_ok pil_curr -> 0 < tw < 2 ^ 31 -> 0 < th < 2 ^ 31 ->
  0 < Z.of_nat (length pil_images) * F < frame_limit ->
  0 <= frames_written s ->
  frames_written s + item_frame_count F C < frame_limit ->
  exists curr_fit s',
    zoom_crop_and_resize (pil_resample E) pil_curr tw th = Ret curr_fit /\
    let curr_bgr := to_bgr curr_fit in
    let black := zeros_like curr_bgr in
    next_frame E pil_images tw th idx curr_bgr = Ret black /\
    next_frame E (take (idx + 1) pil_images) tw th idx curr_bgr = Ret black /\
    (forall later,
       next_frame E (take (idx + 2) pil_images ++ later) tw th idx curr_bgr
       = Ret black) /\
    is_black black /\
    fr_shape black = fr_shape curr_bgr /\
    fr_shape curr_bgr = (th, tw) /\
    length (fr_data black) = length (fr_data curr_bgr) /\
    render_item E pil_images tw th F C fps idx s = (Ret tt, s') /\
    written s' = written s ++ item_frames curr_bgr black F C.
Proof.
  intros Hidx Hnext Himg Htw Hth Htot H0 Hlim.
  destruct (zoom_crop_returns (pil_resample E) pil_curr tw th Himg Htw Hth)
    as (curr_fit & Hfit & Hsize).
  assert (Hnf : next_frame E pil_images tw th idx (to_bgr curr_fit)
                = Ret (zeros_like (to_bgr curr_fit))).
  { unfold next_frame. rewrite Hnext. reflexivity. }
  destruct (render_item_readable E pil_images tw th F C fps idx pil_curr
              curr_fit _ s Hidx Hfit Hnf Htot H0 Hlim) as (s' & Hrun & Hadv).
  exists curr_fit, s'. split; [exact Hfit | ]. cbn zeta.
  split; [exact Hnf | ]. split.
  { unfold next_frame. rewrite lookup_take_ge by lia. reflexivity. }
  split.
  { intros later. unfold next_frame.
    assert (Hlt : (idx + 1 < length pil_images)%nat)
      by (apply lookup_lt_is_Some; eauto).
    rewrite lookup_app_l by (rewrite length_take; lia).
    rewrite lookup_take_lt by lia. rewrite Hnext. reflexivity. }
  split; [apply zeros_like_black | ].
  split; [reflexivity | ].
  split; [apply to_bgr_shape; exact Hsize | ].
  split; [unfold zeros_like; cbn [fr_data]; apply length_map | ].
  split; [exact Hrun | exact (adv_written _ _ _ _ Hadv)].
Qed.

Lemma crossfade_before_unreadable_goes_black_witness :
  exists curr_fit,
    zoom_crop_and_resize Samples.point_kernel (Samples.flat_image 100) 2 2
    = Ret curr_fit /\
    next_frame Samples.studio Samples.two_items 2 2 0 (to_bgr curr_fit)
    = Ret (zeros_like (to_bgr curr_fit)).
Proof.
  destruct (crossfade_before_unreadable_goes_black Samples.studio
              Samples.two_items 2 2 2 1 2 0 (Samples.flat_image 100)
              (initial_state ∅))
    as (curr_fit & s' & Hfit & Hnf & _).
  - reflexivity.
  - reflexivity.
  - unfold image_ok. cbn. lia.
  - lia.
  - lia.
  - vm_compute. split; reflexivity.
  - cbn. lia.
  - vm_compute. reflexivity.
  - exists curr_fit. split; [exact Hfit | exact Hnf].
Defined.

End RenderFacts.

(* ===================================================================== *)
(** * The slideshow job: start-up and encode fallback                    *)
(* ===================================================================== *)

Module JobFacts.
Import Slideshow.

(** C10.  Whatever the resolution setting, if the first image of the
    ordered sequence cannot be opened the job ends at once with
    [on_done(False, "Error during generation: ...")]: no progress is
    reported, no frame is written and no file is touched. *)
Theorem unreadable_first_image_fails_job (E : env)
    (folder output_path : string) (duration_sec fps : Z)
    (resolution : option (Z * Z)) (shuffle : bool) (crossfade_frames : Z)
    (bgm_path : option string) (trim_music : bool) (s : state)
    (names : list string) (first : string) (rest : list string) (e : string) :
  listdir E folder = Ret names ->
  ordered_images E shuffle names = first :: rest ->
  image_open E (path_join folder first) = Raise e ->
  tmp_dir s = None ->
  create_slideshow_thread E folder output_path duration_sec fps resolution
    shuffle crossfade_frames bgm_path trim_music s
  = (Ret tt,
     MkState (fs s)
             (events s ++ [Done false ("Error during generation: " +:+ e)])
             (written s) (frames_written s) None).
Proof.
  intros Hls Hord Hopen Htmp.
  unfold create_slideshow_thread, try_except, slideshow_body.
  unfold mbind at 1. unfold M_bind, mbind_M, lift. rewrite Hls.
  destruct (scan_images names) as [ | n0 ns] eqn:Hscan.
  { unfold ordered_images in Hord. rewrite Hscan in Hord. discriminate. }
  rewrite Hord.
  unfold mbind, M_bind, mbind_M, mret, M_ret, mret_M. rewrite Hopen.
  unfold get_tmp_dir, on_done, emit. rewrite Htmp. cbn. rewrite Htmp.
  reflexivity.
Qed.

Lemma unreadable_first_image_fails_job_witness :
  events (snd (create_slideshow_thread Samples.broken_first "pics"
                 "out/video.mp4" 1 30 (Some (1280, 720)) false 15 None true
                 (initial_state ∅)))
  = [Done false "Error during generation: cannot identify image file"] /\
  events (snd (create_slideshow_thread Samples.broken_first "pics"
                 "out/video.mp4" 1 30 None false 15 None true
                 (initial_state ∅)))
  = [Done false "Error during generation: cannot identify image file"].
Proof.
  split.
  - rewrite (unreadable_first_image_fails_job Samples.broken_first "pics"
               "out/video.mp4" 1 30 (Some (1280, 720)) false 15 None true
               (initial_state ∅) ["b.jpg"; "notes.txt"; "a.PNG"] "a.PNG"
               ["b.jpg"] "cannot identify image file");
      reflexivity.
  - rewrite (unreadable_first_image_fails_job Samples.broken_first "pics"
               "out/video.mp4" 1 30 None false 15 None true
               (initial_state ∅) ["b.jpg"; "notes.txt"; "a.PNG"] "a.PNG"
               ["b.jpg"] "cannot identify image file");
      reflexivity.
Defined.




(** The whole job on the sample folder: ffmpeg is missing, and the raw
    render of the one readable picture still lands at the output path. *)
Example sample_job_saves_raw_video :
  let run := create_slideshow_thread Samples.studio "pics" "out/video.mp4"
               1 2 (Some (2, 2)) false 1 None true (initial_state ∅) in
  fst run = Ret tt /\
  (exists frames, fs (snd run) !! "out/video.mp4" = Some (RawVideo frames)
                  /\ length frames = 2%nat) /\
  frames_written (snd run) = 4 /\
  last (events (snd run))
  = Some (Done true ("Saved raw video (ffmpeg failed). Video at: out/video.mp4"
                     +:+ newline +:+ "ffmpeg error:" +:+ newline
                     +:+ "ffmpeg: not found")).
Proof.
  vm_compute. repeat split; try reflexivity.
  eexists. split; reflexivity.
Qed.

End JobFacts.

(* ===================================================================== *)
(** * The filter descriptions of the portrait converter                  *)
(* ===================================================================== *)

Module FilterFacts.
Import Portrait.

Lemma append_assoc (a b c : string) : (a +:+ b) +:+ c = a +:+ (b +:+ c).
Proof.
  induction a as [ | ch a IH]; [reflexivity | ].
  change (String ch ((a +:+ b) +:+ c) = String ch (a +:+ (b +:+ c))).
  rewrite IH. reflexivity.
Qed.

Lemma append_empty_r (a : string) : a +:+ EmptyString = a.
Proof.
  induction a as [ | ch a IH]; [reflexivity | ].
  change (String ch (a +:+ EmptyString) = String ch a).
  rewrite IH. reflexivity.
Qed.

(** The letterbox string is the scale-then-pad chain. *)
Lemma build_letterbox_vf_chain (W H : Z) (hexcolor : string) :
  build_letterbox_vf W H hexcolor = show_chain (letterbox_chain W H hexcolor).
Proof.
  unfold build_letterbox_vf, letterbox_chain, show_chain, show_filter,
    show_size.
  change (str_of_int (- 2)) with "-2"%string.
  rewrite ?append_assoc, ?append_empty_r. cbn. rewrite ?append_assoc.
  reflexivity.
Qed.

Lemma build_zoom_vf_chain (W H : Z) (zoom : float) :
  build_zoom_vf W H zoom = show_chain (zoom_chain W H).
Proof.
  unfold build_zoom_vf, zoom_chain, show_chain, show_filter, show_size.
  change (str_of_int (- 2)) with "-2"%string.
  rewrite !append_assoc, ?append_empty_r. cbn. rewrite ?append_assoc.
  reflexivity.
Qed.

(** The scale stage of the letterbox chain: the width is bounded by the
    target, the height follows the aspect ratio, rounded to an even
    number. *)
Lemma letterbox_scale (W iw ih : Z) :
  0 < W -> 0 < iw ->
  scale_size (MinIw W) (Keep 2) None iw ih
  = if av_rescale (Z.min W iw) ih (iw * 2) * 2 <=? 0
    then Raise "Rescaled value for width or height is too big."
    else Ret (Z.min W iw, av_rescale (Z.min W iw) ih (iw * 2) * 2).
Proof.
  intros HW Hiw. unfold scale_size, eval_size.
  remember (Z.min W iw) as w eqn:Ew.
  assert (Hw : 0 < w) by lia.
  cbv zeta.
  change (- (2)) with (-2).
  change (-2 <? -1) with true. change (-2 <? 0) with true.
  replace (w <? -1) with false by (symmetry; apply Z.ltb_ge; lia).
  replace (w <? 0) with false by (symmetry; apply Z.ltb_ge; lia).
  cbn [andb]. cbv iota. cbv beta.
  replace (w <? 0) with false by (symmetry; apply Z.ltb_ge; lia).
  change (-2 <? 0) with true. change (- (-2)) with 2. cbv iota.
  replace (w <=? 0) with false by (symmetry; apply Z.leb_gt; lia).
  reflexivity.
Qed.

(** A source no wider than the target keeps its height (rounded up to an
    even number), so a source taller than the target cannot be padded. *)
Lemma letterbox_rejects_tall_sources (W H iw ih : Z) (hexcolor : string) :
  0 < iw <= W -> 0 < H < ih ->
  chain_size (letterbox_chain W H hexcolor) (iw, ih)
  = Raise "Padded dimensions cannot be smaller than input dimensions.".
Proof.
  intros Hiw Hih.
  unfold letterbox_chain. cbn [chain_size filter_size].
  rewrite letterbox_scale by lia.
  replace (Z.min W iw) with iw by lia.
  assert (Hh : av_rescale iw ih (iw * 2) = (ih + 1) / 2).
  { unfold av_rescale. rewrite Z.div_mul by lia.
    replace (iw * ih + iw) with (iw * (ih + 1)) by lia.
    apply Z.div_mul_cancel_l; lia. }
  rewrite Hh.
  assert (Hge : ih <= (ih + 1) / 2 * 2).
  { pose proof (Z.div_mod (ih + 1) 2 ltac:(lia)).
    pose proof (Z.mod_pos_bound (ih + 1) 2 ltac:(lia)). lia. }
  replace ((ih + 1) / 2 * 2 <=? 0) with false
    by (symmetry; apply Z.leb_gt; lia).
  cbn [mbind outcome_bind obind filter_size].
  replace ((W <? iw) || (H <? (ih + 1) / 2 * 2))%bool with true.
  2:{ symmetry. apply orb_true_intro. right. apply Z.ltb_lt. lia. }
  reflexivity.
Qed.

(** C7 fails on the code.  For a 1080 x 1920 portrait source and a
    1920 x 1080 target, the letterbox chain scales to 1080 x 1920 (the
    height is not bounded by the target), so the pad stage is refused and
    no 1920 x 1080 frame comes out; the foreground chain of the blur mode
    fits the same source. *)
Theorem letterbox_overflows_on_portrait_source :
  build_letterbox_vf 1920 1080 "#000000"
  = "scale='min(1920,iw)':-2,pad=1920:1080:(ow-iw)/2:(oh-ih)/2:0x000000"
  /\
  build_letterbox_vf 1920 1080 "#000000"
  = show_chain (letterbox_chain 1920 1080 "#000000") /\
  filter_size (Scale (MinIw 1920) (Keep 2) None) (1080, 1920)
  = Ret (1080, 1920) /\
  chain_size (letterbox_chain 1920 1080 "#000000") (1080, 1920)
  = Raise "Padded dimensions cannot be smaller than input dimensions." /\
  chain_size (blur_fg_chain 1920 1080) (1080, 1920) = Ret (1920, 1080).
Proof. vm_compute. repeat split; reflexivity. Qed.

End FilterFacts.

(* ===================================================================== *)
(** * The conversion worker: audio cascade and cancellation              *)
(* ===================================================================== *)

Module WorkerFacts.
Import Portrait FloatFacts EffFacts.

Lemma stage_run_refl (d : string) (s : state) : stage_run d s s.
Proof.
  split; [reflexivity | ]. exists []. rewrite app_nil_r.
  split; [reflexivity | constructor].
Qed.

Lemma stage_run_trans (d : string) (s1 s2 s3 : state) :
  stage_run d s1 s2 -> stage_run d s2 s3 -> stage_run d s1 s3.
Proof.
  intros [D1 (e1 & E1 & F1)] [D2 (e2 & E2 & F2)]. split; [congruence | ].
  exists (e1 ++ e2). split.
  - rewrite E2, E1, app_assoc. reflexivity.
  - apply Forall_app. split; assumption.
Qed.

Lemma runs_ret {A : Type} (d : string) (a : A) : runs d (mret a).
Proof. intros s. exists (Ret a), s. split; [reflexivity | apply stage_run_refl]. Qed.

Lemma runs_raise {A : Type} (d : string) (e : string) : runs d (@raise state A e).
Proof. intros s. exists (Raise e), s. split; [reflexivity | apply stage_run_refl]. Qed.

Lemma runs_lift {A : Type} (d : string) (o : outcome A) : runs d (lift o).
Proof. intros s. exists o, s. split; [reflexivity | apply stage_run_refl]. Qed.

Lemma runs_gets {A : Type} (d : string) (f : state -> A) : runs d (gets f).
Proof. intros s. exists (Ret (f s)), s. split; [reflexivity | apply stage_run_refl]. Qed.

Lemma runs_bind {A B : Type} (d : string) (m : job A) (k : A -> job B) :
  runs d m -> (forall a, runs d (k a)) -> runs d (m ≫= k).
Proof.
  intros Hm Hk s. destruct (Hm s) as (r & s1 & Hrun & Hst).
  destruct r as [a | e].
  - destruct (Hk a s1) as (r2 & s2 & Hrun2 & Hst2).
    exists r2, s2. split.
    + rewrite (bind_ret _ _ s s1 a) by exact Hrun. exact Hrun2.
    + apply (stage_run_trans d s s1 s2); assumption.
  - exists (Raise e), s1. split.
    + apply bind_raise. exact Hrun.
    + exact Hst.
Qed.

Lemma runs_emit (d : string) (e : event) : stage_event d e -> runs d (emit e).
Proof.
  intros He s. eexists _, _. split; [reflexivity | ].
  split; [reflexivity | ]. exists [e]. split; [reflexivity | ].
  constructor; [exact He | constructor].
Qed.

Lemma runs_log (d : string) (text : string) : runs d (log text).
Proof. apply runs_emit. exact I. Qed.

Lemma runs_set_fs (d : string) (f : gmap string artifact) : runs d (set_fs f).
Proof.
  intros s. eexists _, _. split; [reflexivity | ].
  split; [reflexivity | ]. exists []. cbn. rewrite app_nil_r.
  split; [reflexivity | constructor].
Qed.

Lemma runs_do_run (d : string) (E : env) (cmd : list string) :
  runs d (do_run E cmd).
Proof.
  unfold do_run. destruct (run_cmd E cmd) as [[ok out] err].
  apply runs_bind; [apply runs_emit; exact I | intros _].
  apply runs_bind; [ | intros _; apply runs_ret].
  destruct ok; [ | apply runs_ret].
  apply runs_bind; [apply runs_gets | intros f; apply runs_set_fs].
Qed.

Lemma runs_do_copy (d : string) (E : env) (src dst : string) :
  runs d (do_copy E src dst).
Proof.
  unfold do_copy.
  apply runs_bind; [apply runs_emit; exact I | intros _].
  destruct (copy_error E src dst); [apply runs_raise | ].
  apply runs_bind; [apply runs_gets | intros f].
  destruct (copy_file src dst f); [apply runs_set_fs | apply runs_raise].
Qed.

Lemma runs_do_rmtree (d : string) : runs d (do_rmtree d).
Proof.
  unfold do_rmtree.
  apply runs_bind; [apply runs_emit; reflexivity | intros _].
  apply runs_bind; [apply runs_gets | intros f; apply runs_set_fs].
Qed.

Lemma runs_audio_stage (d : string) (E : env) (G : gui)
    (tmp_video src outpath : string) :
  runs d (audio_stage E G tmp_video src outpath).
Proof.
  unfold audio_stage. destruct (truthy (bgm_path G)) as [bgm | ].
  - apply runs_bind; [apply runs_log | intros _].
    apply runs_bind; [apply runs_do_run | intros [[ok2 o2] e2]].
    destruct ok2; [apply runs_ret | ]. cbn [negb].
    apply runs_bind; [apply runs_log | intros _].
    apply runs_bind; [apply runs_do_run | intros [[okf o3] ef]].
    destruct okf; [apply runs_ret | ]. cbn [negb].
    apply runs_bind; [apply runs_log | intros _]. apply runs_do_copy.
  - apply runs_bind; [apply runs_do_run | intros [[ok2 o2] e2]].
    destruct ok2; [apply runs_ret | ]. cbn [negb].
    apply runs_bind; [apply runs_log | intros _]. apply runs_do_copy.
Qed.

Lemma runs_convert_steps (E : env) (G : gui) (W : Z)
    (vf src tmpdir tmp_video outpath : string) :
  runs tmpdir (convert_steps E G W vf src tmpdir tmp_video outpath).
Proof.
  unfold convert_steps.
  apply runs_bind; [apply runs_lift | intros cmdA].
  apply runs_bind; [apply runs_log | intros _].
  apply runs_bind; [apply runs_do_run | intros [[ok out] err]].
  destruct ok; cbn [negb].
  - apply runs_bind; [apply runs_audio_stage | intros _; apply runs_ret].
  - apply runs_bind; [apply runs_log | intros _].
    apply runs_bind; [apply runs_do_rmtree | intros _; apply runs_ret].
Qed.

(** One entry: its directory is created, the stages run, and the directory
    is removed, whatever happens in between. *)
Lemma convert_entry_spec (E : env) (G : gui) (outdir : string) (k : nat)
    (e : entry) (s : state) :
  exists b s' evs,
    convert_entry E G outdir k e s = (Ret b, s') /\
    done s' = done s /\
    events s' =
      events s ++
      Log ("Processing: " +:+ path e) :: Mkdtemp (mkdtemp E k) :: evs
      ++ [Rmtree (mkdtemp E k)] /\
    Forall (stage_event (mkdtemp E k)) evs.
Proof.
  unfold convert_entry. destruct (target_size (res_var G)) as [W H].
  set (d := mkdtemp E k).
  set (s1 := MkState (fs s)
                     ((events s ++ [Log ("Processing: " +:+ path e)])
                      ++ [Mkdtemp d]) (done s)).
  destruct (runs_convert_steps E G W (video_filter G W H) (path e) d
              (path_join d "video_only.mp4") (outpath_of outdir (path e)) s1)
    as (r & s2 & Hrun & Hd2 & evs2 & He2 & Hf2).
  rewrite (bind_ret _ _ s _ tt) by reflexivity.
  rewrite (bind_ret _ _ _ s1 tt) by reflexivity.
  rewrite (bind_ret _ _ s1 s2 r) by (unfold attempt; rewrite Hrun; reflexivity).
  destruct r as [b | ex].
  - rewrite (bind_ret _ _ s2 s2 b) by reflexivity.
    eexists b, _, evs2. split; [reflexivity | ]. cbn [done events].
    split; [exact Hd2 | ]. split; [ | exact Hf2].
    rewrite He2. unfold s1. cbn [events].
    rewrite <- !app_assoc. reflexivity.
  - eexists false, _,
      (evs2 ++ [Log ("Exception while converting " +:+ path e +:+ ": " +:+ ex);
                Rmtree d]).
    split; [reflexivity | ]. cbn [done events].
    split; [exact Hd2 | ]. split.
    + rewrite He2. unfold s1. cbn [events].
      rewrite <- !app_assoc. reflexivity.
    + apply Forall_app. split; [exact Hf2 | ].
      repeat constructor.
Qed.

Lemma live_dirs_app (a b : list event) (l : list string) :
  live_dirs (a ++ b) l = live_dirs b (live_dirs a l).
Proof.
  revert l. induction a as [ | e a IH]; intros l; [reflexivity | ].
  destruct e; cbn [app live_dirs]; apply IH.
Qed.

Lemma polls_app (a b : list event) : polls (a ++ b) = polls a ++ polls b.
Proof. unfold polls. apply flat_map_app. Qed.

Lemma stage_events_polls (d : string) (evs : list event) :
  Forall (stage_event d) evs -> polls evs = [].
Proof.
  induction 1 as [ | e evs He _ IH]; [reflexivity | ].
  destruct e; cbn in He; try contradiction; exact IH.
Qed.

Lemma stage_events_entry (d : string) (evs : list event) :
  Forall (stage_event d) evs -> Forall entry_event evs.
Proof.
  induction 1 as [ | e evs He _ IH]; constructor; [ | exact IH].
  destruct e; cbn in He; try contradiction; exact I.
Qed.

(** While an entry runs, its directory is the only one that can be live. *)
Lemma stage_events_live (d : string) (evs : list event) :
  Forall (stage_event d) evs ->
  forall l, Forall (fun x => x = d) l ->
            Forall (fun x => x = d) (live_dirs evs l).
Proof.
  induction 1 as [ | e evs He _ IH]; intros l Hl; [exact Hl | ].
  destruct e; cbn in He; try contradiction; cbn [live_dirs];
    try (apply IH; exact Hl).
  apply IH. clear -Hl. induction Hl as [ | x l Hx _ IHl]; [constructor | ].
  cbn. destruct (negb (String.eqb x dir)); [constructor | ]; assumption.
Qed.

Lemma rmtree_clears (d : string) (l : list string) :
  Forall (fun x => x = d) l ->
  List.filter (fun x => negb (String.eqb x d)) l = [].
Proof.
  induction 1 as [ | x l Hx _ IH]; [reflexivity | ].
  cbn. subst x. rewrite String.eqb_refl. exact IH.
Qed.

(** What one iteration of the batch loop does when the flag is not set. *)
Lemma convert_loop_step (E : env) (G : gui) (outdir : string) (total : Z)
    (k : nat) (e : entry) (rest : list entry) (s : state) :
  0 < total < 2 ^ 384 -> 0 <= done s -> done s + 1 < 2 ^ 384 ->
  stop_flag E k = false ->
  exists s1 evs,
    convert_loop E G outdir total k (e :: rest) s
    = convert_loop E G outdir total (S k) rest s1 /\
    events s1 = events s ++ Poll k false :: evs /\
    done s <= done s1 <= done s + 1 /\
    polls evs = [] /\
    live_dirs evs [] = [] /\
    Forall entry_event evs.
Proof.
  intros Ht H0 Hlim Hstop.
  cbn [convert_loop]. rewrite Hstop.
  set (s0 := MkState (fs s) (events s ++ [Poll k false]) (done s)).
  rewrite (bind_ret _ _ s s0 tt) by reflexivity.
  destruct (convert_entry_spec E G outdir k e s0)
    as (b & s2 & evs2 & Hrun & Hd2 & He2 & Hf2).
  rewrite (bind_ret _ _ s0 s2 b) by exact Hrun.
  set (d := mkdtemp E k) in *.
  assert (Hds : done s2 = done s) by (rewrite Hd2; reflexivity).
  assert (Hlive : live_dirs (Log ("Processing: " +:+ path e) :: Mkdtemp d
                             :: evs2 ++ [Rmtree d]) [] = []).
  { cbn [live_dirs]. rewrite live_dirs_app. cbn [live_dirs].
    apply rmtree_clears. apply (stage_events_live d evs2 Hf2).
    repeat constructor. }
  assert (Hpolls : polls (Log ("Processing: " +:+ path e) :: Mkdtemp d
                          :: evs2 ++ [Rmtree d]) = []).
  { change (polls (evs2 ++ [Rmtree d]) = []).
    rewrite polls_app, (stage_events_polls d evs2 Hf2). reflexivity. }
  assert (Hentry : Forall entry_event
                     (Log ("Processing: " +:+ path e) :: Mkdtemp d
                      :: evs2 ++ [Rmtree d])).
  { repeat constructor. apply Forall_app. split.
    - apply (stage_events_entry d). exact Hf2.
    - repeat constructor. }
  destruct b.
  - destruct (percent_defined (done s2 + 1) total
                ltac:(rewrite Hds; lia) Ht) as (p & Hp).
    eexists _, ((Log ("Processing: " +:+ path e) :: Mkdtemp d
                 :: evs2 ++ [Rmtree d])
                ++ [OverallProgress p; CurrentProgress 0;
                    Log ("Saved: " +:+ outpath_of outdir (path e))]).
    split.
    + unfold mbind at 1. unfold M_bind, mbind_M, modify, gets, lift, emit, log.
      unfold mbind, M_bind, mbind_M. cbn [done events fs].
      rewrite Hp. reflexivity.
    + cbn [events done fs]. rewrite He2. unfold s0. cbn [events done fs].
      split; [ | split; [ | split; [ | split]]].
      * rewrite <- !app_assoc. reflexivity.
      * rewrite Hds. lia.
      * rewrite polls_app, Hpolls. reflexivity.
      * rewrite live_dirs_app, Hlive. reflexivity.
      * apply Forall_app. split; [exact Hentry | repeat constructor].
  - exists s2, (Log ("Processing: " +:+ path e) :: Mkdtemp d
                :: evs2 ++ [Rmtree d]).
    split; [reflexivity | ].
    split; [ | split; [ | split; [ | split]]].
    + rewrite He2. unfold s0. cbn [events]. rewrite <- app_assoc. reflexivity.
    + rewrite Hds. lia.
    + exact Hpolls.
    + exact Hlive.
    + exact Hentry.
Qed.

(** The batch loop over the entries that precede the stop request. *)
Lemma convert_loop_prefix (E : env) (G : gui) (outdir : string) (total : Z) :
  0 < total < 2 ^ 384 ->
  forall (pre rest : list entry) (k : nat) (s : state),
    (forall i, (k <= i < k + length pre)%nat -> stop_flag E i = false) ->
    0 <= done s -> done s + Z.of_nat (length pre) < 2 ^ 384 ->
    exists s1 evs,
      convert_loop E G outdir total k (pre ++ rest) s
      = convert_loop E G outdir total (k + length pre) rest s1 /\
      events s1 = events s ++ evs /\
      done s <= done s1 <= done s + Z.of_nat (length pre) /\
      polls evs = map (fun i => (i, false)) (seq k (length pre)) /\
      live_dirs evs [] = [] /\
      Forall (fun e => is_report e = false) evs.
Proof.
  intros Ht. induction pre as [ | e pre IH]; intros rest k s Hstop H0 Hlim.
  - exists s, []. cbn [app length seq map]. rewrite Nat.add_0_r, app_nil_r.
    repeat split; try reflexivity; try lia. constructor.
  - cbn [length] in Hlim, Hstop.
    destruct (convert_loop_step E G outdir total k e (pre ++ rest) s Ht H0
                ltac:(lia) (Hstop k ltac:(lia)))
      as (s1 & evs1 & Hrun1 & He1 & Hd1 & Hp1 & Hl1 & Hf1).
    destruct (IH rest (S k) s1) as (s2 & evs2 & Hrun2 & He2 & Hd2 & Hp2 & Hl2 & Hf2).
    + intros i Hi. apply Hstop. lia.
    + lia.
    + lia.
    + exists s2, (Poll k false :: evs1 ++ evs2).
      split; [ | split; [ | split; [ | split; [ | split]]]].
      * cbn [app length]. rewrite Hrun1, Hrun2.
        replace (k + S (length pre))%nat with (S k + length pre)%nat by lia.
        reflexivity.
      * rewrite He2, He1. rewrite <- app_assoc. reflexivity.
      * cbn [length]. lia.
      * cbn [length seq map].
        change (polls (Poll k false :: evs1 ++ evs2))
          with ((k, false) :: polls (evs1 ++ evs2)).
        rewrite polls_app, Hp1, Hp2. reflexivity.
      * change (live_dirs (evs1 ++ evs2) [] = []).
        rewrite live_dirs_app, Hl1. exact Hl2.
      * constructor; [reflexivity | ]. apply Forall_app. split; [ | exact Hf2].
        clear -Hf1. induction Hf1 as [ | x l Hx _ IHl]; constructor;
          [destruct x; cbn in Hx; try contradiction; reflexivity | exact IHl].
Qed.

Lemma filter_no_report (evs : list event) :
  Forall (fun e => is_report e = false) evs -> List.filter is_report evs = [].
Proof.
  induction 1 as [ | e evs He _ IH]; [reflexivity | ].
  cbn. rewrite He. exact IH.
Qed.

(** C8, as the code has it.  In the portrait worker the stop flag is read
    once per entry of the batch, before the entry's first stage, and nowhere
    else.  When it is read set, no command is run and no entry is started
    any more, every temporary directory created so far has been removed,
    "Stopped by user." is logged, and the worker ends with the report of any
    other run: status "Done" and "Finished done/total files.". *)
Theorem stop_flag_polled_once_per_entry (E : env) (G : gui)
    (outdir : string) (pre : list entry) (e : entry) (post : list entry)
    (s : state) :
  let entries := pre ++ e :: post in
  let total := Z.of_nat (length entries) in
  (forall i, (i < length pre)%nat -> stop_flag E i = false) ->
  stop_flag E (length pre) = true ->
  total < 2 ^ 384 -> done s = 0 ->
  exists s' evs,
    _worker_convert E G entries outdir s = (Ret tt, s') /\
    events s' =
      events s ++ evs ++
      [Poll (length pre) true; Log "Stopped by user.";
       Status "Done"; ConvertButton "normal";
       Log ("Completed " +:+ str_of_int (done s') +:+ "/"
            +:+ str_of_int total +:+ " files.");
       MessageBox "Done"
         ("Finished " +:+ str_of_int (done s') +:+ "/"
          +:+ str_of_int total +:+ " files.")] /\
    polls evs = map (fun i => (i, false)) (seq 0 (length pre)) /\
    live_dirs evs [] = [] /\
    0 <= done s' <= Z.of_nat (length pre) /\
    completion_report s' =
      completion_report s ++
      [Status "Done";
       MessageBox "Done"
         ("Finished " +:+ str_of_int (done s') +:+ "/"
          +:+ str_of_int total +:+ " files.")].
Proof.
  intros entries total Hbefore Hstop Htot Hdone.
  assert (Ht : 0 < total < 2 ^ 384).
  { split; [ | exact Htot].
    unfold total, entries. rewrite length_app. cbn [length]. lia. }
  assert (Hpre : Z.of_nat (length pre) < total).
  { unfold total, entries. rewrite length_app. cbn [length]. lia. }
  destruct (convert_loop_prefix E G outdir total Ht pre (e :: post) 0%nat s)
    as (s1 & evs & Hrun & He & Hd & Hp & Hl & Hf).
  { intros i Hi. apply Hbefore. lia. }
  { lia. }
  { lia. }
  cbn [Nat.add] in Hrun.
  unfold _worker_convert. fold entries. fold total.
  eexists _, evs. split.
  - unfold mbind at 1. unfold M_bind, mbind_M. unfold entries at 1.
    rewrite Hrun. cbn [convert_loop]. rewrite Hstop.
    unfold mbind, M_bind, mbind_M, emit, log, modify, gets. cbn [events done fs].
    reflexivity.
  - cbn [events done fs]. split; [ | split; [exact Hp | split; [exact Hl | split]]].
    + rewrite He. rewrite <- !app_assoc. reflexivity.
    + lia.
    + unfold completion_report. cbn [events]. rewrite He.
      rewrite <- !app_assoc. rewrite !List.filter_app.
      rewrite (filter_no_report evs Hf). reflexivity.
Qed.

Lemma stop_flag_polled_once_per_entry_witness :
  exists s' evs,
    _worker_convert (Samples.booth 1 "none") Samples.plain Samples.clips "out"
      (initial_state ∅) = (Ret tt, s') /\
    polls evs = [(0%nat, false)] /\ live_dirs evs [] = [] /\
    completion_report s' =
      [Status "Done";
       MessageBox "Done"
         ("Finished " +:+ str_of_int (done s') +:+ "/" +:+ str_of_int 2
          +:+ " files.")].
Proof.
  destruct (stop_flag_polled_once_per_entry (Samples.booth 1 "none")
              Samples.plain "out"
              [MkEntry "/v/a.mp4" (Some (1080, 1920))]
              (MkEntry "/v/b.mp4" (Some (1080, 1920))) []
              (initial_state ∅))
    as (s' & evs & Hrun & _ & Hp & Hl & _ & Hrep).
  - intros i Hi. destruct i; [reflexivity | cbn in Hi; lia].
  - reflexivity.
  - vm_compute. reflexivity.
  - reflexivity.
  - exists s', evs. split; [exact Hrun | ]. split; [exact Hp | ].
    split; [exact Hl | exact Hrep].
Defined.

(** C8, as stated, fails: a run stopped before its second entry and a run
    whose second entry could not be rendered end with the same completion
    report; and within the entry that was converted the two commands follow
    each other with no reading of the flag in between. *)
Lemma stopped_run_reports_like_failed_run_counterexample :
  let stopped := snd (_worker_convert (Samples.booth 1 "none") Samples.plain
                        Samples.clips "out" (initial_state ∅)) in
  let failed := snd (_worker_convert (Samples.booth 9 "/v/b.mp4")
                       Samples.plain Samples.clips "out" (initial_state ∅)) in
  polls (events stopped) = [(0%nat, false); (1%nat, true)] /\
  polls (events failed) = [(0%nat, false); (1%nat, false)] /\
  In (Log "Video render failed: ffmpeg: error") (events failed) /\
  completion_report stopped = completion_report failed /\
  completion_report stopped
  = [Status "Done"; MessageBox "Done" "Finished 1/2 files."] /\
  exists before cmdA cmdB after,
    events stopped = before ++ [Run cmdA true; Run cmdB true] ++ after.
Proof.
  vm_compute. repeat split; try reflexivity.
  - repeat match goal with
           | |- _ \/ _ => first [left; reflexivity | right]
           end.
  - eexists [_; _; _; _], _, _, _. reflexivity.
Qed.

(** The audio stages with music, in order: the mix; only if it fails, the
    track alone; only if that fails too, the copy of the silent video. *)
Lemma audio_cascade_order (E : env) (G : gui)
    (tmp_video src outpath bgm : string) (s : state) :
  truthy (bgm_path G) = Some bgm ->
  let trim := negb (bgm_trim_var G =? 0) in
  let loop := negb (bgm_loop_var G =? 0) in
  let mix := mix_cmd E tmp_video src bgm outpath (bgm_vol_var G) trim loop in
  let fallback := fallback_cmd tmp_video bgm outpath trim in
  let s' := snd (audio_stage E G tmp_video src outpath s) in
  match run_cmd E mix, run_cmd E fallback with
  | (true, _, _), _ =>
      events s' = events s ++
        [Log "Mixing audio and writing final output..."; Run mix true]
  | (false, _, e2), (true, _, _) =>
      events s' = events s ++
        [Log "Mixing audio and writing final output..."; Run mix false;
         Log ("Audio mix failed: " +:+ take_str 400 e2); Run fallback true]
  | (false, _, e2), (false, _, ef) =>
      events s' = events s ++
        [Log "Mixing audio and writing final output..."; Run mix false;
         Log ("Audio mix failed: " +:+ take_str 400 e2); Run fallback false;
         Log ("Fallback audio mux failed: " +:+ take_str 400 ef);
         Copy tmp_video outpath]
  end.
Proof.
  intros Hbgm trim loop mix fallback s'.
  unfold s', audio_stage. rewrite Hbgm. fold trim loop mix fallback.
  unfold do_run, do_copy, log, emit, modify, gets, set_fs, raise.
  unfold mbind, M_bind, mbind_M, mret, M_ret, mret_M.
  destruct (run_cmd E mix) as [[[ | ] o2] e2].
  - cbn. rewrite <- app_assoc. reflexivity.
  - cbn [negb fst snd events fs done].
    destruct (run_cmd E fallback) as [[[ | ] o3] ef].
    + cbn. rewrite <- !app_assoc. reflexivity.
    + cbn [negb fst snd events fs done].
      destruct (copy_error E tmp_video outpath); cbn;
        repeat match goal with
               | |- context [copy_file ?a ?b ?c] => destruct (copy_file a b c)
               end;
        cbn; rewrite <- !app_assoc; reflexivity.
Qed.

(** C5 fails on the code when trimming is requested.  The command of the
    second stage is built by inserting "-shortest" before the last element
    of a list that does not hold the output path yet: the flag lands between
    "-b:a" and its value, so that it reads as the value of "-b:a", "192k"
    reads as an output file, and nothing asks for trimming.  On an ffmpeg
    that refuses such a command line (and the first stage, built the same
    way), the cascade always ends in the silent copy. *)
Theorem fallback_trim_misplaces_shortest (tmp_video bgm outpath : string) :
  fallback_cmd tmp_video bgm outpath true
  = ["ffmpeg"; "-y"; "-i"; tmp_video; "-i"; bgm; "-map"; "0:v";
     "-map"; "1:a"; "-c:v"; "copy"; "-c:a"; "aac";
     "-b:a"; "-shortest"; "192k"; outpath] /\
  inv_options (parse (fallback_cmd tmp_video bgm outpath true))
  = [("-map", "0:v"); ("-map", "1:a"); ("-c:v", "copy"); ("-c:a", "aac");
     ("-b:a", "-shortest")] /\
  head (inv_outputs (parse (fallback_cmd tmp_video bgm outpath true)))
  = Some "192k" /\
  inv_switches (parse (fallback_cmd "/tmp/p2l_0/video_only.mp4" "music.mp3"
                         "out/a_landscape.mp4" true)) = ["-y"] /\
  events (snd (audio_stage (Samples.booth 9 "none") Samples.with_music
                 "/tmp/p2l_0/video_only.mp4" "/v/a.mp4" "out/a_landscape.mp4"
                 (initial_state
                    {[ "/tmp/p2l_0/video_only.mp4" := Media "silent video" ]})))
  = [Log "Mixing audio and writing final output...";
     Run (mix_cmd (Samples.booth 9 "none") "/tmp/p2l_0/video_only.mp4"
            "/v/a.mp4" "music.mp3" "out/a_landscape.mp4" (float_of_int 1)
            true false) false;
     Log "Audio mix failed: ffmpeg: error";
     Run (fallback_cmd "/tmp/p2l_0/video_only.mp4" "music.mp3"
            "out/a_landscape.mp4" true) false;
     Log "Fallback audio mux failed: ffmpeg: error";
     Copy "/tmp/p2l_0/video_only.mp4" "out/a_landscape.mp4"].
Proof.
  assert (Hcmd : fallback_cmd tmp_video bgm outpath true
                 = ["ffmpeg"; "-y"; "-i"; tmp_video; "-i"; bgm; "-map"; "0:v";
                    "-map"; "1:a"; "-c:v"; "copy"; "-c:a"; "aac";
                    "-b:a"; "-shortest"; "192k"; outpath]) by reflexivity.
  split; [exact Hcmd | ]. rewrite Hcmd.
  split; [ | split; [ | split; [vm_compute; reflexivity | vm_compute; reflexivity]]].
  - unfold parse. cbn.
    destruct (is_switch outpath); [reflexivity | ].
    destruct (startswith outpath "-"); reflexivity.
  - unfold parse. cbn.
    destruct (is_switch outpath); [reflexivity | ].
    destruct (startswith outpath "-"); reflexivity.
Qed.

End WorkerFacts.

(* ===================================================================== *)
(** * The input catalog and the whole slideshow job                       *)
(* ===================================================================== *)

Module CatalogFacts.
Import Slideshow SlideshowRun.

Lemma ltb_lt (a b : string) :
  String.ltb a b = true <-> OrderedTypeEx.String_as_OT.lt a b.
Proof.
  rewrite <- OrderedTypeEx.String_as_OT.cmp_lt.
  unfold String.ltb, OrderedTypeEx.String_as_OT.cmp.
  destruct (String.compare a b); split; intros H; congruence.
Qed.

Lemma str_le_refl (a : string) : str_le a a.
Proof.
  unfold str_le. destruct (String.ltb a a) eqn:H; [ | reflexivity].
  apply ltb_lt in H. exfalso.
  exact (OrderedTypeEx.String_as_OT.lt_not_eq _ _ H eq_refl).
Qed.

Lemma ltb_total (a b : string) :
  String.ltb a b = false -> String.ltb b a = false -> a = b.
Proof.
  unfold String.ltb. rewrite (String.compare_antisym b a).
  destruct (String.compare a b) eqn:Hc; cbn; try discriminate.
  intros _ _. apply String.compare_eq_iff. exact Hc.
Qed.

Lemma str_le_trans (a b c : string) : str_le a b -> str_le b c -> str_le a c.
Proof.
  unfold str_le. intros Hab Hbc.
  destruct (String.ltb c a) eqn:Hca; [ | reflexivity].
  exfalso. apply ltb_lt in Hca.
  destruct (String.ltb a b) eqn:Hab'.
  - apply ltb_lt in Hab'.
    pose proof (OrderedTypeEx.String_as_OT.lt_trans _ _ _ Hca Hab') as Hcb.
    apply ltb_lt in Hcb. congruence.
  - pose proof (ltb_total a b Hab' Hab) as ->.
    apply ltb_lt in Hca. congruence.
Qed.

Lemma lt_le (a b : string) : String.ltb a b = true -> str_le a b.
Proof.
  intros H. unfold str_le. destruct (String.ltb b a) eqn:Hba; [ | reflexivity].
  apply ltb_lt in H, Hba.
  pose proof (OrderedTypeEx.String_as_OT.lt_trans _ _ _ H Hba) as Haa.
  exfalso. exact (OrderedTypeEx.String_as_OT.lt_not_eq _ _ Haa eq_refl).
Qed.

Lemma insert_sorted_perm (x : string) (l : list string) :
  Permutation (insert_sorted x l) (x :: l).
Proof.
  induction l as [ | y l IH]; [reflexivity | ].
  cbn [insert_sorted]. destruct (String.ltb x y); [reflexivity | ].
  rewrite IH. apply perm_swap.
Qed.

Lemma insert_sorted_sorted (x : string) (l : list string) :
  StronglySorted str_le l -> StronglySorted str_le (insert_sorted x l).
Proof.
  induction 1 as [ | y l Hs IH Hy].
  - repeat constructor.
  - cbn [insert_sorted]. destruct (String.ltb x y) eqn:Hxy.
    + constructor; [constructor; assumption | ].
      constructor; [apply lt_le; exact Hxy | ].
      eapply Forall_impl; [exact Hy | ].
      intros z Hz. apply (str_le_trans x y z); [apply lt_le; exact Hxy | exact Hz].
    + constructor; [exact IH | ].
      rewrite (insert_sorted_perm x l). constructor; [exact Hxy | exact Hy].
Qed.

Lemma sorted_perm (l : list string) : Permutation (sorted l) l.
Proof.
  unfold sorted. rewrite <- (rev_involutive l) at 2.
  generalize (rev l) as r. intros r.
  induction r as [ | x r IH]; [reflexivity | ].
  cbn [foldr]. rewrite insert_sorted_perm. cbn [rev].
  rewrite IH. rewrite Permutation_app_comm. reflexivity.
Qed.

Lemma sorted_sorted (l : list string) : StronglySorted str_le (sorted l).
Proof.
  unfold sorted. generalize (rev l) as r. intros r.
  induction r as [ | x r IH]; [constructor | ].
  cbn [foldr]. apply insert_sorted_sorted. exact IH.
Qed.

Lemma scan_images_spec (names : list string) :
  Permutation (scan_images names) (List.filter is_image_name names) /\
  StronglySorted str_le (scan_images names).
Proof.
  unfold scan_images. split; [apply sorted_perm | apply sorted_sorted].
Qed.

(** X1.  The catalog the slideshow job walks when shuffling is off:
    whatever the folder lists, [ordered_images] holds exactly the listed
    names with an image extension, each as often as listed, in
    non-decreasing code-point order.  With shuffling on the job walks
    whatever [random.shuffle] makes of that list. *)
Theorem unshuffled_catalog_sorted_image_names (E : env)
    (names : list string) :
  let catalog := ordered_images E false names in
  Permutation catalog (List.filter is_image_name names) /\
  StronglySorted str_le catalog /\
  (forall n, In n catalog <-> In n names /\ is_image_name n = true) /\
  ordered_images E true names
  = match catalog with [] => [] | _ :: _ => shuffled E catalog end.
Proof.
  assert (Hcat : ordered_images E false names = scan_images names).
  { unfold ordered_images. destruct (scan_images names); reflexivity. }
  cbv zeta. rewrite Hcat.
  destruct (scan_images_spec names) as (Hperm & Hsorted).
  split; [exact Hperm | ]. split; [exact Hsorted | ]. split.
  - intros n. rewrite <- List.filter_In. split; intros H.
    + eapply Permutation_in; [exact Hperm | exact H].
    + eapply Permutation_in; [symmetry; exact Hperm | exact H].
  - unfold ordered_images. destruct (scan_images names); reflexivity.
Qed.

End CatalogFacts.

Module JobRunFacts.
Import Slideshow SlideshowRun EffFacts.

Lemma progress_step_refl (s : state) : progress_step s s.
Proof.
  split; [reflexivity | ]. split; [reflexivity | ].
  exists []. rewrite app_nil_r. split; [reflexivity | constructor].
Qed.

Lemma progress_step_trans (s1 s2 s3 : state) :
  progress_step s1 s2 -> progress_step s2 s3 -> progress_step s1 s3.
Proof.
  intros (F1 & T1 & e1 & E1 & P1) (F2 & T2 & e2 & E2 & P2).
  split; [congruence | ]. split; [congruence | ].
  exists (e1 ++ e2). split.
  - rewrite E2, E1, app_assoc. reflexivity.
  - apply Forall_app. split; assumption.
Qed.

Lemma renders_ret {A : Type} (a : A) : renders (mret a).
Proof.
  intros s. exists (Ret a), s. split; [reflexivity | apply progress_step_refl].
Qed.

Lemma renders_raise {A : Type} (e : string) : renders (@raise state A e).
Proof.
  intros s. exists (Raise e), s. split; [reflexivity | apply progress_step_refl].
Qed.

Lemma renders_lift {A : Type} (o : outcome A) : renders (lift o).
Proof.
  intros s. exists o, s. split; [reflexivity | apply progress_step_refl].
Qed.

Lemma renders_bind {A B : Type} (m : job A) (k : A -> job B) :
  renders m -> (forall a, renders (k a)) -> renders (m ≫= k).
Proof.
  intros Hm Hk s. destruct (Hm s) as (r & s1 & Hrun & Hst).
  destruct r as [a | e].
  - destruct (Hk a s1) as (r2 & s2 & Hrun2 & Hst2).
    exists r2, s2. split.
    + rewrite (bind_ret _ _ s s1 a) by exact Hrun. exact Hrun2.
    + apply (progress_step_trans s s1 s2); assumption.
  - exists (Raise e), s1. split.
    + apply bind_raise. exact Hrun.
    + exact Hst.
Qed.

Lemma renders_for_each {A : Type} (xs : list A) (body : A -> job unit) :
  (forall x, renders (body x)) -> renders (for_each xs body).
Proof.
  intros Hb. induction xs as [ | x xs IH]; [apply renders_ret | ].
  cbn [for_each]. apply renders_bind; [apply Hb | intros _; exact IH].
Qed.

Lemma renders_update_progress (pct : Z) (status : string) :
  renders (update_progress pct status).
Proof.
  intros s. eexists _, _. split; [reflexivity | ].
  split; [reflexivity | ]. split; [reflexivity | ].
  exists [Progress pct status]. split; [reflexivity | ].
  repeat constructor.
Qed.

Lemma renders_add_frames_written (n : Z) : renders (add_frames_written n).
Proof.
  intros s. eexists _, _. split; [reflexivity | ].
  split; [reflexivity | ]. split; [reflexivity | ].
  exists []. cbn. rewrite app_nil_r. split; [reflexivity | constructor].
Qed.

Lemma renders_get_frames_written : renders get_frames_written.
Proof.
  intros s. eexists _, _. split; [reflexivity | apply progress_step_refl].
Qed.

Lemma renders_writer_write (f : Frame) : renders (writer_write f).
Proof.
  intros s. eexists _, _. split; [reflexivity | ].
  split; [reflexivity | ]. split; [reflexivity | ].
  exists []. cbn. rewrite app_nil_r. split; [reflexivity | constructor].
Qed.

Lemma renders_count_frame (fps total_frames : Z) :
  renders (count_frame fps total_frames).
Proof.
  unfold count_frame.
  apply renders_bind; [apply renders_add_frames_written | intros _].
  apply renders_bind; [apply renders_get_frames_written | intros fw].
  destruct (((fw mod Z.max 1 (fps / 2) =? 0) || (fw =? total_frames))%bool);
    [ | apply renders_ret].
  apply renders_bind; [apply renders_lift | intros pct].
  apply renders_update_progress.
Qed.

Lemma renders_render_item (E : env) (pil_images : list (option Image))
    (target_w target_h frames_per_image crossfade_frames fps : Z) (idx : nat) :
  renders (render_item E pil_images target_w target_h frames_per_image
             crossfade_frames fps idx).
Proof.
  unfold render_item. destruct (pil_images !! idx) as [[pil | ] | ].
  - apply renders_bind; [apply renders_lift | intros curr].
    apply renders_bind; [apply renders_lift | intros next].
    apply renders_bind.
    + apply renders_for_each. intros _.
      apply renders_bind; [apply renders_writer_write | intros _].
      apply renders_count_frame.
    + intros _. apply renders_for_each. intros f.
      apply renders_bind; [apply renders_lift | intros alpha].
      apply renders_bind; [apply renders_writer_write | intros _].
      apply renders_count_frame.
  - apply renders_bind; [apply renders_add_frames_written | intros _].
    apply renders_bind; [apply renders_get_frames_written | intros fw].
    apply renders_bind; [apply renders_lift | intros pct].
    apply renders_update_progress.
  - apply renders_raise.
Qed.

Lemma renders_render_frames (E : env) (pil_images : list (option Image))
    (target_w target_h frames_per_image crossfade_frames fps : Z) :
  renders (render_frames E pil_images target_w target_h frames_per_image
             crossfade_frames fps).
Proof.
  unfold render_frames. apply renders_for_each. intros idx.
  apply renders_render_item.
Qed.

Lemma rmtree_cleared (dir : string) (f : gmap string artifact) :
  cleared dir (rmtree dir f).
Proof.
  intros p Hp. unfold rmtree. apply map_lookup_filter_None. right.
  intros a _ Hu. change (under dir p = false) in Hu. congruence.
Qed.

(** The encode stage always ends normally, with one [on_done] as its last
    callback, and leaves nothing below the temporary directory. *)
Lemma encode_and_save_outcome (E : env) (tmp raw_video output_path : string)
    (bgm_path : option string) (s : state) :
  exists s' evs ok msg,
    encode_and_save E tmp raw_video output_path bgm_path s = (Ret tt, s') /\
    events s' = events s ++ evs ++ [Done ok msg] /\
    Forall is_progress evs /\
    cleared tmp (fs s') /\
    tmp_dir s' = tmp_dir s.
Proof.
  unfold encode_and_save, update_progress, on_done, emit, attempt,
    run_ffmpeg, do_move, do_copy, do_rmtree, get_fs, set_fs, raise.
  unfold mbind, M_bind, mbind_M, mret, M_ret, mret_M.
  cbn [fs events written frames_written tmp_dir].
  set (cmd := ffmpeg_cmd_of E raw_video (path_join tmp "final.mp4") bgm_path).
  destruct (ffmpeg_error E cmd) as [e | ];
    cbn [fs events written frames_written tmp_dir].
  - destruct (move_error E raw_video output_path) as [e2 | ];
      cbn [fs events written frames_written tmp_dir].
    + eexists _, [_], _, _. split; [reflexivity | ].
      cbn [fs events tmp_dir]. rewrite <- app_assoc.
      split; [reflexivity | ]. split; [repeat constructor | ].
      split; [apply rmtree_cleared | reflexivity].
    + destruct (move_file raw_video output_path (fs s)) as [f' | ];
        cbn [fs events written frames_written tmp_dir];
        (eexists _, [_], _, _; split; [reflexivity | ];
         cbn [fs events tmp_dir]; rewrite <- app_assoc;
         split; [reflexivity | ]; split; [repeat constructor | ];
         split; [apply rmtree_cleared | reflexivity]).
  - destruct (move_error E (path_join tmp "final.mp4") output_path) as [e2 | ];
      cbn [fs events written frames_written tmp_dir].
    + destruct (copy_error E (path_join tmp "final.mp4") output_path) as [e3 | ];
        cbn [fs events written frames_written tmp_dir].
      * eexists _, [_], _, _. split; [reflexivity | ].
        cbn [fs events tmp_dir]. rewrite <- app_assoc.
        split; [reflexivity | ]. split; [repeat constructor | ].
        split; [apply rmtree_cleared | reflexivity].
      * destruct (copy_file (path_join tmp "final.mp4") output_path _)
          as [f' | ];
          cbn [fs events written frames_written tmp_dir].
        -- eexists _, [_; _], _, _. split; [reflexivity | ].
           cbn [fs events tmp_dir]. rewrite <- !app_assoc.
           split; [reflexivity | ]. split; [repeat constructor | ].
           split; [apply rmtree_cleared | reflexivity].
        -- eexists _, [_], _, _. split; [reflexivity | ].
           cbn [fs events tmp_dir]. rewrite <- app_assoc.
           split; [reflexivity | ]. split; [repeat constructor | ].
           split; [apply rmtree_cleared | reflexivity].
    + destruct (move_file (path_join tmp "final.mp4") output_path _)
        as [f' | ];
        cbn [fs events written frames_written tmp_dir].
      * eexists _, [_; _], _, _. split; [reflexivity | ].
        cbn [fs events tmp_dir]. rewrite <- !app_assoc.
        split; [reflexivity | ]. split; [repeat constructor | ].
        split; [apply rmtree_cleared | reflexivity].
      * destruct (copy_error E (path_join tmp "final.mp4") output_path)
          as [e3 | ];
          cbn [fs events written frames_written tmp_dir].
        -- eexists _, [_], _, _. split; [reflexivity | ].
           cbn [fs events tmp_dir]. rewrite <- app_assoc.
           split; [reflexivity | ]. split; [repeat constructor | ].
           split; [apply rmtree_cleared | reflexivity].
        -- destruct (copy_file (path_join tmp "final.mp4") output_path _)
             as [f' | ];
             cbn [fs events written frames_written tmp_dir].
           ++ eexists _, [_; _], _, _. split; [reflexivity | ].
              cbn [fs events tmp_dir]. rewrite <- !app_assoc.
              split; [reflexivity | ]. split; [repeat constructor | ].
              split; [apply rmtree_cleared | reflexivity].
           ++ eexists _, [_], _, _. split; [reflexivity | ].
              cbn [fs events tmp_dir]. rewrite <- app_assoc.
              split; [reflexivity | ]. split; [repeat constructor | ].
              split; [apply rmtree_cleared | reflexivity].
Qed.

(** The body of the job: it either ends normally after exactly one
    [on_done], its last callback, or raises before any [on_done]; the
    temporary directory, once bound, is the one [mkdtemp] made, and a normal
    end leaves nothing below it. *)
Lemma slideshow_body_outcome (E : env) (folder output_path : string)
    (duration_sec fps : Z) (resolution : option (Z * Z)) (shuffle : bool)
    (crossfade_frames : Z) (bgm_path : option string) (trim_music : bool)
    (s : state) :
  exists r s' evs,
    slideshow_body E folder output_path duration_sec fps resolution shuffle
      crossfade_frames bgm_path trim_music s = (r, s') /\
    Forall is_progress evs /\
    match r with
    | Ret _ =>
        (exists ok msg, events s' = events s ++ evs ++ [Done ok msg]) /\
        (tmp_dir s' = tmp_dir s /\ fs s' = fs s \/
         tmp_dir s' = Some (mkdtemp E) /\ cleared (mkdtemp E) (fs s'))
    | Raise _ =>
        events s' = events s ++ evs /\
        (tmp_dir s' = tmp_dir s /\ fs s' = fs s \/
         tmp_dir s' = Some (mkdtemp E))
    end.
Proof.
  unfold slideshow_body.
  destruct (listdir E folder) as [names | e] eqn:Hls.
  2:{ exists (Raise e), s, []. split; [reflexivity | ].
      split; [constructor | ]. rewrite app_nil_r.
      split; [reflexivity | left; split; reflexivity]. }
  rewrite (bind_ret _ _ s s names) by reflexivity.
  destruct (scan_images names) as [ | n0 ns] eqn:Hscan.
  { eexists (Ret tt), _, []. split; [reflexivity | ].
    split; [constructor | ]. split.
    - eexists _, _. reflexivity.
    - left. split; reflexivity. }
  destruct (ordered_images E shuffle names) as [ | first rest] eqn:Hord.
  { exists (Raise "list index out of range"), s, [].
    split; [reflexivity | ]. split; [constructor | ]. rewrite app_nil_r.
    split; [reflexivity | left; split; reflexivity]. }
  rewrite (bind_ret _ _ s s first) by reflexivity.
  destruct (image_open E (path_join folder first)) as [first_pil | e] eqn:Hopen.
  2:{ exists (Raise e), s, []. split; [reflexivity | ].
      split; [constructor | ]. rewrite app_nil_r.
      split; [reflexivity | left; split; reflexivity]. }
  rewrite (bind_ret _ _ s s first_pil) by reflexivity.
  destruct (match resolution with
            | Some r => r
            | None => img_size first_pil
            end) as [target_w target_h].
  set (tmp := mkdtemp E).
  set (s1 := MkState (fs s) (events s) (written s) (frames_written s)
                     (Some tmp)).
  rewrite (bind_ret _ _ s s1 tt) by reflexivity.
  destruct (negb (writer_opens E "avc1") && negb (writer_opens E "mp4v"))%bool.
  { eexists (Ret tt), _, []. split; [reflexivity | ].
    split; [constructor | ]. split.
    - eexists _, _. reflexivity.
    - right. split; [reflexivity | ]. apply rmtree_cleared. }
  set (s2 := MkState (fs s) (events s ++ [Progress 0 "Rendering frames..."])
                     (written s) (frames_written s) (Some tmp)).
  rewrite (bind_ret _ _ s1 s2 tt) by reflexivity.
  destruct (renders_render_frames E (preload E folder (first :: rest))
              target_w target_h (frames_per_image_of duration_sec fps)
              crossfade_frames fps s2)
    as (r & s3 & Hrun & Hfs3 & Htmp3 & evs3 & Hev3 & Hp3).
  destruct r as [[] | e].
  2:{ exists (Raise e), s3, (Progress 0 "Rendering frames..." :: evs3).
      split; [apply bind_raise; exact Hrun | ].
      split; [constructor; [exact I | exact Hp3] | ].
      split.
      - rewrite Hev3. unfold s2. cbn [events]. rewrite <- app_assoc.
        reflexivity.
      - right. rewrite Htmp3. reflexivity. }
  rewrite (bind_ret _ _ s2 s3 tt) by exact Hrun.
  set (raw := path_join tmp "raw_video.mp4").
  set (s4 := MkState (<[raw := RawVideo (written s3)]> (fs s3)) (events s3)
                     (written s3) (frames_written s3) (tmp_dir s3)).
  rewrite (bind_ret _ _ s3 s4 tt) by reflexivity.
  destruct (encode_and_save_outcome E tmp raw output_path bgm_path s4)
    as (s5 & evs5 & ok & msg & Hrun5 & Hev5 & Hp5 & Hcl5 & Htmp5).
  exists (Ret tt), s5, (Progress 0 "Rendering frames..." :: evs3 ++ evs5).
  split; [exact Hrun5 | ].
  split.
  { constructor; [exact I | ]. apply Forall_app. split; assumption. }
  split.
  - exists ok, msg. rewrite Hev5. unfold s4. cbn [events]. rewrite Hev3.
    unfold s2. cbn [events].
    change (Progress 0 "Rendering frames..." :: evs3 ++ evs5)
      with ([Progress 0 "Rendering frames..."] ++ evs3 ++ evs5).
    rewrite <- !app_assoc. reflexivity.
  - right. split; [ | exact Hcl5].
    rewrite Htmp5. unfold s4. cbn [tmp_dir]. rewrite Htmp3. reflexivity.
Qed.

(** X2.  The completion contract of the slideshow job: whatever the folder,
    the settings and the environment do, [create_slideshow_thread] returns
    normally and calls [on_done] exactly once, as its last callback; all the
    callbacks before it are progress updates. *)
Theorem on_done_called_exactly_once (E : env) (folder output_path : string)
    (duration_sec fps : Z) (resolution : option (Z * Z)) (shuffle : bool)
    (crossfade_frames : Z) (bgm_path : option string) (trim_music : bool)
    (s : state) :
  exists s' evs ok msg,
    create_slideshow_thread E folder output_path duration_sec fps resolution
      shuffle crossfade_frames bgm_path trim_music s = (Ret tt, s') /\
    events s' = events s ++ evs ++ [Done ok msg] /\
    Forall is_progress evs.
Proof.
  destruct (slideshow_body_outcome E folder output_path duration_sec fps
              resolution shuffle crossfade_frames bgm_path trim_music s)
    as (r & s1 & evs & Hrun & Hp & Hr).
  unfold create_slideshow_thread, try_except. rewrite Hrun.
  destruct r as [[] | exc].
  - destruct Hr as [(ok & msg & Hev) _]. exists s1, evs, ok, msg.
    split; [reflexivity | ]. split; assumption.
  - destruct Hr as [Hev _].
    unfold get_tmp_dir, do_rmtree, get_fs, set_fs, on_done, emit.
    unfold mbind, M_bind, mbind_M, mret, M_ret, mret_M.
    destruct (tmp_dir s1) as [tmp | ];
      cbn [fs events written frames_written tmp_dir];
      (eexists _, evs, _, _; split; [reflexivity | ];
       cbn [events]; rewrite Hev, <- app_assoc; split; [reflexivity | exact Hp]).
Qed.

(** X3.  The temporary directory of the slideshow job never outlives the
    job: if the job got as far as creating it, no file is left below it when
    the job ends, on every path (success, raw fallback, failed save, missing
    codec, exception while rendering); if it did not, no file was touched. *)
Theorem temp_dir_never_outlives_job (E : env) (folder output_path : string)
    (duration_sec fps : Z) (resolution : option (Z * Z)) (shuffle : bool)
    (crossfade_frames : Z) (bgm_path : option string) (trim_music : bool)
    (s : state) :
  tmp_dir s = None ->
  let s' := snd (create_slideshow_thread E folder output_path duration_sec
                   fps resolution shuffle crossfade_frames bgm_path
                   trim_music s) in
  match tmp_dir s' with
  | Some d => d = mkdtemp E /\ cleared d (fs s')
  | None => fs s' = fs s
  end.
Proof.
  intros Htmp. cbv zeta.
  destruct (slideshow_body_outcome E folder output_path duration_sec fps
              resolution shuffle crossfade_frames bgm_path trim_music s)
    as (r & s1 & evs & Hrun & Hp & Hr).
  unfold create_slideshow_thread, try_except. rewrite Hrun.
  destruct r as [[] | exc].
  - destruct Hr as [_ [[Ht Hf] | [Ht Hc]]]; cbn [snd]; rewrite Ht.
    + rewrite Htmp. exact Hf.
    + split; [reflexivity | exact Hc].
  - destruct Hr as [_ [[Ht Hf] | Ht]].
    + unfold get_tmp_dir. unfold mbind, M_bind, mbind_M, mret, M_ret, mret_M.
      rewrite Ht, Htmp. cbn. rewrite Ht, Htmp. exact Hf.
    + unfold get_tmp_dir, do_rmtree, get_fs, set_fs, on_done, emit.
      unfold mbind, M_bind, mbind_M, mret, M_ret, mret_M.
      rewrite Ht. cbn [fs events written frames_written tmp_dir snd].
      rewrite Ht. split; [reflexivity | apply rmtree_cleared].
Qed.

Lemma temp_dir_never_outlives_job_witness :
  match tmp_dir (snd (create_slideshow_thread Cases.no_codec "pics"
                        "out/video.mp4" 1 2 (Some (2, 2)) false 1 None true
                        (initial_state ∅))) with
  | Some d =>
      d = mkdtemp Cases.no_codec /\
      cleared d (fs (snd (create_slideshow_thread Cases.no_codec "pics"
                            "out/video.mp4" 1 2 (Some (2, 2)) false 1 None
                            true (initial_state ∅))))
  | None =>
      fs (snd (create_slideshow_thread Cases.no_codec "pics" "out/video.mp4"
                 1 2 (Some (2, 2)) false 1 None true (initial_state ∅)))
      = fs (initial_state ∅)
  end.
Proof.
  exact (temp_dir_never_outlives_job Cases.no_codec "pics" "out/video.mp4"
           1 2 (Some (2, 2)) false 1 None true (initial_state ∅) eq_refl).
Defined.





(** X5.  When the encoded file can be neither moved nor copied to the
    output path, the job reports failure with the error of the copy, after
    the 85 percent update and with no further progress update, and removes
    the temporary directory all the same, so nothing of the render is
    kept.  (What the failed calls left at the output path is not
    stated.) *)
Theorem failed_save_discards_render (E : env)
    (tmp raw_video output_path : string) (bgm_path : option string)
    (s : state) (e1 e2 : string) :
  let final_tmp := path_join tmp "final.mp4" in
  let cmd := ffmpeg_cmd_of E raw_video final_tmp bgm_path in
  ffmpeg_error E cmd = None ->
  move_error E final_tmp output_path = Some e1 ->
  copy_error E final_tmp output_path = Some e2 ->
  exists s',
    encode_and_save E tmp raw_video output_path bgm_path s = (Ret tt, s') /\
    cleared tmp (fs s') /\
    events s' =
      events s ++
      [Progress 85 "Re-encoding & adding audio (ffmpeg)...";
       Done false ("Failed to save final video to destination: " +:+ e2)].
Proof.
  intros final_tmp cmd Hff Hmv Hcp.
  unfold encode_and_save, update_progress, on_done, emit, attempt,
    run_ffmpeg, do_move, do_copy, do_rmtree, get_fs, set_fs, raise.
  unfold mbind, M_bind, mbind_M, mret, M_ret, mret_M.
  cbn [fs events written frames_written tmp_dir].
  fold final_tmp. fold cmd. rewrite Hff.
  cbn [fs events written frames_written tmp_dir].
  rewrite Hmv. cbn [fs events written frames_written tmp_dir].
  rewrite Hcp. cbn [fs events written frames_written tmp_dir].
  eexists. split; [reflexivity | ]. cbn [fs events].
  split; [apply rmtree_cleared | ].
  rewrite <- !app_assoc. reflexivity.
Qed.

Lemma failed_save_discards_render_witness :
  exists s',
    encode_and_save
      Cases.no_room
      "/tmp/thumbvid_0" "/tmp/thumbvid_0/raw_video.mp4" "out/video.mp4" None
      (MkState {[ "/tmp/thumbvid_0/raw_video.mp4" := RawVideo [Samples.dark] ]}
               [] [Samples.dark] 1 (Some "/tmp/thumbvid_0"))
    = (Ret tt, s') /\
    cleared "/tmp/thumbvid_0" (fs s') /\
    events s' =
      [Progress 85 "Re-encoding & adding audio (ffmpeg)...";
       Done false
         "Failed to save final video to destination: No space left on device"].
Proof.
  destruct (failed_save_discards_render
              Cases.no_room
              "/tmp/thumbvid_0" "/tmp/thumbvid_0/raw_video.mp4"
              "out/video.mp4" None
              (MkState
                 {[ "/tmp/thumbvid_0/raw_video.mp4" := RawVideo [Samples.dark] ]}
                 [] [Samples.dark] 1 (Some "/tmp/thumbvid_0"))
              "Permission denied" "No space left on device")
    as (s' & Hrun & Hcl & Hev).
  - reflexivity.
  - reflexivity.
  - reflexivity.
  - exists s'. split; [exact Hrun | ]. split; [exact Hcl | exact Hev].
Defined.

Lemma sorted_nil : sorted [] = [].
Proof. reflexivity. Qed.

Lemma filter_none (f : string -> bool) (l : list string) :
  Forall (fun n => f n = false) l -> List.filter f l = [].
Proof.
  induction 1 as [ | x l Hx _ IH]; [reflexivity | ].
  cbn. rewrite Hx. exact IH.
Qed.

(** X6.  A folder without any image name ends the job at once:
    [on_done(False, "No images found in selected folder.")] is the only
    callback, no temporary directory is made, no frame is written and no
    file is touched. *)
Theorem folder_without_images_ends_job (E : env)
    (folder output_path : string) (duration_sec fps : Z)
    (resolution : option (Z * Z)) (shuffle : bool) (crossfade_frames : Z)
    (bgm_path : option string) (trim_music : bool) (s : state)
    (names : list string) :
  listdir E folder = Ret names ->
  Forall (fun n => is_image_name n = false) names ->
  create_slideshow_thread E folder output_path duration_sec fps resolution
    shuffle crossfade_frames bgm_path trim_music s
  = (Ret tt,
     MkState (fs s)
             (events s ++ [Done false "No images found in selected folder."])
             (written s) (frames_written s) (tmp_dir s)).
Proof.
  intros Hls Hnone.
  unfold create_slideshow_thread, try_except, slideshow_body.
  unfold mbind at 1. unfold M_bind, mbind_M, lift. rewrite Hls.
  unfold scan_images. rewrite (filter_none _ _ Hnone). rewrite sorted_nil.
  reflexivity.
Qed.

Lemma folder_without_images_ends_job_witness :
  events (snd (create_slideshow_thread
                 Cases.no_pictures
                 "pics" "out/video.mp4" 1 30 None true 15 None true
                 (initial_state ∅)))
  = [Done false "No images found in selected folder."].
Proof.
  rewrite (folder_without_images_ends_job
             Cases.no_pictures
             "pics" "out/video.mp4" 1 30 None true 15 None true
             (initial_state ∅) ["notes.txt"; "clip.mp4"; "jpg"]).
  - reflexivity.
  - reflexivity.
  - repeat constructor.
Defined.

(** X7.  When the video writer opens with neither codec ("avc1", then
    "mp4v"), the job fails with the missing-codec message before any frame
    is rendered: no progress is reported, nothing is written, and the
    temporary directory just made is removed. *)
Theorem missing_codecs_fail_before_rendering (E : env)
    (folder output_path : string) (duration_sec fps : Z)
    (resolution : option (Z * Z)) (shuffle : bool) (crossfade_frames : Z)
    (bgm_path : option string) (trim_music : bool) (s : state)
    (names : list string) (first : string) (rest : list string)
    (first_pil : Image) :
  listdir E folder = Ret names ->
  ordered_images E shuffle names = first :: rest ->
  image_open E (path_join folder first) = Ret first_pil ->
  writer_opens E "avc1" = false ->
  writer_opens E "mp4v" = false ->
  create_slideshow_thread E folder output_path duration_sec fps resolution
    shuffle crossfade_frames bgm_path trim_music s
  = (Ret tt,
     MkState (rmtree (mkdtemp E) (fs s))
             (events s
              ++ [Done false "Failed to open VideoWriter. Missing codecs."])
             (written s) (frames_written s) (Some (mkdtemp E))).
Proof.
  intros Hls Hord Hopen Havc Hmp4.
  unfold create_slideshow_thread, try_except, slideshow_body.
  unfold mbind at 1. unfold M_bind, mbind_M, lift. rewrite Hls.
  destruct (scan_images names) as [ | n0 ns] eqn:Hscan.
  { unfold ordered_images in Hord. rewrite Hscan in Hord. discriminate. }
  rewrite Hord.
  unfold mbind, M_bind, mbind_M, mret, M_ret, mret_M. rewrite Hopen.
  destruct (match resolution with
            | Some r => r
            | None => img_size first_pil
            end) as [target_w target_h].
  rewrite Havc, Hmp4. reflexivity.
Qed.

Lemma missing_codecs_fail_before_rendering_witness :
  create_slideshow_thread Cases.no_codec "pics" "out/video.mp4" 1 30 None
    false 15 None true (initial_state ∅)
  = (Ret tt,
     MkState (rmtree "/tmp/thumbvid_0" ∅)
             [Done false "Failed to open VideoWriter. Missing codecs."]
             [] 0 (Some "/tmp/thumbvid_0")).
Proof.
  apply (missing_codecs_fail_before_rendering Cases.no_codec "pics"
           "out/video.mp4" 1 30 None false 15 None true (initial_state ∅)
           ["b.jpg"; "a.PNG"] "a.PNG" ["b.jpg"] (Samples.flat_image 100));
    reflexivity.
Defined.

End JobRunFacts.

(* ===================================================================== *)
(** * The portrait converter: batches, modes, entries, paths              *)
(* ===================================================================== *)

Module BatchFacts.
Import Portrait PortraitRun FloatFacts EffFacts WorkerFacts.

Lemma saved_count_app (a b : list event) :
  saved_count (a ++ b) = saved_count a + saved_count b.
Proof.
  unfold saved_count. rewrite List.filter_app, length_app. lia.
Qed.

Lemma entry_saves_nothing (evs : list event) :
  Forall (fun e => entry_event e /\ is_overall_progress e = false) evs ->
  saved_count evs = 0.
Proof.
  unfold saved_count. induction 1 as [ | e evs [_ He] _ IH]; [reflexivity | ].
  cbn [List.filter]. rewrite He. exact IH.
Qed.

Lemma stage_events_save_nothing (d : string) (evs : list event) :
  Forall (stage_event d) evs -> saved_count evs = 0.
Proof.
  unfold saved_count. induction 1 as [ | e evs He _ IH]; [reflexivity | ].
  destruct e; cbn in He; try contradiction; exact IH.
Qed.

Lemma stage_events_no_report (d : string) (evs : list event) :
  Forall (stage_event d) evs -> Forall (fun e => is_report e = false) evs.
Proof.
  induction 1 as [ | e evs He _ IH]; constructor; [ | exact IH].
  destruct e; cbn in He; try contradiction; reflexivity.
Qed.

(** The batch loop from any iteration on: it ends normally, having removed
    every directory it made and counted each saved file once. *)
Lemma convert_loop_outcome (E : env) (G : gui) (outdir : string) (total : Z) :
  0 < total < 2 ^ 384 ->
  forall (entries : list entry) (k : nat) (s : state),
    0 <= done s -> done s + Z.of_nat (length entries) < 2 ^ 384 ->
    exists s1 evs,
      convert_loop E G outdir total k entries s = (Ret tt, s1) /\
      events s1 = events s ++ evs /\
      done s1 = done s + saved_count evs /\
      0 <= saved_count evs <= Z.of_nat (length entries) /\
      live_dirs evs [] = [] /\
      Forall (fun e => is_report e = false) evs.
Proof.
  intros Ht. induction entries as [ | e rest IH]; intros k s H0 Hlim.
  - exists s, []. cbn [convert_loop]. rewrite app_nil_r.
    change (saved_count []) with 0. cbn [length].
    split; [reflexivity | ]. split; [reflexivity | ]. split; [lia | ].
    split; [lia | ]. split; [reflexivity | constructor].
  - cbn [length] in Hlim. cbn [convert_loop].
    set (s0 := MkState (fs s) (events s ++ [Poll k (stop_flag E k)]) (done s)).
    rewrite (bind_ret _ _ s s0 tt) by reflexivity.
    destruct (stop_flag E k) eqn:Hstop.
    + exists (MkState (fs s)
                      ((events s ++ [Poll k true]) ++ [Log "Stopped by user."])
                      (done s)),
        [Poll k true; Log "Stopped by user."].
      split; [reflexivity | ]. cbn [events done].
      split; [rewrite <- app_assoc; reflexivity | ].
      change (saved_count [Poll k true; Log "Stopped by user."]) with 0.
      split; [lia | ]. split; [lia | ].
      split; [reflexivity | repeat constructor].
    + destruct (convert_entry_spec E G outdir k e s0)
        as (b & s2 & evs2 & Hrun & Hd2 & He2 & Hf2).
      rewrite (bind_ret _ _ s0 s2 b) by exact Hrun.
      set (d := mkdtemp E k) in *.
      assert (Hds : done s2 = done s) by (rewrite Hd2; reflexivity).
      set (evsE := Log ("Processing: " +:+ path e) :: Mkdtemp d
                   :: evs2 ++ [Rmtree d]) in *.
      assert (Hlive : live_dirs evsE [] = []).
      { unfold evsE. cbn [live_dirs]. rewrite live_dirs_app. cbn [live_dirs].
        apply rmtree_clears. apply (stage_events_live d evs2 Hf2).
        repeat constructor. }
      assert (Hsaved : saved_count evsE = 0).
      { unfold evsE.
        change (saved_count (evs2 ++ [Rmtree d]) = 0).
        rewrite saved_count_app, (stage_events_save_nothing d evs2 Hf2).
        reflexivity. }
      assert (Hrep : Forall (fun e => is_report e = false) evsE).
      { unfold evsE. repeat constructor. apply Forall_app. split.
        - apply (stage_events_no_report d). exact Hf2.
        - repeat constructor. }
      destruct b.
      * destruct (percent_defined (done s2 + 1) total
                    ltac:(rewrite Hds; lia) Ht) as (p & Hp).
        set (tail := [OverallProgress p; CurrentProgress 0;
                      Log ("Saved: " +:+ outpath_of outdir (path e))]).
        set (s3 := MkState (fs s2) (events s2 ++ tail) (done s2 + 1)).
        assert (Hstep :
          (modify (fun s => MkState (fs s) (events s) (done s + 1)) ;;
           d ← gets done;
           pct ← lift (percent d total);
           emit (OverallProgress pct) ;;
           emit (CurrentProgress 0) ;;
           log ("Saved: " +:+ outpath_of outdir (path e))) s2 = (Ret tt, s3)).
        { unfold mbind, M_bind, mbind_M, log, emit, modify, gets, lift.
          cbn [done events fs]. rewrite Hp. unfold s3, tail.
          cbn [done events fs]. rewrite <- !app_assoc. reflexivity. }
        rewrite (bind_ret _ _ s2 s3 tt) by exact Hstep.
        destruct (IH (S k) s3) as (s4 & evs4 & Hrun4 & He4 & Hd4 & Hc4 & Hl4 & Hr4).
        { unfold s3. cbn [done]. lia. }
        { unfold s3. cbn [done]. lia. }
        exists s4, (Poll k false :: evsE ++ tail ++ evs4).
        split; [exact Hrun4 | ].
        split.
        { rewrite He4. unfold s3. cbn [events]. rewrite He2. unfold s0.
          cbn [events]. fold evsE. rewrite <- !app_assoc. reflexivity. }
        assert (Hcount : saved_count (Poll k false :: evsE ++ tail ++ evs4)
                         = 1 + saved_count evs4).
        { change (saved_count (evsE ++ tail ++ evs4) = 1 + saved_count evs4).
          rewrite !saved_count_app, Hsaved. reflexivity. }
        rewrite Hcount.
        split; [rewrite Hd4; unfold s3; cbn [done]; lia | ].
        split; [cbn [length]; lia | ].
        split.
        { change (live_dirs (evsE ++ tail ++ evs4) [] = []).
          rewrite live_dirs_app, Hlive, live_dirs_app. exact Hl4. }
        constructor; [reflexivity | ].
        apply Forall_app. split; [exact Hrep | ].
        apply Forall_app. split; [repeat constructor | exact Hr4].
      * rewrite (bind_ret _ _ s2 s2 tt) by reflexivity.
        destruct (IH (S k) s2) as (s4 & evs4 & Hrun4 & He4 & Hd4 & Hc4 & Hl4 & Hr4).
        { lia. }
        { lia. }
        exists s4, (Poll k false :: evsE ++ evs4).
        split; [exact Hrun4 | ].
        split.
        { rewrite He4, He2. unfold s0. cbn [events]. fold evsE.
          rewrite <- !app_assoc. reflexivity. }
        assert (Hcount : saved_count (Poll k false :: evsE ++ evs4)
                         = saved_count evs4).
        { change (saved_count (evsE ++ evs4) = saved_count evs4).
          rewrite saved_count_app, Hsaved. reflexivity. }
        rewrite Hcount.
        split; [rewrite Hd4; lia | ].
        split; [cbn [length]; lia | ].
        split.
        { change (live_dirs (evsE ++ evs4) [] = []).
          rewrite live_dirs_app, Hlive. exact Hl4. }
        constructor; [reflexivity | ].
        apply Forall_app. split; [exact Hrep | exact Hr4].
Qed.

(** X8.  The completion contract of the portrait worker, as long as every
    [tempfile.mkdtemp] returns a directory (the call stands before the
    [try] of its entry, and [mkdtemp] of the environment always gives
    one): for every batch, every setting and every behaviour of ffmpeg, of
    [shutil.copy] and of the Stop button, [_worker_convert] ends normally
    with exactly one completion report, its last four events; the count it
    reports is the number of files saved (one overall-progress update each)
    and lies between 0 and the batch size; and every temporary directory it
    made has been removed. *)
Theorem worker_always_reports_once (E : env) (G : gui)
    (entries : list entry) (outdir : string) (s : state) :
  let total := Z.of_nat (length entries) in
  total < 2 ^ 384 -> done s = 0 ->
  exists s' evs,
    _worker_convert E G entries outdir s = (Ret tt, s') /\
    events s' =
      events s ++ evs ++
      [Status "Done"; ConvertButton "normal";
       Log ("Completed " +:+ str_of_int (done s') +:+ "/"
            +:+ str_of_int total +:+ " files.");
       MessageBox "Done"
         ("Finished " +:+ str_of_int (done s') +:+ "/"
          +:+ str_of_int total +:+ " files.")] /\
    Forall (fun e => is_report e = false) evs /\
    done s' = saved_count evs /\
    0 <= done s' <= total /\
    live_dirs evs [] = [].
Proof.
  intros total Htot Hdone.
  assert (Hloop : exists s1 evs,
            convert_loop E G outdir total 0 entries s = (Ret tt, s1) /\
            events s1 = events s ++ evs /\
            done s1 = done s + saved_count evs /\
            0 <= saved_count evs <= Z.of_nat (length entries) /\
            live_dirs evs [] = [] /\
            Forall (fun e => is_report e = false) evs).
  { destruct entries as [ | e rest].
    - exists s, []. cbn [convert_loop]. rewrite app_nil_r.
      change (saved_count []) with 0. cbn [length].
    split; [reflexivity | ]. split; [reflexivity | ]. split; [lia | ].
    split; [lia | ]. split; [reflexivity | constructor].
    - apply convert_loop_outcome.
      + split; [ | exact Htot]. unfold total. cbn [length]. lia.
      + lia.
      + fold total. lia. }
  destruct Hloop as (s1 & evs & Hrun & Hev & Hd & Hc & Hl & Hr).
  unfold _worker_convert. fold total.
  rewrite (bind_ret _ _ s s1 tt) by exact Hrun.
  eexists _, evs. split.
  - unfold mbind, M_bind, mbind_M, log, emit, modify, gets.
    cbn [events done fs]. reflexivity.
  - cbn [events done fs]. rewrite Hev.
    split; [rewrite <- !app_assoc; reflexivity | ].
    split; [exact Hr | ]. split; [lia | ]. split; [fold total in Hc; lia | ].
    exact Hl.
Qed.

Lemma worker_always_reports_once_witness :
  exists s' evs,
    _worker_convert (Samples.booth 9 "/v/b.mp4") Samples.plain Samples.clips
      "out" (initial_state ∅) = (Ret tt, s') /\
    done s' = saved_count evs /\ 0 <= done s' <= 2 /\
    live_dirs evs [] = [].
Proof.
  destruct (worker_always_reports_once (Samples.booth 9 "/v/b.mp4")
              Samples.plain Samples.clips "out" (initial_state ∅))
    as (s' & evs & Hrun & _ & _ & Hd & Hc & Hl).
  - vm_compute. reflexivity.
  - reflexivity.
  - exists s', evs. split; [exact Hrun | ]. split; [exact Hd | ].
    split; [exact Hc | exact Hl].
Defined.

End BatchFacts.

Module ModeFacts.
Import Portrait PortraitFilters FilterFacts.

Lemma av_rescale_nonneg (a b c : Z) :
  0 <= a -> 0 <= b -> 0 < c -> 0 <= av_rescale a b c.
Proof.
  intros Ha Hb Hc. unfold av_rescale. apply Z.div_pos; [ | exact Hc].
  pose proof (Z.div_pos c 2 ltac:(lia) ltac:(lia)). nia.
Qed.

Lemma av_rescale_pos (a b c : Z) :
  0 <= a -> 0 <= b -> 0 < c -> c <= 2 * (a * b) -> 0 < av_rescale a b c.
Proof.
  intros Ha Hb Hc Hab. unfold av_rescale.
  apply Z.div_str_pos. split; [exact Hc | ].
  pose proof (Z.div_mod c 2 ltac:(lia)).
  pose proof (Z.mod_pos_bound c 2 ltac:(lia)). lia.
Qed.

(** The blur string is the graph of the two chains, overlaid. *)
Lemma build_blur_vf_graph (W H blur_strength : Z) :
  build_blur_vf W H blur_strength
  = "[0:v]" +:+ show_chain (blur_fg_chain W H) +:+ "[fg];"
    +:+ "[0:v]"
    +:+ show_chain (blur_bg_chain W H (Z.max 1 blur_strength)) +:+ "[bg];"
    +:+ "[bg][fg]overlay=(W-w)/2:(H-h)/2".
Proof.
  unfold build_blur_vf, blur_fg_chain, blur_bg_chain, show_chain, show_filter,
    show_size.
  rewrite !append_assoc. cbn. rewrite ?append_assoc. reflexivity.
Qed.

(** X9.  The two layers of the graph [build_blur_vf] writes.  The string
    is the foreground chain (scale down to fit, pad) and the background
    chain (scale up to cover, crop, blur with a strength of at least 1),
    overlaid; each chain, run on its own on a source whose aspect ratio is
    not beyond 1 : 2H or 2W : 1, gives exactly W x H.  This is a statement
    about the two chains of the string, not about what ffmpeg makes of the
    whole graph where the worker passes it. *)
Theorem blur_layers_fill_target (W H blur_strength iw ih : Z) :
  0 < W -> 0 < H -> 0 < iw -> 0 < ih ->
  ih <= 2 * (H * iw) -> iw <= 2 * (W * ih) ->
  let s := Z.max 1 blur_strength in
  build_blur_vf W H blur_strength
  = "[0:v]" +:+ show_chain (blur_fg_chain W H) +:+ "[fg];"
    +:+ "[0:v]" +:+ show_chain (blur_bg_chain W H s) +:+ "[bg];"
    +:+ "[bg][fg]overlay=(W-w)/2:(H-h)/2" /\
  1 <= s /\
  chain_size (blur_fg_chain W H) (iw, ih) = Ret (W, H) /\
  chain_size (blur_bg_chain W H s) (iw, ih) = Ret (W, H).
Proof.
  intros HW HH Hiw Hih Htall Hwide s.
  split; [apply build_blur_vf_graph | ]. split; [unfold s; lia | ].
  pose proof (av_rescale_pos H iw ih ltac:(lia) ltac:(lia) Hih Htall) as Hw.
  pose proof (av_rescale_pos W ih iw ltac:(lia) ltac:(lia) Hiw Hwide) as Hh.
  split.
  - unfold blur_fg_chain. cbn [chain_size filter_size].
    unfold scale_size, eval_size. cbv zeta.
    replace (W <? -1) with false by (symmetry; apply Z.ltb_ge; lia).
    replace (H <? -1) with false by (symmetry; apply Z.ltb_ge; lia).
    replace (W <? 0) with false by (symmetry; apply Z.ltb_ge; lia).
    replace (H <? 0) with false by (symmetry; apply Z.ltb_ge; lia).
    cbn [andb]. cbv iota beta.
    replace (W <? 0) with false by (symmetry; apply Z.ltb_ge; lia).
    replace (H <? 0) with false by (symmetry; apply Z.ltb_ge; lia).
    replace (Z.min (av_rescale H iw ih) W <=? 0) with false
      by (symmetry; apply Z.leb_gt; lia).
    replace (Z.min (av_rescale W ih iw) H <=? 0) with false
      by (symmetry; apply Z.leb_gt; lia).
    cbn [orb mbind outcome_bind obind chain_size filter_size].
    replace (W <? Z.min (av_rescale H iw ih) W) with false
      by (symmetry; apply Z.ltb_ge; lia).
    replace (H <? Z.min (av_rescale W ih iw) H) with false
      by (symmetry; apply Z.ltb_ge; lia).
    reflexivity.
  - unfold blur_bg_chain. cbn [chain_size filter_size].
    unfold scale_size, eval_size. cbv zeta.
    replace (W <? -1) with false by (symmetry; apply Z.ltb_ge; lia).
    replace (H <? -1) with false by (symmetry; apply Z.ltb_ge; lia).
    replace (W <? 0) with false by (symmetry; apply Z.ltb_ge; lia).
    replace (H <? 0) with false by (symmetry; apply Z.ltb_ge; lia).
    cbn [andb]. cbv iota beta.
    replace (W <? 0) with false by (symmetry; apply Z.ltb_ge; lia).
    replace (H <? 0) with false by (symmetry; apply Z.ltb_ge; lia).
    replace (Z.max (av_rescale H iw ih) W <=? 0) with false
      by (symmetry; apply Z.leb_gt; lia).
    replace (Z.max (av_rescale W ih iw) H <=? 0) with false
      by (symmetry; apply Z.leb_gt; lia).
    cbn [orb mbind outcome_bind obind chain_size filter_size].
    replace (Z.max (av_rescale H iw ih) W <? W) with false
      by (symmetry; apply Z.ltb_ge; lia).
    replace (Z.max (av_rescale W ih iw) H <? H) with false
      by (symmetry; apply Z.ltb_ge; lia).
    replace (W <=? 0) with false by (symmetry; apply Z.leb_gt; lia).
    replace (H <=? 0) with false by (symmetry; apply Z.leb_gt; lia).
    reflexivity.
Qed.

Lemma blur_layers_fill_target_witness :
  chain_size (blur_fg_chain 1920 1080) (1080, 1920) = Ret (1920, 1080) /\
  chain_size (blur_bg_chain 1920 1080 (Z.max 1 0)) (1080, 1920)
  = Ret (1920, 1080).
Proof.
  destruct (blur_layers_fill_target 1920 1080 0 1080 1920
              ltac:(lia) ltac:(lia) ltac:(lia) ltac:(lia) ltac:(lia)
              ltac:(lia)) as (_ & _ & Hfg & Hbg).
  split; [exact Hfg | exact Hbg].
Defined.

(** The scale stage of the zoom chain: the height is the target's, the
    width follows the aspect ratio, rounded to an even number. *)
Lemma zoom_scale (H iw ih : Z) :
  0 < H ->
  scale_size (Keep 2) (Px H) None iw ih
  = if av_rescale H iw (ih * 2) * 2 <=? 0
    then Raise "Rescaled value for width or height is too big."
    else Ret (av_rescale H iw (ih * 2) * 2, H).
Proof.
  intros HH. unfold scale_size, eval_size. cbv zeta.
  change (- (2)) with (-2).
  change (-2 <? -1) with true. change (-2 <? 0) with true.
  replace (H <? -1) with false by (symmetry; apply Z.ltb_ge; lia).
  replace (H <? 0) with false by (symmetry; apply Z.ltb_ge; lia).
  cbn [andb]. cbv iota beta.
  change (-2 <? 0) with true. change (- (-2)) with 2. cbv iota.
  replace (H <? 0) with false by (symmetry; apply Z.ltb_ge; lia).
  replace (H <=? 0) with false by (symmetry; apply Z.leb_gt; lia).
  rewrite orb_false_r. reflexivity.
Qed.

Lemma even_floor_bounds (x : Z) : x - 1 <= x / 2 * 2 <= x.
Proof.
  pose proof (Z.div_mod x 2 ltac:(lia)).
  pose proof (Z.mod_pos_bound x 2 ltac:(lia)). lia.
Qed.

(** The width the zoom chain scales to, between the exact width rounded
    down and that plus one. *)
Lemma zoom_width_bounds (H iw ih : Z) :
  0 < H -> 0 < iw -> 0 < ih ->
  H * iw / ih <= av_rescale H iw (ih * 2) * 2 <= H * iw / ih + 1.
Proof.
  intros HH Hiw Hih. unfold av_rescale.
  rewrite Z.div_mul by lia.
  rewrite <- Z.div_div by lia.
  replace (H * iw + ih) with (H * iw + 1 * ih) by lia.
  rewrite Z.div_add by lia.
  pose proof (even_floor_bounds (H * iw / ih + 1)). lia.
Qed.

(** X10.  Zoom-crop mode only works on sources at least as wide as the
    target: such a source is scaled to the target height and cropped to
    exactly W x H, but for a portrait or square source the scaled frame is
    narrower than a landscape target and the crop is refused, so no frame
    comes out; the [zoom] argument plays no part. *)
Theorem zoom_mode_needs_wide_source (W H iw ih : Z) (zoom : float) :
  0 < W -> 0 < H -> 0 < iw -> 0 < ih ->
  build_zoom_vf W H zoom = show_chain (zoom_chain W H) /\
  (W * ih <= H * iw ->
   chain_size (zoom_chain W H) (iw, ih) = Ret (W, H)) /\
  (iw <= ih -> H + 1 < W ->
   exists e, chain_size (zoom_chain W H) (iw, ih) = Raise e).
Proof.
  intros HW HH Hiw Hih.
  split; [apply build_zoom_vf_chain | ].
  pose proof (zoom_width_bounds H iw ih HH Hiw Hih) as Hb.
  unfold zoom_chain. cbn [chain_size filter_size].
  rewrite zoom_scale by exact HH.
  split.
  - intros Hwide.
    assert (Hq : W <= H * iw / ih).
    { apply Z.div_le_lower_bound; lia. }
    replace (av_rescale H iw (ih * 2) * 2 <=? 0) with false
      by (symmetry; apply Z.leb_gt; lia).
    cbn [mbind outcome_bind obind chain_size filter_size].
    replace (av_rescale H iw (ih * 2) * 2 <? W) with false
      by (symmetry; apply Z.ltb_ge; lia).
    replace (H <? H) with false by (symmetry; apply Z.ltb_ge; lia).
    replace (W <=? 0) with false by (symmetry; apply Z.leb_gt; lia).
    replace (H <=? 0) with false by (symmetry; apply Z.leb_gt; lia).
    reflexivity.
  - intros Hport Hland.
    assert (Hq : H * iw / ih <= H).
    { apply Z.div_le_upper_bound; [lia | nia]. }
    destruct (av_rescale H iw (ih * 2) * 2 <=? 0); [eexists; reflexivity | ].
    cbn [mbind outcome_bind obind chain_size filter_size].
    replace (av_rescale H iw (ih * 2) * 2 <? W) with true
      by (symmetry; apply Z.ltb_lt; lia).
    eexists. reflexivity.
Qed.

Lemma zoom_mode_needs_wide_source_witness :
  chain_size (zoom_chain 1920 1080) (3840, 1608) = Ret (1920, 1080) /\
  exists e, chain_size (zoom_chain 1920 1080) (1080, 1920) = Raise e.
Proof.
  destruct (zoom_mode_needs_wide_source 1920 1080 3840 1608 (float_of_int 1)
              ltac:(lia) ltac:(lia) ltac:(lia) ltac:(lia)) as (_ & Hok & _).
  destruct (zoom_mode_needs_wide_source 1920 1080 1080 1920 (float_of_int 1)
              ltac:(lia) ltac:(lia) ltac:(lia) ltac:(lia)) as (_ & _ & Hbad).
  split; [apply Hok; lia | apply Hbad; lia].
Defined.

(** X11.  Letterbox mode yields the target size for every source that is
    at least as wide as the target's aspect ratio (and not wider than its
    own height times its width bound): the source is never scaled up, its
    height follows the aspect ratio, and the padding fills the rest. *)
Theorem letterbox_fits_wide_sources (W H iw ih : Z) (hexcolor : string) :
  0 < W -> 0 < H -> Z.even H = true -> 0 < iw -> 0 < ih ->
  iw <= Z.min W iw * ih ->
  Z.min W iw * ih <= H * iw ->
  build_letterbox_vf W H hexcolor = show_chain (letterbox_chain W H hexcolor) /\
  chain_size (letterbox_chain W H hexcolor) (iw, ih) = Ret (W, H).
Proof.
  intros HW HH Heven Hiw Hih Hthin Hwide.
  split; [apply build_letterbox_vf_chain | ].
  unfold letterbox_chain. cbn [chain_size filter_size].
  rewrite letterbox_scale by lia.
  remember (Z.min W iw) as w eqn:Ew.
  assert (Hw : 0 < w <= W) by lia.
  assert (Hh : 0 < av_rescale w ih (iw * 2) * 2 <= H).
  { unfold av_rescale. rewrite Z.div_mul by lia.
    apply Z.even_spec in Heven. destruct Heven as [h ->].
    split.
    - assert (1 <= (w * ih + iw) / (iw * 2)); [ | lia].
      apply Z.div_le_lower_bound; lia.
    - assert ((w * ih + iw) / (iw * 2) <= h); [ | lia].
      assert ((w * ih + iw) / (iw * 2) < h + 1); [ | lia].
      apply Z.div_lt_upper_bound; nia. }
  replace (av_rescale w ih (iw * 2) * 2 <=? 0) with false
    by (symmetry; apply Z.leb_gt; lia).
  cbn [mbind outcome_bind obind filter_size].
  replace (W <? w) with false by (symmetry; apply Z.ltb_ge; lia).
  replace (H <? av_rescale w ih (iw * 2) * 2) with false
    by (symmetry; apply Z.ltb_ge; lia).
  reflexivity.
Qed.

Lemma letterbox_fits_wide_sources_witness :
  chain_size (letterbox_chain 1920 1080 "#000000") (3840, 1608)
  = Ret (1920, 1080).
Proof.
  apply (letterbox_fits_wide_sources 1920 1080 3840 1608 "#000000");
    first [reflexivity | lia].
Defined.

End ModeFacts.

Module EntryFacts.
Import Portrait FloatFacts EffFacts WorkerFacts.

(** X12.  An entry whose video render fails is skipped: after the failed
    command nothing else is run (no audio stage, no copy), the failure is
    logged with at most 400 characters of ffmpeg's error text, the temporary
    directory is removed, and the entry does not count as done. *)
Theorem failed_render_skips_entry (E : env) (G : gui) (outdir : string)
    (k : nat) (e : entry) (s : state) (cmdA : list string)
    (out err : string) :
  let d := mkdtemp E k in
  let W := fst (target_size (res_var G)) in
  let H := snd (target_size (res_var G)) in
  video_cmd E G W (video_filter G W H) (path e)
            (path_join d "video_only.mp4") = Ret cmdA ->
  run_cmd E cmdA = (false, out, err) ->
  convert_entry E G outdir k e s
  = (Ret false,
     MkState (rmtree d (rmtree d (fs s)))
             (events s ++
              [Log ("Processing: " +:+ path e); Mkdtemp d;
               Log "Rendering video-only to temp file...";
               Run cmdA false;
               Log ("Video render failed: " +:+ take_str 400 err);
               Rmtree d; Rmtree d])
             (done s)).
Proof.
  intros d W H Hcmd Hrun.
  unfold convert_entry. unfold W, H in Hcmd.
  destruct (target_size (res_var G)) as [W0 H0]. cbn [fst snd] in Hcmd.
  fold d. unfold convert_steps. rewrite Hcmd.
  cbv beta iota delta [mbind M_bind mbind_M mret M_ret mret_M lift log emit
                       do_run do_rmtree set_fs modify gets attempt].
  rewrite Hrun.
  cbv beta iota delta [mbind M_bind mbind_M mret M_ret mret_M lift log emit
                       do_run do_rmtree set_fs modify gets attempt].
  cbn [negb fs events done].
  rewrite <- !app_assoc. reflexivity.
Qed.

Lemma failed_render_skips_entry_witness :
  fst (convert_entry (Samples.booth 9 "/v/a.mp4") Samples.plain "out" 0
         (MkEntry "/v/a.mp4" (Some (1080, 1920))) (initial_state ∅))
  = Ret false.
Proof.
  rewrite (failed_render_skips_entry (Samples.booth 9 "/v/a.mp4")
             Samples.plain "out" 0 (MkEntry "/v/a.mp4" (Some (1080, 1920)))
             (initial_state ∅)
             ["ffmpeg"; "-y"; "-i"; "/v/a.mp4"; "-vf";
              video_filter Samples.plain 1920 1080; "-c:v"; "libx264";
              "-preset"; "medium"; "-pix_fmt"; "yuv420p"; "-an";
              "/tmp/p2l_0/video_only.mp4"]
             EmptyString "ffmpeg: error").
  - reflexivity.
  - reflexivity.
  - vm_compute. reflexivity.
Defined.

Lemma keep_audio_cmd_last (tmp_video src outpath : string) :
  List.last (keep_audio_cmd tmp_video src outpath) EmptyString = outpath.
Proof. reflexivity. Qed.

(** X13.  Without background music the audio stage is one ffmpeg run that
    copies the video and maps the original audio if there is any
    ("1:a?"); when that run fails, the failure is logged and the video-only
    render is copied to the output path, so the output is the silent
    video. *)
Theorem original_audio_or_silent_copy (E : env) (G : gui)
    (tmp_video src outpath : string) (s : state) :
  truthy (bgm_path G) = None ->
  let cmd := keep_audio_cmd tmp_video src outpath in
  (forall out err,
     run_cmd E cmd = (true, out, err) ->
     exists s',
       audio_stage E G tmp_video src outpath s = (Ret tt, s') /\
       fs s' !! outpath = Some (Encoded cmd) /\
       events s' = events s ++ [Run cmd true]) /\
  (forall out err video,
     run_cmd E cmd = (false, out, err) ->
     copy_error E tmp_video outpath = None ->
     fs s !! tmp_video = Some video ->
     exists s',
       audio_stage E G tmp_video src outpath s = (Ret tt, s') /\
       fs s' !! outpath = Some video /\
       events s' =
         events s ++
         [Run cmd false;
          Log ("Audio copy failed: " +:+ take_str 400 err
               +:+ "; saving video-only instead.");
          Copy tmp_video outpath]).
Proof.
  intros Hbgm cmd. split.
  - intros out err Hrun. unfold audio_stage. rewrite Hbgm. fold cmd.
    cbv beta iota delta [mbind M_bind mbind_M mret M_ret mret_M log emit
                         do_run do_copy set_fs modify gets].
    rewrite Hrun.
    cbv beta iota delta [mbind M_bind mbind_M mret M_ret mret_M log emit
                         do_run do_copy set_fs modify gets].
    cbn [negb fs events done].
    eexists. split; [reflexivity | ]. cbn [fs events].
    split; [ | reflexivity].
    unfold cmd at 1. rewrite keep_audio_cmd_last. apply lookup_insert_eq.
  - intros out err video Hrun Hcp Hvid. unfold audio_stage. rewrite Hbgm.
    fold cmd.
    cbv beta iota delta [mbind M_bind mbind_M mret M_ret mret_M log emit
                         do_run do_copy set_fs modify gets].
    rewrite Hrun.
    cbv beta iota delta [mbind M_bind mbind_M mret M_ret mret_M log emit
                         do_run do_copy set_fs modify gets].
    cbn [negb fs events done].
    rewrite Hcp. unfold copy_file.
    cbv beta iota delta [mbind M_bind mbind_M mret M_ret mret_M log emit
                         do_run do_copy set_fs modify gets].
    cbn [negb fs events done].
    rewrite Hvid. cbn.
    eexists. split; [reflexivity | ]. cbn [fs events].
    split; [apply lookup_insert_eq | ].
    rewrite <- !app_assoc. reflexivity.
Qed.

Lemma original_audio_or_silent_copy_witness :
  exists s',
    audio_stage (Samples.booth 9 "/tmp/p2l_0/video_only.mp4") Samples.plain
      "/tmp/p2l_0/video_only.mp4" "/v/a.mp4" "out/a_landscape.mp4"
      (initial_state {[ "/tmp/p2l_0/video_only.mp4" := Media "silent video" ]})
    = (Ret tt, s') /\
    fs s' !! "out/a_landscape.mp4" = Some (Media "silent video").
Proof.
  destruct (original_audio_or_silent_copy
              (Samples.booth 9 "/tmp/p2l_0/video_only.mp4") Samples.plain
              "/tmp/p2l_0/video_only.mp4" "/v/a.mp4" "out/a_landscape.mp4"
              (initial_state
                 {[ "/tmp/p2l_0/video_only.mp4" := Media "silent video" ]})
              eq_refl) as [_ Hfail].
  destruct (Hfail EmptyString "ffmpeg: error" (Media "silent video"))
    as (s' & Hrun & Hfs & _).
  - vm_compute. reflexivity.
  - reflexivity.
  - reflexivity.
  - exists s'. split; [exact Hrun | exact Hfs].
Defined.

(** X14.  The audio mix command with trimming on and looping off (the
    default settings) is built by inserting "-shortest" before the last
    element of a list that does not hold the output path yet: the flag lands
    between "-b:a" and its value, so ffmpeg reads it as the bit rate and
    "192k" as an output file, and "-shortest" is never a switch of the
    command.  With looping on, the command takes the looped track as third
    input and never holds "-shortest", whatever the trim setting. *)
Theorem mix_command_trim_and_loop (E : env)
    (tmp_video src bgm outpath : string) (vol : float) :
  mix_cmd E tmp_video src bgm outpath vol true false
  = ["ffmpeg"; "-y"; "-i"; tmp_video; "-i"; src; "-i"; bgm;
     "-filter_complex"; amix_filter E vol;
     "-map"; "0:v"; "-map"; "[aout]"; "-c:v"; "copy"; "-c:a"; "aac";
     "-b:a"; "-shortest"; "192k"; outpath] /\
  inv_options (parse (mix_cmd E tmp_video src bgm outpath vol true false))
  = [("-filter_complex", amix_filter E vol); ("-map", "0:v");
     ("-map", "[aout]"); ("-c:v", "copy"); ("-c:a", "aac");
     ("-b:a", "-shortest")] /\
  head (inv_outputs (parse (mix_cmd E tmp_video src bgm outpath vol true
                              false))) = Some "192k" /\
  (forall trim,
     mix_cmd E tmp_video src bgm outpath vol trim true
     = ["ffmpeg"; "-y"; "-i"; tmp_video; "-i"; src;
        "-stream_loop"; "-1"; "-i"; bgm;
        "-filter_complex"; amix_filter E vol;
        "-map"; "0:v"; "-map"; "[aout]"; "-c:v"; "copy"; "-c:a"; "aac";
        "-b:a"; "192k"; outpath]) /\
  (forall trim,
     inv_inputs (parse (mix_cmd E tmp_video src bgm outpath vol trim true))
     = [tmp_video; src; bgm]).
Proof.
  assert (Hcmd : mix_cmd E tmp_video src bgm outpath vol true false
                 = ["ffmpeg"; "-y"; "-i"; tmp_video; "-i"; src; "-i"; bgm;
                    "-filter_complex"; amix_filter E vol;
                    "-map"; "0:v"; "-map"; "[aout]"; "-c:v"; "copy";
                    "-c:a"; "aac";
                    "-b:a"; "-shortest"; "192k"; outpath]) by reflexivity.
  split; [exact Hcmd | ]. rewrite Hcmd.
  split; [ | split; [ | split]].
  - unfold parse. cbn.
    destruct (is_switch outpath); [reflexivity | ].
    destruct (startswith outpath "-"); reflexivity.
  - unfold parse. cbn.
    destruct (is_switch outpath); [reflexivity | ].
    destruct (startswith outpath "-"); reflexivity.
  - intros trim. reflexivity.
  - intros trim. unfold mix_cmd, parse. cbn.
    destruct (is_switch outpath); [reflexivity | ].
    destruct (startswith outpath "-"); reflexivity.
Qed.

End EntryFacts.

Module PathFacts.
Import Portrait PathVocabulary FilterFacts.

Lemma rev_string_acc_spec (s acc : string) :
  rev_string_acc s acc = rev_string s +:+ acc.
Proof.
  revert acc. induction s as [ | c r IH]; intros acc; [reflexivity | ].
  unfold rev_string. cbn [rev_string_acc].
  rewrite (IH (String c acc)), (IH (String c EmptyString)).
  rewrite append_assoc. reflexivity.
Qed.

Lemma rev_string_cons (c : ascii) (s : string) :
  rev_string (String c s) = rev_string s +:+ String c EmptyString.
Proof. unfold rev_string at 1. cbn [rev_string_acc]. apply rev_string_acc_spec. Qed.

Lemma rev_string_app (a b : string) :
  rev_string (a +:+ b) = rev_string b +:+ rev_string a.
Proof.
  induction a as [ | c a IH].
  - cbn. rewrite append_empty_r. reflexivity.
  - change (String c a +:+ b) with (String c (a +:+ b)).
    rewrite !rev_string_cons, IH, append_assoc. reflexivity.
Qed.

Lemma rev_string_involutive (s : string) : rev_string (rev_string s) = s.
Proof.
  induction s as [ | c s IH]; [reflexivity | ].
  rewrite rev_string_cons, rev_string_app, IH. reflexivity.
Qed.

Lemma no_slash_app (a b : string) :
  no_slash (a +:+ b) = (no_slash a && no_slash b)%bool.
Proof.
  induction a as [ | c a IH]; [reflexivity | ].
  change (String c a +:+ b) with (String c (a +:+ b)).
  cbn [no_slash]. rewrite IH, andb_assoc. reflexivity.
Qed.

Lemma no_slash_rev (s : string) : no_slash (rev_string s) = no_slash s.
Proof.
  induction s as [ | c s IH]; [reflexivity | ].
  rewrite rev_string_cons, no_slash_app, IH. cbn [no_slash].
  rewrite andb_true_r, andb_comm. reflexivity.
Qed.

(** What follows a slash is all that counts for the base name. *)
Lemma basename_from_slash (x b current : string) :
  basename_from (x +:+ String "/" b) current = basename_from b EmptyString.
Proof.
  revert current. induction x as [ | c x IH]; intros current.
  - reflexivity.
  - change (String c x +:+ String "/" b) with (String c (x +:+ String "/" b)).
    cbn [basename_from]. destruct (Ascii.eqb c "/"); apply IH.
Qed.

Lemma basename_from_name (s current : string) :
  no_slash s = true -> basename_from s current = rev_string current +:+ s.
Proof.
  revert current. induction s as [ | c s IH]; intros current Hs.
  - cbn. rewrite append_empty_r. reflexivity.
  - cbn [no_slash] in Hs. apply andb_true_iff in Hs. destruct Hs as [Hc Hs].
    cbn [basename_from]. destruct (Ascii.eqb c "/"); [discriminate | ].
    rewrite IH by exact Hs. rewrite rev_string_cons, append_assoc.
    reflexivity.
Qed.

Lemma basename_from_no_slash (s current : string) :
  no_slash current = true -> no_slash (basename_from s current) = true.
Proof.
  revert current. induction s as [ | c s IH]; intros current Hc.
  - cbn. rewrite no_slash_rev. exact Hc.
  - cbn [basename_from]. destruct (Ascii.eqb c "/") eqn:Hs.
    + apply IH. reflexivity.
    + apply IH. cbn [no_slash]. rewrite Hs, Hc. reflexivity.
Qed.

Lemma after_last_dot_split (s r : string) :
  after_last_dot s = Some r -> exists pre, s = pre +:+ String "." r.
Proof.
  induction s as [ | c s IH]; [discriminate | ].
  cbn [after_last_dot]. destruct (Ascii.eqb c ".") eqn:Hc.
  - intros [= ->]. apply Ascii.eqb_eq in Hc. subst c.
    exists EmptyString. reflexivity.
  - intros H. destruct (IH H) as (pre & ->). exists (String c pre).
    reflexivity.
Qed.

(** A name is its root followed by its extension, which is empty or starts
    with a dot. *)
Lemma splitext_root_split (name : string) :
  exists ext, name = splitext_root name +:+ ext /\
              (ext = EmptyString \/ exists r, ext = String "." r).
Proof.
  unfold splitext_root.
  destruct (after_last_dot (rev_string name)) as [rev_root | ] eqn:Hd.
  - destruct (all_dots rev_root).
    + exists EmptyString. rewrite append_empty_r.
      split; [reflexivity | left; reflexivity].
    + destruct (after_last_dot_split _ _ Hd) as (pre & Hsplit).
      exists (String "." (rev_string pre)). split; [ | right; eexists; reflexivity].
      rewrite <- (rev_string_involutive name) at 1. rewrite Hsplit.
      rewrite rev_string_app, rev_string_cons, append_assoc. reflexivity.
  - exists EmptyString. rewrite append_empty_r.
    split; [reflexivity | left; reflexivity].
Qed.

Lemma append_inj_l (a b c : string) : a +:+ b = a +:+ c -> b = c.
Proof.
  induction a as [ | ch a IH]; intros H; [exact H | ].
  apply IH. injection H. trivial.
Qed.

Lemma prefix_slash (s : string) :
  String.prefix "/" s = true -> exists t, s = String "/" t.
Proof.
  destruct s as [ | c s]; [cbn; discriminate | ].
  change (String.prefix "/" (String c s))
    with (if ascii_dec "/" c then String.prefix EmptyString s else false).
  destruct (ascii_dec "/" c) as [<- | Hne]; [ | intros H; discriminate H].
  intros _. exists s. reflexivity.
Qed.

(** The base name of a joined path is the name joined on. *)
Lemma basename_path_join (a name : string) :
  no_slash name = true -> basename (path_join a name) = name.
Proof.
  intros Hn. unfold path_join, basename.
  destruct (startswith name "/") eqn:Hs.
  { apply prefix_slash in Hs. destruct Hs as (t & ->). discriminate. }
  assert (Hname : basename_from name EmptyString = name)
    by (rewrite basename_from_name by exact Hn; reflexivity).
  destruct (String.eqb a EmptyString) eqn:Ha.
  { apply String.eqb_eq in Ha. subst a. exact Hname. }
  cbn [orb]. destruct (endswith a "/") eqn:He.
  - unfold endswith in He. change (rev_string "/") with "/"%string in He.
    apply prefix_slash in He. destruct He as (t & Ht).
    rewrite <- (rev_string_involutive a), Ht, rev_string_cons.
    rewrite append_assoc.
    change (String "/" EmptyString +:+ name) with (String "/" name).
    rewrite basename_from_slash. exact Hname.
  - change ("/" +:+ name) with (String "/" name).
    rewrite basename_from_slash. exact Hname.
Qed.

(** X15.  The output file of a conversion never has the name of its source:
    it is the source's base name with its extension replaced by
    "_landscape.mp4", placed in the output folder, so the converter cannot
    overwrite the video it reads, even when the output folder is the
    source's own. *)
Theorem output_never_overwrites_source (outdir src : string) :
  basename (outpath_of outdir src)
  = splitext_root (basename src) +:+ "_landscape.mp4" /\
  basename (outpath_of outdir src) <> basename src /\
  outpath_of outdir src <> src.
Proof.
  assert (Hbase : no_slash (basename src) = true).
  { unfold basename. apply basename_from_no_slash. reflexivity. }
  destruct (splitext_root_split (basename src)) as (ext & Hsplit & Hext).
  assert (Hroot : no_slash (splitext_root (basename src)) = true).
  { rewrite Hsplit, no_slash_app in Hbase.
    apply andb_true_iff in Hbase. tauto. }
  assert (Hname : basename (outpath_of outdir src)
                  = splitext_root (basename src) +:+ "_landscape.mp4").
  { unfold outpath_of. apply basename_path_join.
    rewrite no_slash_app, Hroot. reflexivity. }
  assert (Hne : basename (outpath_of outdir src) <> basename src).
  { rewrite Hname. intros Heq. rewrite Hsplit in Heq at 2.
    apply append_inj_l in Heq.
    destruct Hext as [-> | (r & ->)]; discriminate. }
  split; [exact Hname | ]. split; [exact Hne | ].
  intros Heq. apply Hne. rewrite Heq. reflexivity.
Qed.

End PathFacts.

(* ===================================================================== *)
(** * The thumbnail downloader                                            *)
(* ===================================================================== *)

Module ThumbFacts.
Import Thumbs FilterFacts EffFacts.

Lemma fromkeys_fold (ids acc : list string) :
  NoDup acc ->
  let r := fold_left (fun keys x =>
                        if existsb (String.eqb x) keys then keys
                        else keys ++ [x]) ids acc in
  NoDup r /\ (forall x, In x r <-> In x acc \/ In x ids).
Proof.
  revert acc. induction ids as [ | y ids IH]; intros acc Hacc.
  - cbn. split; [exact Hacc | ]. intros x. tauto.
  - cbn [fold_left]. destruct (existsb (String.eqb y) acc) eqn:Hy.
    + destruct (IH acc Hacc) as [Hnd Hin]. split; [exact Hnd | ].
      intros x. rewrite Hin. cbn [In].
      apply existsb_exists in Hy. destruct Hy as (z & Hz & Heq).
      apply String.eqb_eq in Heq. subst z.
      split; [tauto | ]. intros [H | [<- | H]]; tauto.
    + assert (Hnew : NoDup (acc ++ [y])).
      { apply NoDup_app. split; [exact Hacc | ]. split.
        - intros z Hz Hin. apply list_elem_of_singleton in Hin. subst z.
          assert (Hex : existsb (String.eqb y) acc = true).
          { apply existsb_exists. exists y. split.
            - apply list_elem_of_In. exact Hz.
            - apply String.eqb_refl. }
          congruence.
        - apply NoDup_singleton. }
      destruct (IH (acc ++ [y]) Hnew) as [Hnd Hin]. split; [exact Hnd | ].
      intros x. rewrite Hin, in_app_iff. cbn [In]. tauto.
Qed.

Lemma fromkeys_spec (ids : list string) :
  NoDup (fromkeys ids) /\ (forall x, In x (fromkeys ids) <-> In x ids).
Proof.
  destruct (fromkeys_fold ids [] (NoDup_nil_2 (A := string))) as [Hnd Hin].
  split; [exact Hnd | ]. intros x. unfold fromkeys. rewrite Hin.
  cbn [In]. tauto.
Qed.

Lemma take_id_spec (n : nat) (s id : string) :
  take_id n s = Some id ->
  String.length id = n /\ all_id_chars id = true /\
  exists rest, s = id +:+ rest.
Proof.
  revert s id. induction n as [ | n IH]; intros s id.
  - cbn. intros [= <-]. repeat split. exists s. reflexivity.
  - cbn [take_id]. destruct s as [ | c r]; [discriminate | ].
    destruct (is_id_char c) eqn:Hc; [ | discriminate].
    destruct (take_id n r) as [id' | ] eqn:Hid; [ | discriminate].
    cbn. intros [= <-].
    destruct (IH r id' Hid) as (Hlen & Hall & rest & ->).
    split; [cbn; congruence | ]. split.
    + unfold all_id_chars in *. cbn. rewrite Hc. exact Hall.
    + exists rest. reflexivity.
Qed.

Lemma prefix_split (p s : string) :
  String.prefix p s = true -> s = p +:+ drop_str (String.length p) s.
Proof.
  revert s. induction p as [ | a p IH]; intros s.
  - intros _. destruct s; reflexivity.
  - destruct s as [ | b s]; [cbn; discriminate | ].
    change (String.prefix (String a p) (String b s))
      with (if ascii_dec a b then String.prefix p s else false).
    destruct (ascii_dec a b) as [<- | ]; [ | discriminate].
    intros H. cbn [String.length drop_str].
    change (String a p +:+ drop_str (String.length p) s)
      with (String a (p +:+ drop_str (String.length p) s)).
    rewrite <- (IH s H). reflexivity.
Qed.

Lemma match_short_spec (s id : string) :
  match_short s = Some id ->
  String.length id = 11%nat /\ all_id_chars id = true /\
  exists rest, s = "shorts/" +:+ id +:+ rest.
Proof.
  unfold match_short. destruct (String.prefix "shorts/" s) eqn:Hp;
    [ | discriminate].
  intros Hid. destruct (take_id_spec _ _ _ Hid) as (Hlen & Hall & rest & Hr).
  split; [exact Hlen | ]. split; [exact Hall | ].
  exists rest. rewrite <- Hr. apply (prefix_split "shorts/" s Hp).
Qed.

Lemma findall_shorts_spec (s : string) : forall (skip : nat) (id : string),
  In id (findall_shorts skip s) ->
  String.length id = 11%nat /\ all_id_chars id = true /\
  occurs_as_short id s.
Proof.
  induction s as [ | c r IH]; intros skip id; [intros [] | ].
  assert (Hlater : forall k, In id (findall_shorts k r) ->
            String.length id = 11%nat /\ all_id_chars id = true /\
            occurs_as_short id (String c r)).
  { intros k Hin. destruct (IH k id Hin) as (Hl & Ha & before & after & ->).
    split; [exact Hl | ]. split; [exact Ha | ].
    exists (String c before), after. reflexivity. }
  cbn [findall_shorts]. destruct skip as [ | k]; [ | apply Hlater].
  destruct (match_short (String c r)) as [id0 | ] eqn:Hm; [ | apply Hlater].
  intros [<- | Hin]; [ | exact (Hlater _ Hin)].
  destruct (match_short_spec _ _ Hm) as (Hl & Ha & rest & Hr).
  split; [exact Hl | ]. split; [exact Ha | ].
  exists EmptyString, rest. exact Hr.
Qed.

Lemma match_short_nil : match_short EmptyString = None.
Proof. reflexivity. Qed.

(** A match is reported unless the scan is still inside an earlier match:
    none starts in the seventeen places before it. *)
Lemma findall_shorts_complete (s : string) : forall (skip n : nat) (id : string),
  match_short (drop_str n s) = Some id ->
  (skip <= n)%nat ->
  (forall k, (k < n)%nat -> (n <= k + 17)%nat ->
             match_short (drop_str k s) = None) ->
  In id (findall_shorts skip s).
Proof.
  induction s as [ | c r IH]; intros skip n id Hm Hskip Hfree.
  - destruct n; cbn [drop_str] in Hm; rewrite match_short_nil in Hm;
      discriminate.
  - cbn [findall_shorts]. destruct skip as [ | skip'].
    + destruct n as [ | n'].
      * cbn [drop_str] in Hm. rewrite Hm. left. reflexivity.
      * cbn [drop_str] in Hm.
        assert (Hfree' : forall k, (k < n')%nat -> (n' <= k + 17)%nat ->
                  match_short (drop_str k r) = None).
        { intros k Hk1 Hk2. apply (Hfree (S k)); lia. }
        destruct (match_short (String c r)) as [id0 | ] eqn:Hm0.
        -- right. apply (IH 17%nat n' id Hm); [ | exact Hfree'].
           destruct (Nat.le_gt_cases 17 n') as [Hle | Hgt]; [exact Hle | ].
           exfalso. assert (H0 : match_short (drop_str 0 (String c r)) = None).
           { apply Hfree; lia. }
           cbn [drop_str] in H0. congruence.
        -- apply (IH 0%nat n' id Hm); [lia | exact Hfree'].
    + destruct n as [ | n']; [lia | ]. cbn [drop_str] in Hm.
      apply (IH skip' n' id Hm); [lia | ].
      intros k Hk1 Hk2. apply (Hfree (S k)); lia.
Qed.

(** X16.  [extract_video_ids] returns each id once; every id it returns is
    eleven characters of the class [A-Za-z0-9_-] that stand behind
    "shorts/" in the page; an id is returned whenever the page answers
    without a client or server error and the pattern matches at a place
    with no match starting in the seventeen places before it (a match that
    starts inside an earlier one is passed over by [re.findall]); and when
    the request raises or is answered with a client or server error the
    result is the empty list, never an exception. *)
Theorem extracted_ids_are_distinct_shorts (E : env) (url : string) :
  NoDup (extract_video_ids E url) /\
  (forall id, In id (extract_video_ids E url) ->
     String.length id = 11%nat /\ all_id_chars id = true /\
     exists status html,
       http_get E url = Ret (status, html) /\ occurs_as_short id html) /\
  (forall status html n id,
     http_get E url = Ret (status, html) -> ~ 400 <= status < 600 ->
     match_short (drop_str n html) = Some id ->
     (forall k, (k < n)%nat -> (n <= k + 17)%nat ->
                match_short (drop_str k html) = None) ->
     In id (extract_video_ids E url)) /\
  (forall e, http_get E url = Raise e -> extract_video_ids E url = []) /\
  (forall status html,
     http_get E url = Ret (status, html) -> 400 <= status < 600 ->
     extract_video_ids E url = []).
Proof.
  unfold extract_video_ids.
  destruct (http_get E url) as [[status html] | e] eqn:Hget;
    cbn [mbind outcome_bind obind fst snd].
  - unfold raise_for_status.
    destruct ((400 <=? status) && (status <? 600))%bool eqn:Hst;
      cbn [mbind outcome_bind obind].
    + split; [constructor | ]. split; [intros id [] | ].
      split; [ | split; [discriminate | reflexivity]].
      intros st h n id [= <- <-] Hrange. exfalso. apply Hrange.
      apply andb_true_iff in Hst. destruct Hst as [H1 H2].
      apply Z.leb_le in H1. apply Z.ltb_lt in H2. lia.
    + destruct (fromkeys_spec (findall_shorts 0 html)) as [Hnd Hin].
      split; [exact Hnd | ]. split; [ | split].
      * intros id Hid. apply Hin in Hid.
        destruct (findall_shorts_spec html 0 id Hid) as (Hl & Ha & Ho).
        split; [exact Hl | ]. split; [exact Ha | ].
        exists status, html. split; [reflexivity | exact Ho].
      * intros st h n id [= <- <-] _ Hm Hfree. apply Hin.
        apply (findall_shorts_complete html 0 n id Hm); [lia | exact Hfree].
      * split; [discriminate | ].
        intros st h [= <- <-] Hrange.
        apply andb_false_iff in Hst. destruct Hst as [H | H].
        -- apply Z.leb_gt in H. lia.
        -- apply Z.ltb_ge in H. lia.
  - split; [constructor | ]. split; [intros id [] | ].
    split; [discriminate | ]. split; [reflexivity | discriminate].
Qed.

Lemma extracted_ids_are_distinct_shorts_witness :
  NoDup (extract_video_ids Cases.channel
           "https://www.youtube.com/@someone/shorts") /\
  In "bbbbbbbbbbb"%string
     (extract_video_ids Cases.channel
        "https://www.youtube.com/@someone/shorts") /\
  extract_video_ids Cases.gone "https://www.youtube.com/@someone/shorts" = [].
Proof.
  split; [ | split].
  - destruct (extracted_ids_are_distinct_shorts Cases.channel
                "https://www.youtube.com/@someone/shorts")
      as (Hnd & _).
    exact Hnd.
  - destruct (extracted_ids_are_distinct_shorts Cases.channel
                "https://www.youtube.com/@someone/shorts")
      as (_ & _ & Hfound & _).
    apply (Hfound 200
             ("<a href=/shorts/AAAAAAAAAAA><a href=/shorts/bbbbbbbbbbb>"
              +:+ "<a href=/shorts/AAAAAAAAAAA>")
             37%nat "bbbbbbbbbbb"%string).
    + reflexivity.
    + lia.
    + reflexivity.
    + intros k Hk1 Hk2.
      assert (Hk : (k = 20 \/ k = 21 \/ k = 22 \/ k = 23 \/ k = 24 \/ k = 25
                   \/ k = 26 \/ k = 27 \/ k = 28 \/ k = 29 \/ k = 30
                   \/ k = 31 \/ k = 32 \/ k = 33 \/ k = 34 \/ k = 35
                   \/ k = 36)%nat) by lia.
      repeat (destruct Hk as [-> | Hk]; [reflexivity | ]).
      subst k. reflexivity.
  - destruct (extracted_ids_are_distinct_shorts Cases.gone
                "https://www.youtube.com/@someone/shorts")
      as (_ & _ & _ & _ & Herr).
    apply (Herr 404 "shorts/AAAAAAAAAAA"); [reflexivity | lia].
Defined.

Lemma try_url_delivers (E : env) (u save_path : string) (s : state) :
  match delivers E save_path u with
  | Some img =>
      try_url E u save_path s
      = (Ret true, MkState (<[save_path := img]> (files s)) (requests s ++ [u]))
  | None =>
      exists r, r <> Ret true /\
        try_url E u save_path s = (r, MkState (files s) (requests s ++ [u]))
  end.
Proof.
  unfold delivers, try_url.
  cbv beta iota delta [mbind M_bind mbind_M mret M_ret mret_M lift modify raise].
  destruct (http_get E u) as [[status body] | e]; cbn [fst snd].
  - destruct (status =? 200).
    + destruct (decode E body) as [img | e].
      * destruct (save_error E save_path) as [e | ].
        -- eexists. split; [ | reflexivity]. discriminate.
        -- reflexivity.
      * eexists. split; [ | reflexivity]. discriminate.
    + eexists. split; [ | reflexivity]. discriminate.
  - eexists. split; [ | reflexivity]. discriminate.
Qed.

(** The loop over the addresses stops at the first that delivers. *)
Lemma try_urls_spec (E : env) (save_path : string) (urls : list string) :
  forall s : state,
  (exists k u img,
     urls !! k = Some u /\ delivers E save_path u = Some img /\
     (forall j v, (j < k)%nat -> urls !! j = Some v ->
                  delivers E save_path v = None) /\
     try_urls E urls save_path s
     = (Ret true,
        MkState (<[save_path := img]> (files s))
                (requests s ++ take (S k) urls)))
  \/
  ((forall u, In u urls -> delivers E save_path u = None) /\
   try_urls E urls save_path s
   = (Ret false, MkState (files s) (requests s ++ urls))).
Proof.
  induction urls as [ | u rest IH]; intros s.
  - right. split; [intros u [] | ]. cbn. rewrite app_nil_r.
    destruct s. reflexivity.
  - cbn [try_urls]. unfold attempt.
    pose proof (try_url_delivers E u save_path s) as Hu.
    destruct (delivers E save_path u) as [img | ] eqn:Hd.
    + left. exists 0%nat, u, img. split; [reflexivity | ].
      split; [exact Hd | ]. split; [intros j v Hj; lia | ].
      unfold mbind, M_bind, mbind_M. rewrite Hu. reflexivity.
    + destruct Hu as (r & Hr & Hrun).
      set (s1 := MkState (files s) (requests s ++ [u])) in *.
      assert (Hstep : (attempt (try_url E u save_path) ≫=
                        (fun r => match r with
                                  | Ret true => mret true
                                  | _ => try_urls E rest save_path
                                  end)) s
                      = try_urls E rest save_path s1).
      { unfold mbind, M_bind, mbind_M, attempt. rewrite Hrun.
        destruct r as [[ | ] | e]; [congruence | reflexivity | reflexivity]. }
      unfold attempt in Hstep. rewrite Hstep.
      destruct (IH s1) as [(k & v & img & Hk & Hv & Hbefore & Hrun1)
                          | (Hnone & Hrun1)].
      * left. exists (S k), v, img. split; [exact Hk | ].
        split; [exact Hv | ]. split.
        -- intros j w Hj Hw. destruct j as [ | j].
           ++ cbn in Hw. injection Hw as <-. exact Hd.
           ++ apply (Hbefore j w); [lia | exact Hw].
        -- rewrite Hrun1. unfold s1. cbn [files requests].
           rewrite <- app_assoc. reflexivity.
      * right. split.
        -- intros w [<- | Hw]; [exact Hd | apply Hnone; exact Hw].
        -- rewrite Hrun1. unfold s1. cbn [files requests].
           rewrite <- app_assoc. reflexivity.
Qed.

(** X17.  [download_thumbnail] tries the three addresses of a video in the
    order maxresdefault, hq720, hqdefault and stops at the first that
    delivers (status 200, a body that decodes, a file that can be written):
    it returns True with that image saved as thumb_NNNN.jpg and no further
    request sent; when none delivers it returns False after three requests
    and saves nothing.  An exception never escapes. *)
Theorem first_delivering_address_wins (E : env) (video_id folder : string)
    (index : Z) (s : state) :
  let save_path := path_join folder (thumb_name index) in
  let urls := thumbnail_urls video_id in
  (exists k u img,
     urls !! k = Some u /\ delivers E save_path u = Some img /\
     (forall j v, (j < k)%nat -> urls !! j = Some v ->
                  delivers E save_path v = None) /\
     download_thumbnail E video_id folder index s
     = (Ret true,
        MkState (<[save_path := img]> (files s))
                (requests s ++ take (S k) urls)))
  \/
  ((forall u, In u urls -> delivers E save_path u = None) /\
   download_thumbnail E video_id folder index s
   = (Ret false, MkState (files s) (requests s ++ urls))).
Proof.
  intros save_path urls. unfold download_thumbnail.
  apply try_urls_spec.
Qed.

Import Slideshow SlideshowRun CatalogFacts.

(** Up to 9999, the next thumbnail name is the larger one, and it is an
    image name. *)
Lemma thumb_name_step :
  forallb (fun i => String.ltb (thumb_name i) (thumb_name (i + 1))
                    && is_image_name (thumb_name (i + 1)))%bool
          (range 9999) = true.
Proof. vm_compute. reflexivity. Qed.

Lemma ltb_trans (a b c : string) :
  String.ltb a b = true -> String.ltb b c = true -> String.ltb a c = true.
Proof.
  intros H1 H2. apply ltb_lt in H1, H2. apply ltb_lt.
  exact (OrderedTypeEx.String_as_OT.lt_trans _ _ _ H1 H2).
Qed.

Lemma thumb_name_next (i : Z) :
  0 <= i < 9999 ->
  String.ltb (thumb_name i) (thumb_name (i + 1)) = true /\
  is_image_name (thumb_name (i + 1)) = true.
Proof.
  intros Hi. apply andb_true_iff.
  apply (FrameFacts.range_forall 9999
           (fun i => String.ltb (thumb_name i) (thumb_name (i + 1))
                     && is_image_name (thumb_name (i + 1)))%bool
           thumb_name_step i Hi).
Qed.

Lemma thumb_name_increasing (i : Z) (d : nat) :
  0 <= i -> i + Z.of_nat d < 9999 ->
  String.ltb (thumb_name i) (thumb_name (i + 1 + Z.of_nat d)) = true.
Proof.
  intros Hi. induction d as [ | d IH]; intros Hd.
  - replace (i + 1 + Z.of_nat 0) with (i + 1) by lia.
    apply thumb_name_next. lia.
  - apply (ltb_trans _ (thumb_name (i + 1 + Z.of_nat d))).
    + apply IH. lia.
    + replace (i + 1 + Z.of_nat (S d)) with (i + 1 + Z.of_nat d + 1) by lia.
      apply thumb_name_next. lia.
Qed.

Lemma str_le_antisym (a b : string) : str_le a b -> str_le b a -> a = b.
Proof. unfold str_le. intros H1 H2. apply ltb_total; assumption. Qed.

(** A sorted list is determined by its elements. *)
Lemma sorted_unique (l1 : list string) : forall l2 : list string,
  StronglySorted str_le l1 -> StronglySorted str_le l2 ->
  Permutation l1 l2 -> l1 = l2.
Proof.
  induction l1 as [ | a l1 IH]; intros l2 H1 H2 Hp.
  - apply Permutation_nil_l in Hp. congruence.
  - destruct l2 as [ | b l2].
    { apply Permutation_nil_r in Hp. discriminate. }
    apply StronglySorted_inv in H1. destruct H1 as [H1 Ha].
    apply StronglySorted_inv in H2. destruct H2 as [H2 Hb].
    assert (Hab : a = b).
    { assert (Hin_a : In a (b :: l2)).
      { eapply Permutation_in; [exact Hp | left; reflexivity]. }
      assert (Hin_b : In b (a :: l1)).
      { eapply Permutation_in; [symmetry; exact Hp | left; reflexivity]. }
      destruct Hin_a as [-> | Hin_a]; [reflexivity | ].
      destruct Hin_b as [-> | Hin_b]; [reflexivity | ].
      apply str_le_antisym.
      - rewrite List.Forall_forall in Ha. apply Ha. exact Hin_b.
      - rewrite List.Forall_forall in Hb. apply Hb. exact Hin_a. }
    subst b. f_equal. apply IH; [exact H1 | exact H2 | ].
    apply (Permutation_cons_inv Hp).
Qed.

(** The names of thumbnails with increasing numbers are in order. *)
Lemma thumb_names_sorted (kept : list Z) :
  StronglySorted Z.lt kept ->
  Forall (fun i => 1 <= i <= 9999) kept ->
  StronglySorted str_le (map thumb_name kept) /\
  Forall (fun x => is_image_name x = true) (map thumb_name kept).
Proof.
  induction 1 as [ | i kept Hs IH Hi]; intros Hb.
  - split; constructor.
  - apply Forall_cons in Hb. destruct Hb as [Hbi Hb].
    destruct (IH Hb) as [IH1 IH2]. cbn [map]. split.
    + constructor; [exact IH1 | ].
      apply List.Forall_forall. intros x Hx. apply in_map_iff in Hx.
      destruct Hx as (j & <- & Hj).
      rewrite List.Forall_forall in Hi, Hb.
      pose proof (Hi j Hj) as Hij. pose proof (Hb j Hj) as Hbj.
      apply lt_le.
      replace j with (i + 1 + Z.of_nat (Z.to_nat (j - i - 1))) by lia.
      apply thumb_name_increasing; lia.
    + constructor; [ | exact IH2].
      replace i with (i - 1 + 1) by lia. apply thumb_name_next. lia.
Qed.

Lemma filter_all (f : string -> bool) (l : list string) :
  Forall (fun x => f x = true) l -> List.filter f l = l.
Proof.
  induction 1 as [ | x l Hx _ IH]; [reflexivity | ].
  cbn [List.filter]. rewrite Hx, IH. reflexivity.
Qed.

(** X18.  Thumbnails play in download order when shuffling is off.  The
    downloader names the thumbnail of the i-th video thumb_NNNN.jpg with i
    zero-padded to four digits, and the slideshow sorts the names of the
    folder.  For a folder whose image files are the thumbnails saved by one
    download of up to 9999 videos (some may be missing, other files may lie
    beside them), listed in any order, the catalog the job walks is the
    thumbnails in the order of their numbers.  The padding is what the
    order rests on: the 10000th name sorts before the 1001st. *)
Theorem thumbnails_play_in_download_order (E : Slideshow.env)
    (kept : list Z) (listing : list string) :
  StronglySorted Z.lt kept ->
  Forall (fun i => 1 <= i <= 9999) kept ->
  Permutation (List.filter is_image_name listing) (map thumb_name kept) ->
  ordered_images E false listing = map thumb_name kept /\
  String.ltb (thumb_name 10000) (thumb_name 1001) = true.
Proof.
  intros Hs Hb Hp. split; [ | vm_compute; reflexivity].
  assert (Hcat : ordered_images E false listing = scan_images listing).
  { unfold ordered_images. destruct (scan_images listing); reflexivity. }
  rewrite Hcat.
  destruct (scan_images_spec listing) as (Hperm & Hsorted).
  destruct (thumb_names_sorted kept Hs Hb) as [Hnames _].
  apply sorted_unique.
  - exact Hsorted.
  - exact Hnames.
  - rewrite Hperm. exact Hp.
Qed.

Lemma thumbnails_play_in_download_order_witness :
  ordered_images Cases.no_codec false
    ["thumb_0003.jpg"; "notes.txt"; "thumb_0001.jpg"]
  = ["thumb_0001.jpg"; "thumb_0003.jpg"].
Proof.
  destruct (thumbnails_play_in_download_order Cases.no_codec [1; 3]
              ["thumb_0003.jpg"; "notes.txt"; "thumb_0001.jpg"])
    as [H _].
  - repeat constructor; lia.
  - repeat constructor; lia.
  - change (Permutation ["thumb_0003.jpg"; "thumb_0001.jpg"]%string
                        ["thumb_0001.jpg"; "thumb_0003.jpg"]%string).
    apply perm_swap.
  - exact H.
Defined.

End ThumbFacts.

(* ===================================================================== *)
(** * The file list of the portrait converter                             *)
(* ===================================================================== *)

Module LibraryFacts.
Import Portrait Library.

Lemma video_resolution_positive (E : env) (path : string) (w h : Z) :
  video_resolution E path = Some (w, h) -> 0 < w /\ 0 < h.
Proof.
  unfold video_resolution.
  destruct (capture E path) as [[[opened fw] fh] | e];
    cbn [mbind outcome_bind obind]; [ | discriminate].
  destruct opened; cbn [negb]; [ | discriminate].
  destruct (int_or_zero fw) as [w0 | e]; cbn [mbind outcome_bind obind];
    [ | discriminate].
  destruct (int_or_zero fh) as [h0 | e]; cbn [mbind outcome_bind obind];
    [ | discriminate].
  destruct ((w0 <=? 0) || (h0 <=? 0))%bool eqn:Hpos; [discriminate | ].
  intros [= <- <-]. apply orb_false_iff in Hpos. destruct Hpos as [Hw Hh].
  apply Z.leb_gt in Hw, Hh. split; assumption.
Qed.

(** One call of [_add_file_entry]: nothing or one probed row is appended,
    and the path is listed once afterwards. *)
Lemma add_entry_step (E : env) (files : list row) (p : string) :
  NoDup (map row_path files) ->
  exists added,
    _add_file_entry E files p = files ++ added /\
    NoDup (map row_path (files ++ added)) /\
    Forall (probed E) added /\
    In (abspath E p) (map row_path (files ++ added)) /\
    (forall r, In r added -> row_path r = abspath E p).
Proof.
  intros Hnd. unfold _add_file_entry.
  destruct (existsb (fun entry => String.eqb (row_path entry) (abspath E p))
                    files) eqn:Hex.
  - exists []. rewrite app_nil_r. split; [reflexivity | ].
    split; [exact Hnd | ]. split; [constructor | ].
    split; [ | intros r []].
    apply existsb_exists in Hex. destruct Hex as (r & Hr & Heq).
    apply String.eqb_eq in Heq. rewrite <- Heq. apply in_map. exact Hr.
  - eexists [_]. split; [reflexivity | ].
    split; [ | split; [ | split]].
    + rewrite map_app. apply NoDup_app. split; [exact Hnd | ].
      split; [ | apply NoDup_singleton].
      intros q Hq Hin. cbn in Hin. apply list_elem_of_singleton in Hin.
      subst q. apply list_elem_of_In, in_map_iff in Hq.
      destruct Hq as (r & Hr & Hin).
      assert (Hex' : existsb (fun entry =>
                                String.eqb (row_path entry) (abspath E p))
                             files = true).
      { apply existsb_exists. exists r. split; [exact Hin | ].
        apply String.eqb_eq. exact Hr. }
      congruence.
    + constructor; [ | constructor]. split; reflexivity.
    + rewrite map_app, in_app_iff. right. left. reflexivity.
    + intros r [<- | []]. reflexivity.
Qed.

Lemma add_files_spec (E : env) (chosen : list string) :
  forall files : list row,
  NoDup (map row_path files) ->
  exists added,
    add_files E files chosen = files ++ added /\
    NoDup (map row_path (files ++ added)) /\
    Forall (probed E) added /\
    (forall p, In p chosen ->
               In (abspath E p) (map row_path (files ++ added))) /\
    (forall r, In r added ->
               exists p, In p chosen /\ row_path r = abspath E p).
Proof.
  induction chosen as [ | p chosen IH]; intros files Hnd.
  - exists []. rewrite app_nil_r. cbn.
    repeat split; try assumption; try constructor; intros ? [].
  - change (add_files E files (p :: chosen))
      with (add_files E (_add_file_entry E files p) chosen).
    destruct (add_entry_step E files p Hnd)
      as (a1 & Hrun1 & Hnd1 & Hok1 & Hin1 & Hp1).
    destruct (IH (files ++ a1) Hnd1)
      as (a2 & Hrun2 & Hnd2 & Hok2 & Hin2 & Hp2).
    exists (a1 ++ a2). rewrite Hrun1, Hrun2. rewrite app_assoc.
    split; [reflexivity | ]. split; [exact Hnd2 | ].
    split; [apply Forall_app; split; assumption | ].
    split.
    + intros q [<- | Hq]; [ | apply Hin2; exact Hq].
      rewrite map_app, in_app_iff. left. exact Hin1.
    + intros r Hr. apply in_app_iff in Hr. destruct Hr as [Hr | Hr].
      * exists p. split; [left; reflexivity | apply Hp1; exact Hr].
      * destruct (Hp2 r Hr) as (q & Hq & Heq). exists q.
        split; [right; exact Hq | exact Heq].
Qed.

(** X19.  Adding files to the list never repeats a path and never touches
    the rows already there: the new list is the old one followed by new
    rows, each absolute path occurs once, every chosen file is listed, and
    every new row is one of the chosen files, probed for its resolution and
    ticked exactly when it is a portrait video. *)
Theorem add_files_keeps_paths_unique (E : env) (files : list row)
    (chosen : list string) :
  NoDup (map row_path files) ->
  exists added,
    add_files E files chosen = files ++ added /\
    NoDup (map row_path (add_files E files chosen)) /\
    (forall p, In p chosen ->
               In (abspath E p) (map row_path (add_files E files chosen))) /\
    Forall (fun r => probed E r /\
                     exists p, In p chosen /\ row_path r = abspath E p)
           added.
Proof.
  intros Hnd.
  destruct (add_files_spec E chosen files Hnd)
    as (added & Hrun & Hnd' & Hok & Hin & Hp).
  exists added. rewrite Hrun.
  split; [reflexivity | ]. split; [exact Hnd' | ]. split; [exact Hin | ].
  apply List.Forall_forall. intros r Hr. split.
  - rewrite List.Forall_forall in Hok. apply Hok. exact Hr.
  - apply Hp. exact Hr.
Qed.

Lemma scan_fold_as_add_files (E : env) (folder : string)
    (names : list string) : forall files : list row,
  fold_left (fun files fname =>
               if is_video_name fname
               then _add_file_entry E files (path_join folder fname)
               else files)
            names files
  = add_files E files
      (map (path_join folder) (List.filter is_video_name names)).
Proof.
  induction names as [ | n names IH]; intros files; [reflexivity | ].
  cbn [fold_left List.filter]. destruct (is_video_name n).
  - cbn [map]. rewrite IH. reflexivity.
  - apply IH.
Qed.

Lemma add_files_keeps_paths_unique_witness :
  exists added,
    add_files Cases.shelf [] ["a.mp4"; "b.mp4"; "a.mp4"] = [] ++ added /\
    NoDup (map row_path
             (add_files Cases.shelf [] ["a.mp4"; "b.mp4"; "a.mp4"])).
Proof.
  destruct (add_files_keeps_paths_unique Cases.shelf []
              ["a.mp4"; "b.mp4"; "a.mp4"] (NoDup_nil_2 (A := string)))
    as (added & Hrun & Hnd & _).
  exists added. split; [exact Hrun | exact Hnd].
Defined.

(** X20.  A folder scan lists every video of the folder, each once (the
    names with a video extension, whatever their case), lists nothing
    else, and ticks exactly the portrait ones: a row is ticked if and only
    if its file opens with positive sides and is higher than wide, so a
    conversion started on the ticked rows as the scan left them holds only
    such videos.  A folder that cannot be listed leaves the list empty and
    logs the error; no exception escapes. *)
Theorem scan_preselects_portrait_videos (E : env) (folder : string) :
  let rows := fst (scan_folder E folder) in
  NoDup (map row_path rows) /\
  (forall names fname,
     listdir E folder = Ret names -> In fname names ->
     is_video_name fname = true ->
     In (abspath E (path_join folder fname)) (map row_path rows)) /\
  Forall (fun r =>
            exists names fname,
              listdir E folder = Ret names /\ In fname names /\
              is_video_name fname = true /\
              row_path r = abspath E (path_join folder fname))
         rows /\
  Forall (fun r =>
            row_res r = video_resolution E (row_path r) /\
            (row_selected r = 0 \/ row_selected r = 1) /\
            (row_selected r = 1 <->
             exists w h,
               video_resolution E (row_path r) = Some (w, h) /\ 0 < w < h))
         rows /\
  Forall (fun e =>
            exists w h,
              video_resolution E (path e) = Some (w, h) /\
              res e = Some (w, h) /\ 0 < w < h)
         (selected_entries rows) /\
  (forall e, listdir E folder = Raise e ->
             scan_folder E folder = ([], Some ("Scan error: " +:+ e))).
Proof.
  unfold scan_folder.
  destruct (listdir E folder) as [names | e] eqn:Hls; cbn [fst].
  - rewrite scan_fold_as_add_files.
    destruct (add_files_spec E
                (map (path_join folder)
                     (List.filter is_video_name (sorted names)))
                [] (NoDup_nil_2 (A := string)))
      as (added & Hrun & Hnd & Hok & Hall & Hfrom).
    rewrite Hrun. cbn [app] in Hnd, Hall |- *.
    assert (Hticked : forall r, In r added ->
              row_res r = video_resolution E (row_path r) /\
              (row_selected r = 0 \/ row_selected r = 1) /\
              (row_selected r = 1 <->
               exists w h,
                 video_resolution E (row_path r) = Some (w, h) /\ 0 < w < h)).
    { intros r Hr. rewrite List.Forall_forall in Hok.
      destruct (Hok r Hr) as [Hres Hs]. split; [exact Hres | ].
      rewrite Hs, Hres.
      destruct (video_resolution E (row_path r)) as [[w h] | ] eqn:Hv;
        cbn [is_portrait].
      - destruct (video_resolution_positive E _ _ _ Hv) as [Hw Hh].
        destruct (w <? h) eqn:Hwh.
        + apply Z.ltb_lt in Hwh. split; [right; reflexivity | ].
          split; [intros _ | reflexivity].
          exists w, h. split; [reflexivity | lia].
        + apply Z.ltb_ge in Hwh. split; [left; reflexivity | ].
          split; [discriminate | ].
          intros (w' & h' & [= <- <-] & Hlt). lia.
      - split; [left; reflexivity | ]. split; [discriminate | ].
        intros (w' & h' & Hsome & _). discriminate. }
    split; [exact Hnd | ]. split; [ | split; [ | split; [ | split]]].
    + intros ns fname [= <-] Hin Hvid. apply Hall.
      apply in_map. apply List.filter_In. split; [ | exact Hvid].
      eapply Permutation_in; [symmetry; apply CatalogFacts.sorted_perm | ].
      exact Hin.
    + apply List.Forall_forall. intros r Hr.
      destruct (Hfrom r Hr) as (p & Hp & Hpath).
      apply in_map_iff in Hp. destruct Hp as (fname & <- & Hf).
      apply List.filter_In in Hf. destruct Hf as [Hin Hvid].
      exists names, fname. split; [reflexivity | ].
      split; [ | split; [exact Hvid | exact Hpath]].
      eapply Permutation_in; [apply CatalogFacts.sorted_perm | exact Hin].
    + apply List.Forall_forall. exact Hticked.
    + unfold selected_entries. apply List.Forall_forall. intros e He.
      apply in_map_iff in He. destruct He as (r & <- & Hr).
      apply List.filter_In in Hr. destruct Hr as [Hr Hsel].
      destruct (Hticked r Hr) as (Hres & _ & Hiff).
      apply Z.eqb_eq in Hsel. apply Hiff in Hsel.
      destruct Hsel as (w & h & Hv & Hlt). exists w, h.
      cbn [path res]. split; [exact Hv | ]. split; [ | exact Hlt].
      rewrite Hres. exact Hv.
    + discriminate.
  - split; [constructor | ]. split; [discriminate | ].
    split; [constructor | ]. split; [constructor | ].
    split; [constructor | ]. intros e0 [= <-]. reflexivity.
Qed.

End LibraryFacts.

